(** * rest-hapi: document-scope policies and the association helpers

    A shallow embedding of
    - [policies/enforce-document-scope.js] (module [Policy]): the scope
      comparator, the per-document scope verification and the two request
      hooks built on it;
    - the handler helper (module [Handler]): [_addOne], [_removeOne],
      [_addMany], [_setAssociation] and [_removeAssociation]; (module
      [Crud]): [_delete] and [_update]; (module [GetAll]): the extra fields
      that [_getAll] sets on its result;
    - the Joi model generator (module [JoiHelper]): [generateJoiReadModel],
      [generateJoiUpdateModel], [generateJoiCreateModel] and
      [generateJoiModelFromAttribute].

    JavaScript values that the code leaves dynamically typed are kept
    dynamically typed here ([value]), a [throw] is an explicit [Throw]
    outcome, and objects that the code updates in place are threaded through
    the functions that update them. *)

From stdpp Require Import base strings list gmap pretty.

Local Open Scope string_scope.

(** ** Exceptions and the error monad *)

Module JS.

(** The values that flow through the accumulators of [compareScopes]. *)
Inductive value :=
| VUndefined
| VBool (b : bool)
| VNumber (n : nat)
| VString (s : string)
| VArray (l : list string).

(** What a [throw] carries: a [TypeError] raised by the runtime (with the
    expression that raised it), or a value thrown by the program. *)
Inductive exn :=
| TypeError (what : string)
| Thrown (v : value).

Inductive result (A : Type) :=
| Ok (a : A)
| Throw (e : exn).
Arguments Ok {A} a.
Arguments Throw {A} e.

#[export] Instance result_ret : MRet result := fun A a => Ok a.
#[export] Instance result_bind : MBind result := fun A B f m =>
  match m with
  | Ok a => f a
  | Throw e => Throw e
  end.

(** ToBoolean *)
Definition truthy (v : value) : bool :=
  match v with
  | VUndefined => false
  | VBool b => b
  | VNumber n => negb (Nat.eqb n 0)
  | VString s => negb (String.eqb s "")
  | VArray _ => true
  end.

(** [v === s] for a string literal [s] *)
Definition strict_eq_string (v : value) (s : string) : bool :=
  match v with
  | VString s' => String.eqb s' s
  | _ => false
  end.

(** [v[0]] *)
Definition index0 (v : value) : result value :=
  match v with
  | VUndefined => Throw (TypeError "Cannot read property '0' of undefined")
  | VString (String c _) => Ok (VString (String c EmptyString))
  | VArray (x :: _) => Ok (VString x)
  | _ => Ok VUndefined
  end.

(** [v.substr(1)] *)
Definition substr1 (v : value) : result value :=
  match v with
  | VUndefined => Throw (TypeError "Cannot read property 'substr' of undefined")
  | VString (String _ s) => Ok (VString s)
  | VString EmptyString => Ok (VString EmptyString)
  | _ => Throw (TypeError "substr is not a function")
  end.

(** [scope.push(arg)]: the member lookup comes first, then the argument,
    then the call; the call returns the new length. The array it extends is
    only reachable through [scope]. *)
Definition push (scope : value) (arg : result value) : result value :=
  match scope with
  | VUndefined => Throw (TypeError "Cannot read property 'push' of undefined")
  | VArray l => _ ← arg; Ok (VNumber (S (length l)))
  | _ => _ ← arg; Throw (TypeError "push is not a function")
  end.

(** [Array.prototype.reduce] with an initial value: the accumulator of the
    next round is whatever the callback returned. *)
Fixpoint reduce {A : Type} (callback : value → A → result value)
    (l : list A) (accumulator : value) : result value :=
  match l with
  | [] => Ok accumulator
  | x :: l' => acc' ← callback accumulator x; reduce callback l' acc'
  end.

(** [receiver.reduce(callback, initial)] on a dynamically typed receiver *)
Definition reduce_on (receiver : value) (callback : value → value → result value)
    (initial : value) : result value :=
  match receiver with
  | VArray l => reduce callback (VString <$> l) initial
  | VUndefined => Throw (TypeError "Cannot read property 'reduce' of undefined")
  | _ => Throw (TypeError "reduce is not a function")
  end.

(** [Array.prototype.filter] with a callback that may throw *)
Fixpoint filterM {A : Type} (callback : A → result bool) (l : list A) : result (list A) :=
  match l with
  | [] => Ok []
  | x :: l' =>
      keep ← callback x;
      rest ← filterM callback l';
      Ok (if keep : bool then x :: rest else rest)
  end.

(** [userScope.includes(v)] on an array of strings *)
Definition includes (userScope : list string) (v : value) : bool :=
  match v with
  | VString s => existsb (String.eqb s) userScope
  | _ => false
  end.

End JS.

(** ** policies/enforce-document-scope.js *)

Module Policy.
Import JS.

(** [internals.compareScopes] *)
Definition compareScopes (userScope : list string) (documentScope : list value)
    : result bool :=
  fobiddenScope ← reduce (fun scope scopeValue =>
      c ← index0 scopeValue;
      if strict_eq_string c "!"
      then _ ← push scope (substr1 scopeValue); Ok VUndefined
      else Ok VUndefined)
    documentScope (VArray []);
  scopeSatisfied ← reduce_on fobiddenScope (fun satisfied scopeValue =>
      if includes userScope scopeValue then Ok (VBool false) else Ok VUndefined)
    (VBool true);
  if negb (truthy scopeSatisfied) then Ok false else
  requiredScope ← reduce (fun scope scopeValue =>
      c ← index0 scopeValue;
      if strict_eq_string c "+"
      then push scope (substr1 scopeValue)
      else Ok VUndefined)
    documentScope (VArray []);
  scopeSatisfied ← reduce_on requiredScope (fun satisfied scopeValue =>
      if negb (includes userScope scopeValue) then Ok (VBool false) else Ok VUndefined)
    (VBool true);
  if negb (truthy scopeSatisfied) then Ok false else
  generalScope ← filterM (fun scopeValue =>
      c ← index0 scopeValue;
      if negb (strict_eq_string c "!")
      then c' ← index0 scopeValue; Ok (negb (strict_eq_string c' "+"))
      else Ok false)
    documentScope;
  scopeSatisfied ← reduce (fun satisfied scopeValue =>
      if includes userScope scopeValue then Ok (VBool true) else Ok VUndefined)
    generalScope (VBool false);
  if negb (truthy scopeSatisfied) then Ok false else
  Ok true.


(** The comparator in the words of the specification, to compare
    [compareScopes] with: tokens prefixed [!] are forbidden, tokens prefixed
    [+] are required, of the others the caller holds at least one when
    there are any. *)
Definition stripped (prefix : string) (documentScope : list string) : list string :=
  omap (fun token =>
    match token with
    | String c rest =>
        if String.eqb (String c EmptyString) prefix then Some rest else None
    | EmptyString => None
    end) documentScope.

Definition general (documentScope : list string) : list string :=
  List.filter (fun token =>
    match token with
    | String c _ =>
        negb (String.eqb (String c EmptyString) "!")
        && negb (String.eqb (String c EmptyString) "+")
    | EmptyString => true
    end) documentScope.

Definition compareSpec (callerScope documentScope : list string) : bool :=
  if existsb (fun t => bool_decide (t ∈ callerScope)) (stripped "!" documentScope)
  then false
  else if negb (forallb (fun t => bool_decide (t ∈ callerScope))
                  (stripped "+" documentScope))
  then false
  else if negb (bool_decide (general documentScope = []))
          && negb (existsb (fun t => bool_decide (t ∈ callerScope))
                     (general documentScope))
  then false
  else true.

(** [compareSpec] as a function that [internals.compareScopes] could hold. *)
Definition specComparator (userScope : list string) (documentScope : list value)
    : result bool :=
  Ok (compareSpec userScope
        (omap (fun v => match v with VString s => Some s | _ => None end)
           documentScope)).

(** *** Documents and their scope policy *)

(** [document.scope]: five optional arrays of tokens. *)
Record ScopePolicy := {
  scope : option (list string);
  readScope : option (list string);
  updateScope : option (list string);
  deleteScope : option (list string);
  associateScope : option (list string);
}.

Record document := {
  _id : string;
  document_scope : option ScopePolicy;   (* [document.scope] *)
}.

(** [_.isEmpty] of the policy object: it has no key at all. *)
Definition isEmpty_object (p : ScopePolicy) : bool :=
  match scope p, readScope p, updateScope p, deleteScope p, associateScope p with
  | None, None, None, None, None => true
  | _, _, _, _, _ => false
  end.

(** [_.isEmpty] of an array *)
Definition isEmpty_array {A : Type} (l : list A) : bool :=
  match l with [] => true | _ => false end.

(** The [switch (action)] of [verifyScope]. *)
Definition actionScopeOf (action : string) (p : ScopePolicy)
    : result (option (list string)) :=
  if String.eqb action "read" then Ok (readScope p)
  else if String.eqb action "update" then Ok (updateScope p)
  else if String.eqb action "delete" then Ok (deleteScope p)
  else if String.eqb action "associate" then Ok (associateScope p)
  else Throw (Thrown (VString "Invalid method type.")).

(** [documentScope.concat(actionScope)]: an argument that is not an array
    is appended as one element. *)
Definition concat (documentScope : list value) (actionScope : option (list string))
    : list value :=
  documentScope ++
  match actionScope with
  | Some a => VString <$> a
  | None => [VUndefined]
  end.

(** Lines 156-183 of [verifyScope]: the document scope that is compared. *)
Definition effectiveScope (action : string) (p : ScopePolicy) : result (list value) :=
  let documentScope := VString <$> default [] (scope p) in
  actionScope ← actionScopeOf action p;
  Ok (if truthy (default VUndefined (head documentScope))
      then concat documentScope actionScope
      else match actionScope with
           | Some a => VString <$> a
           | None => documentScope
           end).

Record VerifyResult := {
  authorized : bool;
  unauthorizedDocs : list document;
}.

Inductive boom :=
| Forbidden (message : string)
| BadImplementation (error : exn).

(** How a hook ends: it calls [next(err, continue)], or an exception leaves
    it. *)
Inductive reply :=
| Next (err : option boom) (continue : bool)
| Uncaught (e : exn).

Record item := {
  item_id : string;            (* [item._id] *)
  hardDelete : option bool;
}.

(** [request.response.source]: one document, or an object with [docs]. *)
Inductive source :=
| Single (d : document)
| Docs (docs : list document).

Record request := {
  method : string;
  params_id : option string;        (* [request.params._id] *)
  params_ownerId : option string;   (* [request.params.ownerId] *)
  payload : option (list item);     (* [request.payload], [None] when it is no array *)
  credentials_scope : list string;  (* [request.auth.credentials.scope] *)
  response_source : source;
}.

(** A document of the response after the post hook. *)
Inductive responseDoc :=
| Document (d : document)
| ErrorObject (error : string).

Inductive response :=
| RSingle (d : document)
| RDocs (docs : list responseDoc).

Definition unchanged (s : source) : response :=
  match s with
  | Single d => RSingle d
  | Docs docs => RDocs (Document <$> docs)
  end.

Definition truthy_param (p : option string) : bool :=
  match p with
  | Some s => negb (String.eqb s "")
  | None => false
  end.

Definition indexOf (l : list string) (s : string) : option nat :=
  list_find (fun x => x = s) l ≫= (fun p => Some p.1).

Section Gate.
(** [config.enableDocumentScopeFail], and the function that
    [internals.compareScopes] holds when [verifyScope] runs. *)
Variable enableDocumentScopeFail : bool.
Variable compare : list string → list value → result bool.

(** The callback of [documents.filter] in [verifyScope]; the first
    component is the variable [authorized] after the call. *)
Definition verifyDocument (action : string) (userScope : list string)
    (document : document) (authorized : bool) : bool * result bool :=
  match document_scope document with
  | Some p =>
      if negb (isEmpty_object p) then
        match effectiveScope action p with
        | Throw e => (authorized, Throw e)
        | Ok documentScope =>
            if isEmpty_array documentScope then (authorized, Ok false)
            else
              match compare userScope documentScope with
              | Throw e => (authorized, Throw e)
              | Ok authorizedForDocument =>
                  if authorizedForDocument then (authorized, Ok false)
                  else if enableDocumentScopeFail
                       then (false, Throw (Thrown (VBool false)))
                       else (false, Ok true)
              end
        end
      else (authorized, Ok false)
  | None => (authorized, Ok false)
  end.

Fixpoint filterDocuments (action : string) (userScope : list string)
    (documents : list document) (authorized : bool)
    : bool * result (list document) :=
  match documents with
  | [] => (authorized, Ok [])
  | d :: rest =>
      match verifyDocument action userScope d authorized with
      | (authorized', Throw e) => (authorized', Throw e)
      | (authorized', Ok keep) =>
          match filterDocuments action userScope rest authorized' with
          | (authorized'', Throw e) => (authorized'', Throw e)
          | (authorized'', Ok kept) =>
              (authorized'', Ok (if keep then d :: kept else kept))
          end
      end
  end.

(** [internals.verifyScope] *)
Definition verifyScopeWith (documents : list document) (action : string)
    (userScope : list string) : result VerifyResult :=
  match filterDocuments action userScope documents true with
  | (authorized, Ok unauthorizedDocs) =>
      Ok {| authorized := authorized; unauthorizedDocs := unauthorizedDocs |}
  | (authorized, Throw (Thrown (VBool false))) =>
      Ok {| authorized := authorized; unauthorizedDocs := [] |}
  | (_, Throw err) => Throw err
  end.

(** [internals.verifyScopeById]; [collection] is what [model] stores, and
    [model.find] answers with the documents whose id is among
    [documentIds]. *)
Definition verifyScopeByIdWith (collection : list document)
    (documentIds : list string) (action : string) (userScope : list string)
    : result VerifyResult :=
  let documents :=
    filter (fun d => bool_decide (_id d ∈ documentIds)) collection in
  verifyScopeWith documents action userScope.

(** The [then]/[catch] of [enforceDocumentScopePreForModel]. *)
Definition preDecision (req : request) (action : string)
    (verified : result VerifyResult) : reply * request :=
  match verified with
  | Throw error => (Next (Some (BadImplementation error)) false, req)
  | Ok result =>
      if authorized result then (Next None true, req)
      else if String.eqb action "delete" && negb enableDocumentScopeFail then
        let unauthorizedIds := _id <$> unauthorizedDocs result in
        match payload req with
        | None =>
            (Next (Some (BadImplementation
               (TypeError "request.payload.filter is not a function"))) false,
             req)
        | Some items =>
            (Next None true,
             {| method := method req;
                params_id := params_id req;
                params_ownerId := params_ownerId req;
                payload := Some (filter
                  (fun item => bool_decide (indexOf unauthorizedIds (item_id item) = None))
                  items);
                credentials_scope := credentials_scope req;
                response_source := response_source req |})
        end
      else (Next (Some (Forbidden "Insufficient document scope.")) false, req)
  end.

(** [enforceDocumentScopePreForModel] *)
Definition enforceDocumentScopePreWith (collection : list document)
    (req : request) : reply * request :=
  let userScope := credentials_scope req in
  let verify action ids :=
    preDecision req action
      (verifyScopeByIdWith collection ids action userScope) in
  if truthy_param (params_id req) && String.eqb (method req) "put" then
    verify "update" [default "" (params_id req)]
  else if truthy_param (params_ownerId req) then
    verify (if String.eqb (method req) "get" then "read" else "associate")
           [default "" (params_ownerId req)]
  else if String.eqb (method req) "delete" then
    if truthy_param (params_id req) then
      verify "delete" [default "" (params_id req)]
    else
      match payload req with
      | None => (Uncaught (TypeError "request.payload.map is not a function"), req)
      | Some items => verify "delete" (item_id <$> items)
      end
  else (Next None true, req).

(** [enforceDocumentScopePostForModel] *)
Definition enforceDocumentScopePostWith (req : request) : reply * response :=
  let userScope := credentials_scope req in
  let src := response_source req in
  if String.eqb (method req) "get" then
    let result :=
      if truthy_param (params_id req) then
        verifyScopeWith
          [match src with
           | Single d => d
           | Docs _ => {| _id := ""; document_scope := None |}
           end] "read" userScope
      else
        match src with
        | Docs docs => verifyScopeWith docs "read" userScope
        | Single _ => Throw (TypeError "Cannot read property 'filter' of undefined")
        end in
    match result with
    | Throw e => (Uncaught e, unchanged src)
    | Ok result =>
        if authorized result then (Next None true, unchanged src)
        else if truthy_param (params_id req) || enableDocumentScopeFail then
          (Next (Some (Forbidden "Insufficient document scope.")) false,
           unchanged src)
        else
          let unauthorizedIds := _id <$> unauthorizedDocs result in
          match src with
          | Docs docs =>
              (Next None true,
               RDocs ((fun document =>
                 if bool_decide (indexOf unauthorizedIds (_id document) = None)
                 then Document document
                 else ErrorObject "Insufficient document scope.") <$> docs))
          | Single _ =>
              (Uncaught (TypeError "Cannot read property 'map' of undefined"),
               unchanged src)
          end
    end
  else (Next None true, unchanged src).

End Gate.

(** The functions as the module has them: [internals.compareScopes] is
    [compareScopes], and the flag comes from the configuration. *)
Definition verifyScope (enableDocumentScopeFail : bool) :=
  verifyScopeWith enableDocumentScopeFail compareScopes.
Definition verifyScopeById (enableDocumentScopeFail : bool) :=
  verifyScopeByIdWith enableDocumentScopeFail compareScopes.
Definition enforceDocumentScopePre (enableDocumentScopeFail : bool) :=
  enforceDocumentScopePreWith enableDocumentScopeFail compareScopes.
Definition enforceDocumentScopePost (enableDocumentScopeFail : bool) :=
  enforceDocumentScopePostWith enableDocumentScopeFail compareScopes.

(** A document that restricts nothing for [action]: it has no policy, or
    one without keys, or its effective scope is empty. *)
Definition unrestricted (action : string) (d : document) : Prop :=
  match document_scope d with
  | None => True
  | Some p => isEmpty_object p = true ∨ effectiveScope action p = Ok []
  end.

End Policy.

(** ** The handler helper: associations *)

Module Handler.
Import JS.

(** *** Stored data *)

(** Field values of linking entries and of payload records. [JOid] is an
    ObjectId that the driver generated for a subdocument; the ids of
    documents are kept in their string form. *)
Inductive jsval :=
| JStr (s : string)
| JNum (n : nat)
| JBool (b : bool)
| JOid (n : nat).

#[export] Instance jsval_eq_dec : EqDecision jsval.
Proof. solve_decision. Defined.

Definition toString (v : jsval) : string :=
  match v with
  | JStr s => s
  | JNum n => pretty n
  | JBool b => if b then "true" else "false"
  | JOid n => pretty n
  end.

Definition falsy (v : jsval) : bool :=
  match v with
  | JStr s => String.eqb s ""
  | JNum n => Nat.eqb n 0
  | JBool b => negb b
  | JOid _ => false
  end.

(** A linking entry or a payload record: a plain object. *)
Abbreviation obj := (gmap string jsval).

Inductive field :=
| FVal (v : jsval)
| FArr (l : list obj).

Record document := {
  _id : string;
  fields : gmap string field;
}.

Definition setField (d : document) (k : string) (f : field) : document :=
  {| _id := _id d; fields := <[k := f]> (fields d) |}.

Definition deleteField (d : document) (k : string) : document :=
  {| _id := _id d; fields := delete k (fields d) |}.

(** One entry of [routeOptions.associations]. *)
Record association := {
  type : string;
  model : string;
  foreignField : option string;
  linkingModel : option string;
  include_as : option string;   (* [association.include.as]; [None]: no [include] *)
}.

Record Model := {
  modelName : string;
  associations : list (string * association);   (* in key order *)
}.

(** The database, the generator of subdocument ids, and what the coming
    calls of [save] will meet: [true] makes a save fail. *)
Record store := {
  collections : gmap (string * string) document;   (* model name, id *)
  next_oid : nat;
  save_faults : list bool;
}.

Inductive errorType :=
| BAD_REQUEST
| NOT_FOUND
| SERVER_TIMEOUT
| GATEWAY_TIMEOUT.

(** Why a promise is rejected. *)
Inductive reason :=
| Raw (e : exn)                                    (* a thrown or rejected value *)
| SaveFailed (modelName id : string)               (* [save] was rejected *)
| Handled (type : errorType) (message : string).   (* raised by the error helper *)

(** A promise, by how it ends; [Pending] is one that is never settled. *)
Inductive promise (A : Type) :=
| Resolved (a : A)
| Rejected (r : reason)
| Pending.
Arguments Resolved {A} a.
Arguments Rejected {A} r.
Arguments Pending {A}.

(** Modelled from the spec: [errorHelper.handleError] of [./error-helper],
    which is not among the sources. The spec has it as [raise(kind,
    message)], which raises a typed failure: a [catch] that calls it ends
    rejected with that failure. *)
Definition handleError (error : reason) (message : string) (type : errorType)
    : reason :=
  Handled type message.

(** [model.findOne({ '_id': id })] *)
Definition findOne (m : Model) (id : string) (st : store) : option document :=
  collections st !! (modelName m, id).

(** [object.save()] of a document of model [m]. *)
Definition save (m : Model) (d : document) (st : store) : promise unit * store :=
  match save_faults st with
  | true :: faults =>
      (Rejected (SaveFailed (modelName m) (_id d)),
       {| collections := collections st; next_oid := next_oid st;
          save_faults := faults |})
  | _ =>
      (Resolved (),
       {| collections := <[(modelName m, _id d) := d]> (collections st);
          next_oid := next_oid st;
          save_faults := tail (save_faults st) |})
  end.

(** [Q.all(first, second)]: [Q.all] has one parameter, the second argument
    is evaluated and dropped. The first is a promise for the saved document,
    which is no array and has no length: [Q.all] is settled as the first
    promise is. *)
Definition Q_all {A B : Type} (first : promise A) (second : promise B) : promise A :=
  first.

(** *** The arguments of the helpers *)

(** The payload of [_setAssociation]: an array of ids or of records. *)
Inductive Payload :=
| Ids (ids : list string)
| Records (records : list obj).

(** [typeof payload[0] === 'string' || payload[0] instanceof String] *)
Definition firstIsString (p : Payload) : bool :=
  match p with
  | Ids (_ :: _) => true
  | _ => false
  end.

(** What the body of [_setAssociation] works on: the two loaded documents,
    the payload array of the caller, and the store. *)
Record mem := {
  ownerObject : document;
  childObject : document;
  payloadArray : Payload;
  db : store;
}.

Definition M (A : Type) : Type := mem → result A * mem.

#[export] Instance M_ret : MRet M := fun A a m => (Ok a, m).
#[export] Instance M_bind : MBind M := fun A B f c m =>
  match c m with
  | (Ok a, m') => f a m'
  | (Throw e, m') => (Throw e, m')
  end.

Definition lift {A : Type} (r : result A) : M A := fun m => (r, m).
Definition get : M mem := fun m => (Ok m, m).
Definition setOwner (d : document) : M unit := fun m =>
  (Ok (), {| ownerObject := d; childObject := childObject m;
             payloadArray := payloadArray m; db := db m |}).
Definition setChild (d : document) : M unit := fun m =>
  (Ok (), {| ownerObject := ownerObject m; childObject := d;
             payloadArray := payloadArray m; db := db m |}).
Definition setPayloadArray (p : Payload) : M unit := fun m =>
  (Ok (), {| ownerObject := ownerObject m; childObject := childObject m;
             payloadArray := p; db := db m |}).
Definition setDb (st : store) : M unit := fun m =>
  (Ok (), {| ownerObject := ownerObject m; childObject := childObject m;
             payloadArray := payloadArray m; db := st |}).

(** [object[name]] where the code goes on with [.filter]: it has to be an
    array. *)
Definition arrayField (d : document) (name : string) : result (list obj) :=
  match fields d !! name with
  | Some (FArr l) => Ok l
  | Some (FVal _) => Throw (TypeError "filter is not a function")
  | None => Throw (TypeError "Cannot read property 'filter' of undefined")
  end.

(** [associationObject[key].toString() === id] *)
Definition refersTo (key id : string) (associationObject : obj) : result bool :=
  match associationObject !! key with
  | Some v => Ok (String.eqb (toString v) id)
  | None => Throw (TypeError "Cannot read property 'toString' of undefined")
  end.

(** [array.indexOf(array.filter(refersTo)[0])]; the entries of an array are
    distinct objects, and [indexOf] finds the object itself. *)
Definition duplicateIndexOf (key id : string) (array : list obj)
    : result (option nat) :=
  duplicate ← filterM (refersTo key id) array;
  Ok (match duplicate with
      | [] => None
      | duplicate :: _ => fst <$> list_find (fun e => e = duplicate) array
      end).

(** [array.push(entry)] on an array of subdocuments: the entry is stored
    with an [_id] of its own, a new one when it brings none. *)
Definition pushEntry (array : list obj) (entry : obj) (st : store)
    : list obj * store :=
  match entry !! "_id" with
  | Some _ => ((array ++ [entry])%list, st)
  | None =>
      ((array ++ [<["_id" := JOid (next_oid st)]> entry])%list,
       {| collections := collections st; next_oid := S (next_oid st);
          save_faults := save_faults st |})
  end.

(** [payload._id = existing._id] *)
Definition retainId (existing : option obj) (payload : obj) : obj :=
  match existing ≫= (fun e => e !! "_id") with
  | Some id => <["_id" := id]> payload
  | None => delete "_id" payload
  end.

(** The payload object that the MANY_MANY branch works on, whether it
    carries extra fields, and its place in the payload array when it is one
    of its records. *)
Definition selectPayload (p : Payload) (childObjectId : string)
    : result (obj * bool * option nat) :=
  if firstIsString p then Ok (∅, false, None)
  else
    let records := match p with Records l => l | Ids _ => [] end in
    match list_find (fun object => object !! "childId" = Some (JStr childObjectId))
            records with
    | Some (i, object) => Ok (delete "childId" object, true, Some i)
    | None => Throw (TypeError "Cannot convert undefined or null to object")
    end.

(** A write to the payload object is a write to the record of the array
    that it is. *)
Definition written (slot : option nat) (object : obj) (p : Payload) : Payload :=
  match slot, p with
  | Some i, Records l => Records (<[i := object]> l)
  | _, _ => p
  end.

Definition writeThrough (slot : option nat) (object : obj) : M unit := fun m =>
  setPayloadArray (written slot object (payloadArray m)) m.

(** The association of the child model that points back at [ownerModel]:
    the last one that the [for ... in] loop meets. *)
Definition lastAssociation (keep : association → bool)
    (l : list (string * association)) : option association :=
  last (filter (fun a => keep a = true) (snd <$> l)).

Definition includeAs (childAssociation : option association) : result string :=
  match childAssociation ≫= include_as with
  | Some name => Ok name
  | None => Throw (TypeError "Cannot read property 'as' of undefined")
  end.

Definition lookupAssociation (m : Model) (associationName : string)
    : result association :=
  match list_find (fun p => p.1 = associationName) (associations m) with
  | Some (_, (_, a)) => Ok a
  | None => Throw (TypeError "Cannot read property 'type' of undefined")
  end.

Definition throw {A : Type} (e : exn) : M A := fun m => (Throw e, m).

(** *** [_setAssociation] *)

(** Lines 777-790 of [_setAssociation]: the entry on the owner. The result
    is the payload object as these lines leave it. *)
Definition linkOwner (childModel : Model) (childId associationName : string)
    (payload : obj) (extraFields : bool) (slot : option nat) : M obj :=
  m ← get;
  ownerArray ← lift (arrayField (ownerObject m) associationName);
  duplicateIndex ← lift (duplicateIndexOf (modelName childModel) childId ownerArray);
  match duplicateIndex with
  | None =>
      let '(array, st) := pushEntry ownerArray payload (db m) in
      _ ← setOwner (setField (ownerObject m) associationName (FArr array));
      _ ← setDb st;
      mret payload
  | Some i =>
      if extraFields then
        let payload := retainId (ownerArray !! i) payload in
        _ ← writeThrough slot payload;
        _ ← setOwner (setField (ownerObject m) associationName
                        (FArr (<[i := payload]> ownerArray)));
        mret payload
      else mret payload
  end.

(** Lines 792-824 of [_setAssociation]: the entry on the child, made of a
    copy of the payload object. *)
Definition linkChild (ownerModel childModel : Model) (payload : obj) : M unit :=
  m ← get;
  let payload := delete "_id" payload in
  let payload := delete (modelName childModel) payload in
  let payload := <[modelName ownerModel := JStr (_id (ownerObject m))]> payload in
  childAssociationName ← lift (includeAs (lastAssociation
    (fun association =>
       String.eqb (model association) (modelName ownerModel)
       && String.eqb (type association) "MANY_MANY")
    (associations childModel)));
  childArray ←
    match fields (childObject m) !! childAssociationName with
    | Some (FArr l) => mret l
    | Some (FVal v) =>
        if falsy v
        then throw (Thrown (VString (childAssociationName ++ " association does not exist.")))
        else throw (TypeError "filter is not a function")
    | None =>
        throw (Thrown (VString (childAssociationName ++ " association does not exist.")))
    end;
  duplicateIndex ← lift (duplicateIndexOf (modelName ownerModel)
                           (_id (ownerObject m)) childArray);
  match duplicateIndex with
  | None =>
      let '(array, st) := pushEntry childArray payload (db m) in
      _ ← setChild (setField (childObject m) childAssociationName (FArr array));
      setDb st
  | Some i =>
      let payload := retainId (childArray !! i) payload in
      setChild (setField (childObject m) childAssociationName
                  (FArr (<[i := payload]> childArray)))
  end.

(** The MANY_MANY branch of [_setAssociation], up to the two saves. *)
Definition linkManyMany (ownerModel childModel : Model)
    (childId associationName : string) : M unit :=
  m ← get;
  '(payload, extraFields, slot) ←
    lift (selectPayload (payloadArray m) (_id (childObject m)));
  _ ← writeThrough slot payload;
  let payload := <[modelName childModel := JStr (_id (childObject m))]> payload in
  _ ← writeThrough slot payload;
  payload ← linkOwner childModel childId associationName payload extraFields slot;
  linkChild ownerModel childModel payload.

(** [_setAssociation]; next to the promise, the owner object and the
    payload array as the call leaves them, and the store. *)
Definition _setAssociation (ownerModel : Model) (ownerObject : document)
    (childModel : Model) (childId associationName : string) (payload : Payload)
    (st : store) : promise unit * (document * Payload * store) :=
  match findOne childModel childId st with
  | Some childObject =>
      match lookupAssociation ownerModel associationName with
      | Throw error => (Rejected (Raw error), (ownerObject, payload, st))
      | Ok association =>
          if String.eqb (type association) "ONE_MANY" then
            let childObject :=
              setField childObject (default "undefined" (foreignField association))
                (FVal (JStr (_id ownerObject))) in
            let '(promise, st) := save childModel childObject st in
            (promise, (ownerObject, payload, st))
          else if String.eqb (type association) "MANY_MANY" then
            match linkManyMany ownerModel childModel childId associationName
                    {| ownerObject := ownerObject; childObject := childObject;
                       payloadArray := payload; db := st |} with
            | (Throw error, m) =>
                (Rejected (Raw error), (Handler.ownerObject m, payloadArray m, db m))
            | (Ok _, m) =>
                let '(first, st) := save ownerModel (Handler.ownerObject m) (db m) in
                let '(second, st) := save childModel (Handler.childObject m) st in
                (Q_all first second, (Handler.ownerObject m, payloadArray m, st))
            end
          else
            (Rejected (Raw (Thrown (VString "Association type incorrectly defined."))),
             (ownerObject, payload, st))
      end
  | None =>
      (Rejected (Raw (Thrown (VString "Child object not found."))),
       (ownerObject, payload, st))
  end.

(** *** [_removeAssociation] *)

(** The MANY_MANY branch of [_removeAssociation], up to the two saves. *)
Definition unlinkManyMany (ownerModel childModel : Model)
    (associationName : string) : M unit :=
  m ← get;
  ownerArray ← lift (arrayField (ownerObject m) associationName);
  index ← lift (duplicateIndexOf (modelName childModel) (_id (childObject m))
                  ownerArray);
  _ ← match index with
      | Some i => setOwner (setField (ownerObject m) associationName
                              (FArr (delete i ownerArray)))
      | None => mret ()
      end;
  childAssociationName ← lift (includeAs (lastAssociation
    (fun association => String.eqb (model association) (modelName ownerModel))
    (associations childModel)));
  childArray ← lift (arrayField (childObject m) childAssociationName);
  index ← lift (duplicateIndexOf (modelName ownerModel) (_id (ownerObject m))
                  childArray);
  match index with
  | Some i => setChild (setField (childObject m) childAssociationName
                          (FArr (delete i childArray)))
  | None => mret ()
  end.

Definition _removeAssociation (ownerModel : Model) (ownerObject : document)
    (childModel : Model) (childId associationName : string) (st : store)
    : promise unit * (document * store) :=
  match findOne childModel childId st with
  | Some childObject =>
      match lookupAssociation ownerModel associationName with
      | Throw error => (Rejected (Raw error), (ownerObject, st))
      | Ok association =>
          if String.eqb (type association) "ONE_MANY" then
            let childObject :=
              deleteField childObject (default "undefined" (foreignField association)) in
            let '(promise, st) := save childModel childObject st in
            (promise, (ownerObject, st))
          else if String.eqb (type association) "MANY_MANY" then
            match unlinkManyMany ownerModel childModel associationName
                    {| ownerObject := ownerObject; childObject := childObject;
                       payloadArray := Ids []; db := st |} with
            | (Throw error, m) => (Rejected (Raw error), (Handler.ownerObject m, db m))
            | (Ok _, m) =>
                let '(first, st) := save ownerModel (Handler.ownerObject m) (db m) in
                let '(second, st) := save childModel (Handler.childObject m) st in
                (Q_all first second, (Handler.ownerObject m, st))
            end
          else
            (Rejected (Raw (Thrown (VString "Association type incorrectly defined."))),
             (ownerObject, st))
      end
  | None =>
      (Rejected (Raw (Thrown (VString "Child object not found."))), (ownerObject, st))
  end.

(** *** The exported operations

    Each gives the promise that the caller gets, and the store once all the
    work that the call started has ended. *)

Definition _addOne (ownerModel : Model) (ownerId : string) (childModel : Model)
    (childId associationName : string) (payload : option obj) (st : store)
    : promise value * store :=
  match findOne ownerModel ownerId st with
  | Some ownerObject =>
      let payload := default ∅ payload in
      let payload := <["childId" := JStr childId]> payload in
      let payload := Records [payload] in
      match _setAssociation ownerModel ownerObject childModel childId
              associationName payload st with
      | (Resolved _, (_, _, st)) => (Resolved (VBool true), st)
      | (Rejected error, (_, _, st)) =>
          (Rejected (handleError error
             "There was a database error while setting the association."
             GATEWAY_TIMEOUT), st)
      | (Pending, (_, _, st)) => (Pending, st)
      end
  | None =>
      (Rejected (handleError
         (Raw (Thrown (VString "No owner resource was found with that id.")))
         "No owner resource was found with that id." NOT_FOUND), st)
  end.

(** [_removeOne]: the promise of [_removeAssociation] is not returned from
    the [then] callback, so the promise of [_removeOne] is resolved, with
    [undefined], as soon as the owner is found. *)
Definition _removeOne (ownerModel : Model) (ownerId : string) (childModel : Model)
    (childId associationName : string) (st : store) : promise value * store :=
  match findOne ownerModel ownerId st with
  | Some ownerObject =>
      let '(_, (_, st)) :=
        _removeAssociation ownerModel ownerObject childModel childId
          associationName st in
      (Resolved VUndefined, st)
  | None =>
      (Rejected (handleError
         (Raw (Thrown (VString "No owner resource was found with that id.")))
         "No owner resource was found with that id." NOT_FOUND), st)
  end.

(** [payload.map(function(object) { return object.childId; })]; a record
    without a string under [childId] names no document. *)
Definition childIdOf (object : obj) : option string :=
  match object !! "childId" with
  | Some (JStr s) => Some s
  | _ => None
  end.

Definition childIdsOf (p : Payload) : list (option string) :=
  if firstIsString p
  then match p with Ids ids => Some <$> ids | Records _ => [] end
  else match p with Records records => childIdOf <$> records | Ids _ => [] end.

(** [promise_link] of [_addMany]: its deferred is resolved when
    [_setAssociation] is, and is left alone when that is rejected. *)
Definition promise_link (ownerModel : Model) (ownerObject : document)
    (childModel : Model) (childId : option string) (associationName : string)
    (payload : Payload) (st : store)
    : promise unit * (document * Payload * store) :=
  match childId with
  | Some childId =>
      match _setAssociation ownerModel ownerObject childModel childId
              associationName payload st with
      | (Resolved result, after) => (Resolved result, after)
      | (_, after) => (Pending, after)
      end
  | None => (Pending, (ownerObject, payload, st))
  end.

(** [promise_chain] of [_addMany] after the [forEach]: the links one after
    the other, each on the owner object and the payload array as the one
    before left them. *)
Fixpoint promise_chain (ownerModel : Model) (ownerObject : document)
    (childModel : Model) (childIds : list (option string))
    (associationName : string) (payload : Payload) (st : store)
    : promise unit * (document * Payload * store) :=
  match childIds with
  | [] => (Resolved (), (ownerObject, payload, st))
  | childId :: rest =>
      match promise_link ownerModel ownerObject childModel childId
              associationName payload st with
      | (Resolved _, (ownerObject, payload, st)) =>
          promise_chain ownerModel ownerObject childModel rest associationName
            payload st
      | (Rejected error, after) => (Rejected error, after)
      | (Pending, after) => (Pending, after)
      end
  end.

Definition _addMany (ownerModel : Model) (ownerId : string) (childModel : Model)
    (associationName : string) (payload : Payload) (st : store)
    : promise value * store :=
  match findOne ownerModel ownerId st with
  | Some ownerObject =>
      let childIds := childIdsOf payload in
      match promise_chain ownerModel ownerObject childModel childIds
              associationName payload st with
      | (Resolved _, (_, _, st)) => (Resolved (VBool true), st)
      | (Rejected error, (_, _, st)) =>
          (Rejected (handleError error
             "There was a database error while setting the associations."
             GATEWAY_TIMEOUT), st)
      | (Pending, (_, _, st)) => (Pending, st)
      end
  | None =>
      (Rejected (handleError
         (Raw (Thrown (VString "No owner resource was found with that id.")))
         "No owner resource was found with that id." NOT_FOUND), st)
  end.

End Handler.


(** ** Concrete documents and requests for the scope hooks *)

Module PolicyExamples.
Import JS Policy.

Definition noPolicy (id : string) : document :=
  {| _id := id; document_scope := None |}.

(** A document that only callers holding [admin] may read or delete. *)
Definition adminOnly (id : string) : document :=
  {| _id := id;
     document_scope := Some {|
       scope := None;
       readScope := Some ["admin"];
       updateScope := None;
       deleteScope := Some ["admin"];
       associateScope := None |} |}.

(** A document whose policy is there but restricts nothing. *)
Definition openPolicy (id : string) : document :=
  {| _id := id;
     document_scope := Some {|
       scope := Some [];
       readScope := Some [];
       updateScope := None;
       deleteScope := None;
       associateScope := None |} |}.

Definition stored : list document := [noPolicy "A"; adminOnly "B"; noPolicy "C"].

Definition plainItem (id : string) : item := {| item_id := id; hardDelete := None |}.

(** DELETE of the ids A, B and C by a caller that holds [user]. *)
Definition bulkDelete : request :=
  {| method := "delete"; params_id := None; params_ownerId := None;
     payload := Some [plainItem "A"; plainItem "B"; plainItem "C"];
     credentials_scope := ["user"];
     response_source := Docs [] |}.

Definition bulkDeleteWithoutB : request :=
  {| method := "delete"; params_id := None; params_ownerId := None;
     payload := Some [plainItem "A"; plainItem "C"];
     credentials_scope := ["user"];
     response_source := Docs [] |}.

(** GET of a list whose second document the caller may not read. *)
Definition listRead : request :=
  {| method := "get"; params_id := None; params_ownerId := None;
     payload := None;
     credentials_scope := ["user"];
     response_source := Docs [noPolicy "d1"; adminOnly "d2"] |}.

(** GET of one document that the caller may not read. *)
Definition singleRead : request :=
  {| method := "get"; params_id := Some "d2"; params_ownerId := None;
     payload := None;
     credentials_scope := ["user"];
     response_source := Single (adminOnly "d2") |}.

Definition globalAndRead (G A : list string) : ScopePolicy :=
  {| scope := Some G;
     readScope := Some A;
     updateScope := None;
     deleteScope := None;
     associateScope := None |}.

End PolicyExamples.


(** ** The composition rule in the words of the specification *)

Module PolicyWords.
Import JS Policy.

(** The effective scope as the specification composes it: the global list
    followed by the action list when the global list is not empty, the
    action list alone otherwise. *)
Definition composeSpec (G A : list string) : list string :=
  match G with
  | [] => A
  | _ :: _ => (G ++ A)%list
  end.

(** A policy that has a global list and no other key. *)
Definition globalOnly (G : list string) : ScopePolicy :=
  {| scope := Some G;
     readScope := None;
     updateScope := None;
     deleteScope := None;
     associateScope := None |}.

End PolicyWords.

(** ** What the comparator says of a document *)

Module Verdicts.
Import JS Policy.

(** The comparator lets the document pass, refuses it, or throws. *)
Inductive verdict :=
| Passes
| Refused
| Fails (e : exn).

Definition isRefused (v : verdict) : bool :=
  match v with Refused => true | _ => false end.

Section Comparator.
Variable compare : list string → list value → result bool.

(** The verdict on one document: a document without policy, with a policy
    without keys or with an empty effective scope passes without the
    comparator being asked; otherwise the comparator decides on the
    effective scope. *)
Definition verdictOf (action : string) (userScope : list string) (d : document)
    : verdict :=
  match document_scope d with
  | None => Passes
  | Some p =>
      if isEmpty_object p then Passes
      else match effectiveScope action p with
           | Throw e => Fails e
           | Ok [] => Passes
           | Ok (v :: P) =>
               match compare userScope (v :: P) with
               | Ok true => Passes
               | Ok false => Refused
               | Throw e => Fails e
               end
           end
  end.

(** The exception of the first document, in the order of the list, on
    which the comparator throws. *)
Fixpoint firstFailure (action : string) (userScope : list string)
    (docs : list document) : option exn :=
  match docs with
  | [] => None
  | d :: rest =>
      match verdictOf action userScope d with
      | Fails e => Some e
      | _ => firstFailure action userScope rest
      end
  end.

(** The verdict on the first document, in the order of the list, that
    does not pass. *)
Fixpoint firstObjection (action : string) (userScope : list string)
    (docs : list document) : verdict :=
  match docs with
  | [] => Passes
  | d :: rest =>
      match verdictOf action userScope d with
      | Passes => firstObjection action userScope rest
      | objection => objection
      end
  end.

(** The documents that the comparator refuses. *)
Definition refusedDocuments (action : string) (userScope : list string)
    (docs : list document) : list document :=
  filter (fun d => isRefused (verdictOf action userScope d) = true) docs.

End Comparator.

End Verdicts.

(** ** Vocabulary for the statements about associations *)

Module Links.
Import JS Handler.

(** The entry refers to the document [id] under [key]. *)
Definition linksTo (key id : string) (entry : obj) : bool :=
  match entry !! key with
  | Some v => String.eqb (toString v) id
  | None => false
  end.

(** The entries of an association array that refer to [id]. *)
Definition entriesFor (key id : string) (array : list obj) : list obj :=
  filter (fun entry => linksTo key id entry = true) array.

(** Every entry of the array has a reference under [key]. *)
Definition keyed (key : string) (array : list obj) : Prop :=
  Forall (fun entry => is_Some (entry !! key)) array.

(** The association array [name] of the document that the store has for
    [id] in the collection of [m]. *)
Definition storedArray (st : store) (m : Model) (id name : string)
    : option (list obj) :=
  findOne m id st ≫= fun d =>
    match fields d !! name with
    | Some (FArr l) => Some l
    | _ => None
    end.

(** Every document is stored under its own id. *)
Definition wellKeyed (st : store) : Prop :=
  ∀ m id d, collections st !! (m, id) = Some d → _id d = id.

(** No coming save fails. *)
Definition faultless (st : store) : Prop :=
  Forall (fun fault => fault = false) (save_faults st).

(** What [push] stores for the payload: the payload, with the new id [n]
    when it brings none. *)
Definition stored_entry (payload : obj) (n : nat) : obj :=
  match payload !! "_id" with
  | Some _ => payload
  | None => <["_id" := JOid n]> payload
  end.

(** What linking does to one side: the first entry for [id] is replaced by
    the payload, which takes over its [_id], when [replace] is set, and is
    left alone otherwise; without such an entry the payload is appended,
    with the new id [n] when it has none. *)
Definition upsert (key id : string) (replace : bool) (payload : obj) (n : nat)
    (array : list obj) : list obj :=
  match list_find (fun entry => linksTo key id entry = true) array with
  | Some (i, existing) =>
      if replace then <[i := retainId (Some existing) payload]> array else array
  | None =>
      (array ++ [stored_entry payload n])%list
  end.

(** The owner model names a MANY_MANY association [associationName], and
    the child model one that points back, kept under [childAssociationName]. *)
Record manyMany (ownerModel childModel : Model)
    (associationName childAssociationName : string) : Prop := {
  owner_side : ∃ a, lookupAssociation ownerModel associationName = Ok a
                    ∧ type a = "MANY_MANY";
  child_side : ∃ a, lastAssociation
                      (fun association =>
                         String.eqb (model association) (modelName ownerModel)
                         && String.eqb (type association) "MANY_MANY")
                      (associations childModel) = Some a
                    ∧ include_as a = Some childAssociationName;
}.

(** The store holds [document] for [id], with a keyed association array. *)
Record holds (st : store) (m : Model) (id name key : string)
    (document : document) (array : list obj) : Prop := {
  holds_found : findOne m id st = Some document;
  holds_id : _id document = id;
  holds_array : fields document !! name = Some (FArr array);
  holds_keyed : keyed key array;
}.

End Links.

(** ** Concrete models and stores for the association helpers *)

Module HandlerExamples.
Import JS Handler Links.

Definition userModel : Model :=
  {| modelName := "user";
     associations :=
       [("roles", {| type := "MANY_MANY"; model := "role"; foreignField := None;
                     linkingModel := Some "user_role";
                     include_as := Some "roles" |})] |}.

Definition roleModel : Model :=
  {| modelName := "role";
     associations :=
       [("users", {| type := "MANY_MANY"; model := "user"; foreignField := None;
                     linkingModel := Some "user_role";
                     include_as := Some "users" |})] |}.

Definition user (id : string) (roles : list obj) : document :=
  {| _id := id; fields := {[ "roles" := FArr roles ]} |}.

Definition role (id : string) (users : list obj) : document :=
  {| _id := id; fields := {[ "users" := FArr users ]} |}.

(** One user and two roles, nothing linked; [faults] are the outcomes of
    the coming saves. *)
Definition unlinked (faults : list bool) : store :=
  {| collections :=
       {[ ("user", "u1") := user "u1" [];
          ("role", "r1") := role "r1" [];
          ("role", "r2") := role "r2" [] ]};
     next_oid := 0;
     save_faults := faults |}.

Definition ownerEntry : obj := {[ "_id" := JOid 0; "role" := JStr "r1"; "level" := JNum 3 ]}.
Definition childEntry : obj := {[ "_id" := JOid 1; "user" := JStr "u1"; "level" := JNum 3 ]}.

(** [u1] and [r1] linked on both sides. *)
Definition linked (faults : list bool) : store :=
  {| collections :=
       {[ ("user", "u1") := user "u1" [ownerEntry];
          ("role", "r1") := role "r1" [childEntry];
          ("role", "r2") := role "r2" [] ]};
     next_oid := 2;
     save_faults := faults |}.

Definition level3 : obj := {[ "level" := JNum 3 ]}.

End HandlerExamples.

(** ** Vocabulary for the statements about unlinking *)

Module Unlinks.
Import JS Handler Links.

(** What unlinking does to one side: the first entry for [id] leaves the
    array, the others stay where they are. *)
Definition removeFirst (key id : string) (array : list obj) : list obj :=
  match list_find (fun entry => linksTo key id entry = true) array with
  | Some (i, _) => delete i array
  | None => array
  end.

(** The child model has an association that points back at the owner
    model, of whatever type, kept under [childAssociationName]: the one
    that [_removeAssociation] looks for. *)
Definition pointsBack (ownerModel childModel : Model)
    (childAssociationName : string) : Prop :=
  ∃ a, lastAssociation
         (fun association => String.eqb (model association) (modelName ownerModel))
         (associations childModel) = Some a
       ∧ include_as a = Some childAssociationName.

(** The owner model names a ONE_MANY association [associationName] whose
    children carry the owner's id under [foreignKey]. *)
Definition oneMany (ownerModel : Model) (associationName foreignKey : string)
    : Prop :=
  ∃ a, lookupAssociation ownerModel associationName = Ok a
       ∧ type a = "ONE_MANY"
       ∧ foreignField a = Some foreignKey.

End Unlinks.

(** ** A ONE_MANY association for the examples *)

Module OneManyExamples.
Import JS Handler.

(** A team has many players; a player carries the id of its team under
    [team]. *)
Definition teamModel : Model :=
  {| modelName := "team";
     associations :=
       [("players", {| type := "ONE_MANY"; model := "player";
                       foreignField := Some "team"; linkingModel := None;
                       include_as := None |})] |}.

Definition playerModel : Model :=
  {| modelName := "player"; associations := [] |}.

Definition team (id : string) : document := {| _id := id; fields := ∅ |}.

Definition player (id : string) (owner : option string) : document :=
  {| _id := id;
     fields := match owner with
               | Some t => {[ "team" := FVal (JStr t) ]}
               | None => ∅
               end |}.

(** Two teams and one player, who plays for [owner]. *)
Definition league (owner : option string) (faults : list bool) : store :=
  {| collections :=
       {[ ("team", "t1") := team "t1";
          ("team", "t2") := team "t2";
          ("player", "p1") := player "p1" owner ]};
     next_oid := 0;
     save_faults := faults |}.

End OneManyExamples.

(** ** The handler helper: [_delete] and [_update] *)

Module Crud.
Import JS Handler.

(** [model.routeOptions.delete]: the hooks of the model, each by how the
    promise that it returns ends; what a hook writes itself is not
    followed. [None]: the model has no such hook. *)
Record deleteHooks := {
  pre : option (option obj → promise unit);
  post : option (option obj → document → promise unit);
}.

(** [payload && payload.hardDelete] *)
Definition hardDeleteAsked (payload : option obj) : bool :=
  match payload with
  | Some object =>
      match object !! "hardDelete" with
      | Some v => negb (falsy v)
      | None => false
      end
  | None => false
  end.

(** [model.findByIdAndUpdate(_id, update)]: the fields of [update] are set
    on the document, and the promise is for the document as it was before,
    or for [null] when there is none. The write meets the next of
    [save_faults], as a [save] does. *)
Definition findByIdAndUpdate (m : Model) (id : string) (update : gmap string field)
    (st : store) : promise (option document) * store :=
  match save_faults st with
  | true :: faults =>
      (Rejected (SaveFailed (modelName m) id),
       {| collections := collections st; next_oid := next_oid st;
          save_faults := faults |})
  | _ =>
      match collections st !! (modelName m, id) with
      | Some d =>
          (Resolved (Some d),
           {| collections :=
                <[(modelName m, id) :=
                    {| _id := _id d; fields := update ∪ fields d |}]>
                  (collections st);
              next_oid := next_oid st;
              save_faults := tail (save_faults st) |})
      | None =>
          (Resolved None,
           {| collections := collections st; next_oid := next_oid st;
              save_faults := tail (save_faults st) |})
      end
  end.

(** [model.findByIdAndRemove(_id)]: the promise is for the removed
    document, or for [null] when there is none. *)
Definition findByIdAndRemove (m : Model) (id : string) (st : store)
    : promise (option document) * store :=
  match save_faults st with
  | true :: faults =>
      (Rejected (SaveFailed (modelName m) id),
       {| collections := collections st; next_oid := next_oid st;
          save_faults := faults |})
  | _ =>
      (Resolved (collections st !! (modelName m, id)),
       {| collections := delete (modelName m, id) (collections st);
          next_oid := next_oid st;
          save_faults := tail (save_faults st) |})
  end.

(** [promise.catch(error => handleError(error, message, type))] *)
Definition catch {A : Type} (p : promise A) (message : string) (type : errorType)
    : promise A :=
  match p with
  | Rejected error => Rejected (handleError error message type)
  | other => other
  end.

(** [_delete]; [enableSoftDelete] is [config.enableSoftDelete], and [now]
    is what [new Date()] gives. *)
Definition _delete (enableSoftDelete : bool) (now : jsval) (model : Model)
    (hooks : deleteHooks) (id : string) (payload : option obj) (st : store)
    : promise value * store :=
  let started :=
    match pre hooks with
    | Some hook => hook payload
    | None => Resolved ()
    end in
  match started with
  | Resolved _ =>
      let '(removal, st) :=
        if enableSoftDelete && negb (hardDeleteAsked payload)
        then findByIdAndUpdate model id
               {[ "isDeleted" := FVal (JBool true); "deletedAt" := FVal now ]} st
        else findByIdAndRemove model id st in
      let '(outcome, st) :=
        match removal with
        | Resolved (Some deleted) =>
            let finished :=
              match post hooks with
              | Some hook => hook payload deleted
              | None => Resolved ()
              end in
            (catch
               match finished with
               | Resolved _ => Resolved (VBool true)
               | Rejected error => Rejected error
               | Pending => Pending
               end
               "There was a postprocessing error creating the resource."
               BAD_REQUEST, st)
        | Resolved None =>
            (Rejected (handleError
               (Raw (Thrown (VString "No resource was found with that id.")))
               "No resource was found with that id." NOT_FOUND), st)
        | Rejected error => (Rejected error, st)
        | Pending => (Pending, st)
        end in
      (catch
         (catch outcome "There was an error deleting the resource." SERVER_TIMEOUT)
         "There was a preprocessing error deleting the resource." BAD_REQUEST,
       st)
  | Rejected error =>
      (Rejected (handleError error
         "There was a preprocessing error deleting the resource." BAD_REQUEST), st)
  | Pending => (Pending, st)
  end.

(** A model without hooks. *)
Definition noHooks : deleteHooks := {| pre := None; post := None |}.

(** [model.routeOptions.update]: the pre hook answers with the payload to
    go on with, the post hook with the result to return. *)
Record updateHooks := {
  update_pre : option (string → gmap string field → promise (gmap string field));
  update_post : option (gmap string field → document → promise document);
}.

Definition noUpdateHooks : updateHooks :=
  {| update_pre := None; update_post := None |}.

Section Update.
(** The query helper is not among the sources. It is a parameter here:
    [attributesFilter model d] is the [toJSON] of what
    [model.findOne(..., attributes)] answers with when the collection has
    [d], for [attributes = QueryHelper.createAttributesFilter({}, model,
    Log)]. *)
Variable attributesFilter : Model → document → document.

(** [_update]; [enableUpdatedAt] is [config.enableUpdatedAt], and [now] is
    what [new Date()] gives. *)
Definition _update (enableUpdatedAt : bool) (now : jsval) (model : Model)
    (hooks : updateHooks) (id : string) (payload : gmap string field)
    (st : store) : promise document * store :=
  let started :=
    match update_pre hooks with
    | Some hook => hook id payload
    | None => Resolved payload
    end in
  match started with
  | Resolved payload =>
      let payload :=
        if enableUpdatedAt then <["updatedAt" := FVal now]> payload else payload in
      let '(updated, st) := findByIdAndUpdate model id payload st in
      let outcome :=
        match updated with
        | Resolved (Some result) =>
            match findOne model (_id result) st with
            | Some result =>
                let result := attributesFilter model result in
                let finished :=
                  match update_post hooks with
                  | Some hook => hook payload result
                  | None => Resolved result
                  end in
                catch finished
                  "There was a postprocessing error updating the resource."
                  BAD_REQUEST
            | None =>
                Rejected (Raw (TypeError "Cannot read property 'toJSON' of null"))
            end
        | Resolved None =>
            Rejected (handleError
              (Raw (Thrown (VString "No resource was found with that id.")))
              "No resource was found with that id." NOT_FOUND)
        | Rejected error => Rejected error
        | Pending => Pending
        end in
      (catch
         (catch outcome "There was an error updating the resource." SERVER_TIMEOUT)
         "There was a preprocessing error updating the resource." BAD_REQUEST,
       st)
  | Rejected error =>
      (Rejected (handleError error
         "There was a preprocessing error updating the resource." BAD_REQUEST), st)
  | Pending => (Pending, st)
  end.

End Update.

End Crud.

(** ** The handler helper: the extra fields in the result of [_getAll] *)

Module GetAll.
Import JS Handler.

(** An object of the list that [_list] answers with: its plain fields,
    with [_id] as a string, and the objects that are set on it. *)
Record listed := {
  plain : obj;
  nested : gmap string obj;
}.

(** [array.find(callback)] with a callback that may throw *)
Fixpoint findM {A : Type} (callback : A → result bool) (l : list A)
    : result (option A) :=
  match l with
  | [] => Ok None
  | x :: l' =>
      found ← callback x;
      if found : bool then Ok (Some x) else findM callback l'
  end.

(** [result.forEach(callback)] with a callback that may throw; the result
    is the array with its objects as the callback leaves them. *)
Fixpoint forEachM {A : Type} (callback : A → result A) (l : list A)
    : result (list A) :=
  match l with
  | [] => Ok []
  | x :: l' =>
      x' ← callback x;
      rest ← forEachM callback l';
      Ok (x' :: rest)
  end.

(** [data[association.model]._id.toString() === object._id]; the entry
    [data] is populated, its child is kept by its id. *)
Definition isLinkOf (association : association) (object : listed) (data : obj)
    : result bool :=
  match data !! model association with
  | None => Throw (TypeError "Cannot read property '_id' of undefined")
  | Some child =>
      Ok match plain object !! "_id" with
         | Some (JStr id) => String.eqb (toString child) id
         | _ => false
         end
  end.

(** Lines 688-703 of [_getAll]: what becomes of the list of children when
    the association is MANY_MANY and names a linking model.
    [extraFieldData] is the association array of the owner. *)
Definition insertExtraFields (association : association)
    (extraFieldData : list obj) (result : list listed)
    : JS.result (list listed) :=
  match linkingModel association with
  | Some linkingModel =>
      if String.eqb (type association) "MANY_MANY"
         && negb (String.eqb linkingModel "")
      then
        forEachM (fun object =>
          data ← findM (isLinkOf association object) extraFieldData;
          match data with
          | None => Throw (TypeError "Cannot read property 'toJSON' of undefined")
          | Some data =>
              let fields := delete "_id" data in
              let fields := delete (model association) fields in
              Ok {| plain := delete linkingModel (plain object);
                    nested := <[linkingModel := fields]> (nested object) |}
          end) result
      else Ok result
  | None => Ok result
  end.

End GetAll.

(** ** The Joi model generator *)

Module JoiHelper.
Import JS.

(** What [allow] is given in this module: [''] or [null]. *)
Inductive literal :=
| EmptyText
| Null.

(** A Joi schema, by the calls that build it. *)
Inductive joi :=
| Joi_string                              (* [Joi.string()] *)
| Joi_bool                                (* [Joi.bool()] *)
| Joi_number                              (* [Joi.number()] *)
| Joi_date                                (* [Joi.date()] *)
| Joi_object                              (* [Joi.object()] *)
| Joi_array                               (* [Joi.array()] *)
| allow (schema : joi) (v : literal)      (* [schema.allow(v)] *)
| required (schema : joi)                 (* [schema.required()] *)
| optional (schema : joi)                 (* [schema.optional()] *)
| unknown (schema : joi)                  (* [schema.unknown()] *)
| items (schema item : joi).              (* [schema.items(item)] *)

(** [fields[fieldName].options]: the options of one path of the schema.
    The flags are kept as the values they are, since the code tests them
    in three ways: by truthiness, by [=== true] and by [!== false]. *)
Record fieldOptions := {
  type_schemaName : option (option string);
    (* [None]: no [type]; [Some None]: a [type] without [schemaName] *)
  notEmpty : value;
  allowNull : value;
  defaultValue : value;
  _autoGenerated : value;
  primaryKey : value;
  exclude : value;
  allowOnRead : value;
  allowOnUpdate : value;
  allowOnCreate : value;
  requireOnRead : value;
  requireOnUpdate : value;
  requireOnCreate : value;
  readModel : option joi;
  updateModel : option joi;
  createModel : option joi;
}.

(** [model.schema.methods] *)
Record schemaMethods := {
  associations : option (list (string * string));
    (* [routeOptions.associations]: the [type] of each association, in key
       order; [None] when [routeOptions] or its associations are missing *)
  extraReadModelAttributes : option (gmap string joi);
  extraUpdateModelAttributes : option (gmap string joi);
  extraCreateModelAttributes : option (gmap string joi);
}.

Record mongooseModel := {
  modelName : string;
  paths : list (string * fieldOptions);   (* [schema.paths], in key order *)
  methods : schemaMethods;
}.

(** [Joi.object(base).meta({ className })], with [.optional()] or not. *)
Record joiObject := {
  keys : gmap string joi;
  className : string;
  isOptional : bool;
}.

(** [v === true] and [v === false] *)
Definition isTrue (v : value) : bool :=
  match v with VBool true => true | _ => false end.
Definition isFalse (v : value) : bool :=
  match v with VBool false => true | _ => false end.

(** A [for ... in] loop whose body may throw. *)
Fixpoint forIn {A B : Type} (body : B → A → result B) (l : list A) (b : B)
    : result B :=
  match l with
  | [] => Ok b
  | x :: l' => b' ← body b x; forIn body l' b'
  end.

(** [_.extend(base, extra)] when [extra] is there *)
Definition extend (base : gmap string joi) (extra : option (gmap string joi))
    : gmap string joi :=
  match extra with
  | Some extra => extra ∪ base
  | None => base
  end.

Definition generateJoiModelFromAttribute (attribute : fieldOptions) : result joi :=
  match type_schemaName attribute with
  | None => Throw (TypeError "Cannot read property 'schemaName' of undefined")
  | Some schemaName =>
      let model :=
        if bool_decide (schemaName = Some "ObjectId") then Joi_string
        else if bool_decide (schemaName = Some "Boolean") then Joi_bool
        else if bool_decide (schemaName = Some "Number") then Joi_number
        else if bool_decide (schemaName = Some "Date") then Joi_date
        else if negb (truthy (notEmpty attribute)) then allow Joi_string EmptyText
        else Joi_string in
      Ok (if truthy (allowNull attribute) then allow model Null else model)
  end.

(** Lines 41-45 of [generateJoiReadModel]: the schema that an association
    gets. *)
Definition associationReadModel (type : string) : joi :=
  if String.eqb type "MANY"
  then optional (items Joi_array (unknown Joi_object))
  else optional (allow (unknown Joi_object) Null).

Definition generateJoiReadModel (model : mongooseModel) : result joiObject :=
  readModelBase ← forIn (fun readModelBase '(fieldName, field) =>
      match readModel field with
      | Some custom => Ok (<[fieldName := custom]> readModelBase)
      | None =>
          if negb (isFalse (allowOnRead field)) && negb (isTrue (exclude field))
          then
            attributeReadModel ← generateJoiModelFromAttribute field;
            Ok (<[fieldName := if isTrue (requireOnRead field)
                               then required attributeReadModel
                               else optional attributeReadModel]> readModelBase)
          else Ok readModelBase
      end) (paths model) ∅;
  let readModelBase :=
    match associations (methods model) with
    | Some associations =>
        foldl (fun readModelBase '(associationName, type) =>
          <[associationName := associationReadModel type]> readModelBase)
          readModelBase associations
    | None => readModelBase
    end in
  let readModelBase :=
    extend readModelBase (extraReadModelAttributes (methods model)) in
  Ok {| keys := readModelBase;
        className := modelName model ++ "ReadModel";
        isOptional := false |}.

Definition generateJoiUpdateModel (model : mongooseModel) : result joiObject :=
  updateModelBase ← forIn (fun updateModelBase '(fieldName, field) =>
      match updateModel field with
      | Some custom => Ok (<[fieldName := custom]> updateModelBase)
      | None =>
          if negb (truthy (primaryKey field)) && negb (isFalse (allowOnUpdate field))
          then
            attributeUpdateModel ← generateJoiModelFromAttribute field;
            Ok (<[fieldName := if isTrue (requireOnUpdate field)
                               then required attributeUpdateModel
                               else optional attributeUpdateModel]> updateModelBase)
          else Ok updateModelBase
      end) (paths model) ∅;
  let updateModelBase :=
    extend updateModelBase (extraUpdateModelAttributes (methods model)) in
  Ok {| keys := updateModelBase;
        className := modelName model ++ "UpdateModel";
        isOptional := true |}.

Definition generateJoiCreateModel (model : mongooseModel) : result joiObject :=
  createModelBase ← forIn (fun createModelBase '(fieldName, field) =>
      match createModel field with
      | Some custom => Ok (<[fieldName := custom]> createModelBase)
      | None =>
          if negb (truthy (primaryKey field)) && negb (isFalse (allowOnCreate field))
          then
            attributeCreateModel ← generateJoiModelFromAttribute field;
            Ok (<[fieldName :=
                    if (isFalse (allowNull field)
                        && negb (truthy (defaultValue field))
                        && negb (truthy (_autoGenerated field)))
                       || isTrue (requireOnCreate field)
                    then required attributeCreateModel
                    else optional attributeCreateModel]> createModelBase)
          else Ok createModelBase
      end) (paths model) ∅;
  let createModelBase :=
    extend createModelBase (extraCreateModelAttributes (methods model)) in
  Ok {| keys := createModelBase;
        className := modelName model ++ "CreateModel";
        isOptional := false |}.

End JoiHelper.

(** ** A schema for the examples *)

Module JoiExamples.
Import JS JoiHelper.

(** The options of a path that sets [type] and nothing that the generator
    reads. *)
Definition plainPath (schemaName : string) : fieldOptions :=
  {| type_schemaName := Some (Some schemaName);
     notEmpty := VUndefined; allowNull := VUndefined;
     defaultValue := VUndefined; _autoGenerated := VUndefined;
     primaryKey := VUndefined; exclude := VUndefined;
     allowOnRead := VUndefined; allowOnUpdate := VUndefined;
     allowOnCreate := VUndefined;
     requireOnRead := VUndefined; requireOnUpdate := VUndefined;
     requireOnCreate := VUndefined;
     readModel := None; updateModel := None; createModel := None |}.

(** A path that is the primary key and is not to be read. *)
Definition secretKey : fieldOptions :=
  {| type_schemaName := Some (Some "ObjectId");
     notEmpty := VUndefined; allowNull := VUndefined;
     defaultValue := VUndefined; _autoGenerated := VUndefined;
     primaryKey := VBool true; exclude := VBool true;
     allowOnRead := VUndefined; allowOnUpdate := VUndefined;
     allowOnCreate := VUndefined;
     requireOnRead := VUndefined; requireOnUpdate := VUndefined;
     requireOnCreate := VUndefined;
     readModel := None; updateModel := None; createModel := None |}.

(** A schema with such a path next to two plain ones, and with
    associations among its methods. *)
Definition permissionWithKey : mongooseModel :=
  {| modelName := "permission";
     paths := [("key", secretKey); ("name", plainPath "String");
               ("description", plainPath "String")];
     methods :=
       {| associations := Some [("users", "MANY_MANY"); ("roles", "MANY_MANY")];
          extraReadModelAttributes := None;
          extraUpdateModelAttributes := None;
          extraCreateModelAttributes := None |} |}.

End JoiExamples.
(** ** Facts about the scope comparator and the hooks *)

Module PolicyFacts.
Import JS Policy PolicyWords PolicyExamples.

(** A callback that never returns its accumulator loses it: after one
    round the accumulator is [undefined]. *)
Lemma reduce_loses_accumulator {A : Type} (f : value → A → result value) :
  (∀ acc x, f acc x = Ok VUndefined ∨ ∃ what, f acc x = Throw (TypeError what)) →
  ∀ x l acc,
    reduce f (x :: l) acc = Ok VUndefined
    ∨ ∃ what, reduce f (x :: l) acc = Throw (TypeError what).
Proof.
  intros Hf x l. revert x.
  induction l as [|y l IH]; intros x acc; simpl.
  - destruct (Hf acc x) as [-> | [what ->]]; simpl; eauto.
  - destruct (Hf acc x) as [-> | [what ->]]; simpl; [apply IH | eauto].
Qed.

Lemma index0_cases (v : value) :
  (∃ c, index0 v = Ok c) ∨ ∃ what, index0 v = Throw (TypeError what).
Proof. destruct v as [| | | [|] | [|]]; simpl; eauto. Qed.

Lemma substr1_cases (v : value) :
  (∃ c, substr1 v = Ok c) ∨ ∃ what, substr1 v = Throw (TypeError what).
Proof. destruct v as [| | | [|] | ]; simpl; eauto. Qed.

Lemma forbidden_callback_returns_nothing (scope scopeValue : value) :
  let r := (c ← index0 scopeValue;
            if strict_eq_string c "!"
            then _ ← push scope (substr1 scopeValue); Ok VUndefined
            else Ok VUndefined) in
  r = Ok VUndefined ∨ ∃ what, r = Throw (TypeError what).
Proof.
  simpl.
  destruct (index0_cases scopeValue) as [[c ->] | [what ->]]; simpl; eauto.
  destruct (strict_eq_string c "!"); eauto.
  destruct (substr1_cases scopeValue) as [[s ->] | [what ->]];
    destruct scope; simpl; eauto.
Qed.

(** On a document scope that is not empty the comparator throws. *)
Lemma compareScopes_nonempty (userScope : list string) (p : value) (P : list value) :
  ∃ what, compareScopes userScope (p :: P) = Throw (TypeError what).
Proof.
  unfold compareScopes.
  destruct (reduce_loses_accumulator _
              (fun scope scopeValue =>
                 forbidden_callback_returns_nothing scope scopeValue)
              p P (VArray [])) as [-> | [what ->]]; simpl; eauto.
Qed.

Lemma compareScopes_empty (userScope : list string) :
  compareScopes userScope [] = Ok false.
Proof. reflexivity. Qed.

(** The comparator authorizes nobody. *)
Lemma compareScopes_never_true (userScope : list string) (P : list value) :
  compareScopes userScope P ≠ Ok true.
Proof.
  destruct P as [|p P].
  - rewrite compareScopes_empty. discriminate.
  - destruct (compareScopes_nonempty userScope p P) as [what ->]. discriminate.
Qed.

(** C1 (the code departs from it): [compare(S, P)] is to run the forbidden,
    the required and the general check in this order on every document
    scope [P] that is not empty. [compareScopes] throws a [TypeError] on
    every such [P]: the callbacks of its [reduce] calls do not return the
    accumulator. On [S = ["read"]] and [P = ["read", "write"]] the three
    checks give [true]. *)
Theorem compareScopes_throws_on_nonempty_scope :
  (∀ (S : list string) (p : value) (P : list value),
     ∃ what, compareScopes S (p :: P) = Throw (TypeError what))
  ∧ compareScopes ["read"] [VString "read"; VString "write"]
    = Throw (TypeError "Cannot read property 'reduce' of undefined")
  ∧ compareSpec ["read"] ["read"; "write"] = true.
Proof.
  split; [exact compareScopes_nonempty | split; reflexivity].
Qed.


(** *** Verification with [compareScopes] in place *)

Lemma actionScopeOf_throws (action : string) (p : ScopePolicy) (e : exn) :
  actionScopeOf action p = Throw e → e = Thrown (VString "Invalid method type.").
Proof.
  unfold actionScopeOf. repeat case_match; congruence.
Qed.

Lemma effectiveScope_throws (action : string) (p : ScopePolicy) (e : exn) :
  effectiveScope action p = Throw e → e = Thrown (VString "Invalid method type.").
Proof.
  unfold effectiveScope.
  destruct (actionScopeOf action p) eqn:Ha; simpl; [discriminate|].
  intros [= <-]. eauto using actionScopeOf_throws.
Qed.

(** The callback of [documents.filter] keeps no document and leaves
    [authorized] as it is: it says [false], or an exception other than
    [false] leaves it. *)
Lemma verifyDocument_cases (strict : bool) (action : string) (S : list string)
    (d : document) (a : bool) :
  verifyDocument strict compareScopes action S d a = (a, Ok false)
  ∨ ∃ e, verifyDocument strict compareScopes action S d a = (a, Throw e)
         ∧ e ≠ Thrown (VBool false).
Proof.
  unfold verifyDocument.
  destruct (document_scope d) as [p|]; [|by left].
  destruct (isEmpty_object p); simpl; [by left|].
  destruct (effectiveScope action p) as [[|v P]|e] eqn:He; simpl.
  - by left.
  - destruct (compareScopes_nonempty S v P) as [what ->].
    right. eexists. split; [done|discriminate].
  - right. eexists. split; [done|].
    rewrite (effectiveScope_throws _ _ _ He). discriminate.
Qed.

Lemma filterDocuments_cases (strict : bool) (action : string) (S : list string)
    (docs : list document) (a : bool) :
  filterDocuments strict compareScopes action S docs a = (a, Ok [])
  ∨ ∃ e, filterDocuments strict compareScopes action S docs a = (a, Throw e)
         ∧ e ≠ Thrown (VBool false).
Proof.
  induction docs as [|d docs IH]; simpl; [by left|].
  destruct (verifyDocument_cases strict action S d a) as [-> | (e & -> & He)].
  - destruct IH as [-> | (e & -> & He)]; [by left|].
    right. by exists e.
  - right. by exists e.
Qed.

(** [verifyScope] never reports a document as unauthorized. *)
Lemma verifyScope_cases (strict : bool) (docs : list document) (action : string)
    (S : list string) :
  verifyScope strict docs action S
    = Ok {| authorized := true; unauthorizedDocs := [] |}
  ∨ ∃ e, verifyScope strict docs action S = Throw e.
Proof.
  unfold verifyScope, verifyScopeWith.
  destruct (filterDocuments_cases strict action S docs true) as [-> | (e & -> & He)].
  - by left.
  - right. exists e.
    destruct e as [what|[| [|] | | |]]; try done.
Qed.

Lemma verifyScope_never_unauthorized (strict : bool) (docs : list document)
    (action : string) (S : list string) (r : VerifyResult) :
  verifyScope strict docs action S = Ok r →
  authorized r = true ∧ unauthorizedDocs r = [].
Proof.
  destruct (verifyScope_cases strict docs action S) as [-> | [e ->]].
  - by intros [= <-].
  - discriminate.
Qed.

(** *** Verification with any comparator: what the hooks do with a verdict *)

Section AnyComparator.
Variable compare : list string → list value → result bool.

(** In strict mode the callback keeps no document: it says [false], or
    an exception leaves it. *)
Lemma strict_verifyDocument (action : string) (S : list string) (d : document)
    (a : bool) :
  (∃ a', verifyDocument true compare action S d a = (a', Ok false))
  ∨ ∃ a' e, verifyDocument true compare action S d a = (a', Throw e).
Proof.
  unfold verifyDocument. repeat case_match; eauto.
Qed.

Lemma strict_filterDocuments (action : string) (S : list string)
    (docs : list document) (a : bool) :
  (∃ a', filterDocuments true compare action S docs a = (a', Ok []))
  ∨ ∃ a' e, filterDocuments true compare action S docs a = (a', Throw e).
Proof.
  revert a. induction docs as [|d docs IH]; intros a; simpl; [eauto|].
  destruct (strict_verifyDocument action S d a) as [[a' ->] | (a' & e & ->)];
    [|eauto].
  destruct (IH a') as [[a'' ->] | (a'' & e & ->)]; eauto.
Qed.

(** In strict mode the list of unauthorized documents is empty whatever
    the comparator says. *)
Lemma strict_mode_names_no_document (docs : list document) (action : string)
    (S : list string) (r : VerifyResult) :
  verifyScopeWith true compare docs action S = Ok r → unauthorizedDocs r = [].
Proof.
  unfold verifyScopeWith.
  destruct (strict_filterDocuments action S docs true)
    as [[a' ->] | (a' & e & ->)].
  - by intros [= <-].
  - repeat case_match; try discriminate. by intros [= <-].
Qed.

Lemma filterDocuments_app (strict : bool) (action : string) (S : list string)
    (l1 l2 : list document) (a : bool) :
  filterDocuments strict compare action S (l1 ++ l2) a =
  match filterDocuments strict compare action S l1 a with
  | (a', Throw e) => (a', Throw e)
  | (a', Ok kept1) =>
      match filterDocuments strict compare action S l2 a' with
      | (a'', Throw e) => (a'', Throw e)
      | (a'', Ok kept2) => (a'', Ok (kept1 ++ kept2)%list)
      end
  end.
Proof.
  revert a. induction l1 as [|x l1 IH]; intros a; simpl.
  - by repeat case_match.
  - destruct (verifyDocument strict compare action S x a) as [a' [keep|e]];
      [|done].
    rewrite IH.
    destruct (filterDocuments strict compare action S l1 a') as [a1 [k1|e1]];
      [|done].
    destruct (filterDocuments strict compare action S l2 a1) as [a2 [k2|e2]];
      [|done].
    by destruct keep.
Qed.

(** In strict mode the first document that the comparator refuses ends
    the verification. *)
Lemma strict_mode_stops_at_first (pre post : list document) (d : document)
    (action : string) (S : list string) :
  filterDocuments true compare action S pre true = (true, Ok []) →
  verifyDocument true compare action S d true
    = (false, Throw (Thrown (VBool false))) →
  verifyScopeWith true compare (pre ++ d :: post) action S
  = Ok {| authorized := false; unauthorizedDocs := [] |}.
Proof.
  intros Hpre Hd. unfold verifyScopeWith.
  rewrite filterDocuments_app, Hpre. simpl. by rewrite Hd.
Qed.

(** What the comparator makes of a document whose effective scope is
    [documentScope]: refused. *)
Lemma refused_document (strict : bool) (action : string) (S : list string)
    (d : document) (p : ScopePolicy) (v : value) (documentScope : list value)
    (a : bool) :
  document_scope d = Some p →
  isEmpty_object p = false →
  effectiveScope action p = Ok (v :: documentScope) →
  compare S (v :: documentScope) = Ok false →
  verifyDocument strict compare action S d a
  = (false, if strict then Throw (Thrown (VBool false)) else Ok true).
Proof.
  intros Hp He Hs Hc. unfold verifyDocument.
  rewrite Hp, He, Hs. simpl. rewrite Hc. by destruct strict.
Qed.

End AnyComparator.


(** *** The hooks with [compareScopes] in place *)

Lemma verifyScopeById_cases (strict : bool) (collection : list document)
    (ids : list string) (action : string) (S : list string) :
  verifyScopeById strict collection ids action S
    = Ok {| authorized := true; unauthorizedDocs := [] |}
  ∨ ∃ e, verifyScopeById strict collection ids action S = Throw e.
Proof. apply verifyScope_cases. Qed.

Lemma preDecision_cases (strict : bool) (req : request) (action : string)
    (collection : list document) (ids : list string) (S : list string) :
  let decision :=
    preDecision strict req action (verifyScopeById strict collection ids action S) in
  decision = (Next None true, req)
  ∨ ∃ e, decision = (Next (Some (BadImplementation e)) false, req).
Proof.
  destruct (verifyScopeById_cases strict collection ids action S) as [-> | [e ->]];
    simpl; eauto.
Qed.

(** The pre hook lets the request pass or ends with an error that is not
    [Forbidden]; it never takes an id out of the payload. *)
Lemma pre_hook_cases (strict : bool) (collection : list document) (req : request) :
  (enforceDocumentScopePre strict collection req = (Next None true, req)
   ∨ ∃ e, enforceDocumentScopePre strict collection req
          = (Next (Some (BadImplementation e)) false, req))
  ∨ ∃ e, enforceDocumentScopePre strict collection req = (Uncaught e, req).
Proof.
  unfold enforceDocumentScopePre, enforceDocumentScopePreWith.
  repeat case_match; eauto; left; apply preDecision_cases.
Qed.

(** The post hook lets the response pass as it is, or an exception leaves
    it; it never answers [Forbidden] and never replaces a document. *)
Lemma post_hook_cases (strict : bool) (req : request) :
  enforceDocumentScopePost strict req
    = (Next None true, unchanged (response_source req))
  ∨ ∃ e, enforceDocumentScopePost strict req
         = (Uncaught e, unchanged (response_source req)).
Proof.
  unfold enforceDocumentScopePost, enforceDocumentScopePostWith.
  destruct (method req =? "get"); [|by left].
  destruct (truthy_param (params_id req)).
  - match goal with |- context [verifyScopeWith strict compareScopes ?docs ?a ?S] =>
      destruct (verifyScope_cases strict docs a S) as [H | [e H]];
      unfold verifyScope in H; rewrite H end; simpl; eauto.
  - destruct (response_source req) as [d|docs]; [eauto|].
    destruct (verifyScope_cases strict docs "read" (credentials_scope req))
      as [H | [e H]];
      unfold verifyScope in H; rewrite H; simpl; eauto.
Qed.

(** *** The claims about the hooks *)

(** C3 (the code departs from it): a bulk delete of A, B and C, of which
    only B is out of the caller's scope, is to go on without B when
    [enableDocumentScopeFail] is off and to be refused as forbidden when it
    is on. The pre hook never takes an id out of a payload and never answers
    [Forbidden]; on this request it ends, in both modes, with an internal
    error and the payload as it was: [compareScopes] throws on the scope of
    B. With a comparator that does what the specification says the same hook
    drops B, or refuses the request. *)
Theorem bulk_delete_ends_in_internal_error :
  (∀ strict collection req,
     (enforceDocumentScopePre strict collection req = (Next None true, req)
      ∨ ∃ e, enforceDocumentScopePre strict collection req
             = (Next (Some (BadImplementation e)) false, req))
     ∨ ∃ e, enforceDocumentScopePre strict collection req = (Uncaught e, req))
  ∧ enforceDocumentScopePre false stored bulkDelete
    = (Next (Some (BadImplementation
         (TypeError "Cannot read property 'reduce' of undefined"))) false,
       bulkDelete)
  ∧ enforceDocumentScopePre true stored bulkDelete
    = (Next (Some (BadImplementation
         (TypeError "Cannot read property 'reduce' of undefined"))) false,
       bulkDelete)
  ∧ enforceDocumentScopePreWith false specComparator stored bulkDelete
    = (Next None true, bulkDeleteWithoutB)
  ∧ enforceDocumentScopePreWith true specComparator stored bulkDelete
    = (Next (Some (Forbidden "Insufficient document scope.")) false, bulkDelete).
Proof.
  split; [exact pre_hook_cases|].
  repeat split; reflexivity.
Qed.

(** C4 (the code departs from it): after a list read with an unauthorized
    document the post hook is to refuse the list in strict mode and to
    replace the document by an error object otherwise, and to refuse a
    single read in both modes. The post hook never answers [Forbidden] and
    never replaces a document; on these reads a [TypeError] leaves it:
    [compareScopes] throws on the scope of the document. With a comparator
    that does what the specification says the same hook refuses, or
    replaces the document. *)
Theorem read_hook_throws_on_restricted_document :
  (∀ strict req,
     enforceDocumentScopePost strict req
       = (Next None true, unchanged (response_source req))
     ∨ ∃ e, enforceDocumentScopePost strict req
            = (Uncaught e, unchanged (response_source req)))
  ∧ enforceDocumentScopePost true listRead
    = (Uncaught (TypeError "Cannot read property 'reduce' of undefined"),
       RDocs [Document (noPolicy "d1"); Document (adminOnly "d2")])
  ∧ enforceDocumentScopePost false listRead
    = (Uncaught (TypeError "Cannot read property 'reduce' of undefined"),
       RDocs [Document (noPolicy "d1"); Document (adminOnly "d2")])
  ∧ enforceDocumentScopePost true singleRead
    = (Uncaught (TypeError "Cannot read property 'reduce' of undefined"),
       RSingle (adminOnly "d2"))
  ∧ enforceDocumentScopePost false singleRead
    = (Uncaught (TypeError "Cannot read property 'reduce' of undefined"),
       RSingle (adminOnly "d2"))
  ∧ enforceDocumentScopePostWith false specComparator listRead
    = (Next None true,
       RDocs [Document (noPolicy "d1"); ErrorObject "Insufficient document scope."])
  ∧ enforceDocumentScopePostWith true specComparator listRead
    = (Next (Some (Forbidden "Insufficient document scope.")) false,
       RDocs [Document (noPolicy "d1"); Document (adminOnly "d2")]).
Proof.
  split; [exact post_hook_cases|].
  repeat split; reflexivity.
Qed.

(** C10 (the code departs from it): in strict mode the verification is to
    stop at the first unauthorized document and to return
    [{authorized: false, unauthorizedDocs: []}]. [verifyScope] returns
    [{authorized: true, unauthorizedDocs: []}] or throws, whatever the
    documents and the mode; on a list whose second document is out of the
    caller's scope it throws a [TypeError]. With a comparator that does what
    the specification says the same function returns what the claim has. *)
Theorem strict_verification_throws :
  (∀ strict docs action S,
     verifyScope strict docs action S
       = Ok {| authorized := true; unauthorizedDocs := [] |}
     ∨ ∃ e, verifyScope strict docs action S = Throw e)
  ∧ verifyScope true [noPolicy "d1"; adminOnly "d2"; adminOnly "d3"] "read" ["user"]
    = Throw (TypeError "Cannot read property 'reduce' of undefined")
  ∧ verifyScopeWith true specComparator
      [noPolicy "d1"; adminOnly "d2"; adminOnly "d3"] "read" ["user"]
    = Ok {| authorized := false; unauthorizedDocs := [] |}.
Proof.
  split; [exact verifyScope_cases|].
  split; reflexivity.
Qed.

(** *** Documents without a restriction *)

Lemma unrestricted_verifyDocument (strict : bool)
    (compare : list string → list value → result bool) (action : string)
    (S : list string) (d : document) (a : bool) :
  unrestricted action d →
  verifyDocument strict compare action S d a = (a, Ok false).
Proof.
  unfold unrestricted, verifyDocument.
  destruct (document_scope d) as [p|]; [|done].
  intros [-> | ->]; [done|].
  by destruct (isEmpty_object p).
Qed.

Lemma unrestricted_filterDocuments (strict : bool)
    (compare : list string → list value → result bool) (action : string)
    (S : list string) (docs : list document) (a : bool) :
  Forall (unrestricted action) docs →
  filterDocuments strict compare action S docs a = (a, Ok []).
Proof.
  induction 1 as [|d docs Hd _ IH]; simpl; [done|].
  by rewrite (unrestricted_verifyDocument _ _ _ _ _ _ Hd), IH.
Qed.

(** C5: whatever the caller holds, also nothing, a document whose effective
    scope is empty, or that has no policy, is not held against the caller:
    the callback of the verification does not keep it, and a list of such
    documents is verified as authorized, in both modes. *)
Theorem empty_effective_scope_is_authorized (strict : bool) (action : string)
    (S : list string) (docs : list document) :
  Forall (unrestricted action) docs →
  (∀ d a, d ∈ docs → verifyDocument strict compareScopes action S d a = (a, Ok false))
  ∧ verifyScope strict docs action S
    = Ok {| authorized := true; unauthorizedDocs := [] |}.
Proof.
  intros Hdocs. split.
  - intros d a Hd. apply unrestricted_verifyDocument.
    rewrite Forall_forall in Hdocs. auto.
  - unfold verifyScope, verifyScopeWith.
    by rewrite unrestricted_filterDocuments.
Qed.

Lemma empty_effective_scope_is_authorized_witness :
  Forall (unrestricted "read") [noPolicy "A"; openPolicy "B"]
  ∧ verifyScope true [noPolicy "A"; openPolicy "B"] "read" []
    = Ok {| authorized := true; unauthorizedDocs := [] |}.
Proof.
  assert (Forall (unrestricted "read") [noPolicy "A"; openPolicy "B"]) as H.
  { constructor; [exact I|].
    constructor; [right; reflexivity | constructor]. }
  split; [exact H|].
  exact (proj2 (empty_effective_scope_is_authorized true "read" []
                  [noPolicy "A"; openPolicy "B"] H)).
Defined.

(** *** The effective scope *)

(** C6 (the code departs from it): the effective scope is to be the global
    list followed by the action list when the global list is not empty, and
    the action list alone otherwise. A policy that has a global list and no
    list for the action is composed with an empty action list by this rule;
    the code appends the element [undefined] to the global list instead,
    because only the branch that takes the action list alone tests that
    there is one. And the code tests the first token of the global list
    where the rule, and the [_.isEmpty] that follows, test the list: a
    global list whose first token is the empty string is dropped as a
    whole, forbidden tokens included. Where the action list is there and
    the global list is empty or starts with a token that is not empty, the
    code composes as the rule says. *)
Theorem effectiveScope_departs_from_composition_rule :
  effectiveScope "update" (globalOnly ["staff"]) = Ok [VString "staff"; VUndefined]
  ∧ composeSpec ["staff"] [] = ["staff"]
  ∧ effectiveScope "read" (globalAndRead [""; "!banned"] ["a"]) = Ok [VString "a"]
  ∧ composeSpec [""; "!banned"] ["a"] = [""; "!banned"; "a"]
  ∧ effectiveScope "read" (globalAndRead ["staff"; "!guest"] ["+verified"])
    = Ok (VString <$> composeSpec ["staff"; "!guest"] ["+verified"])
  ∧ effectiveScope "read" (globalAndRead [] ["+verified"])
    = Ok (VString <$> composeSpec [] ["+verified"])
  ∧ (∀ (action : string) (p : ScopePolicy) (g : string) (G : list string),
       scope p = Some (g :: G) →
       g ≠ "" →
       actionScopeOf action p = Ok None →
       effectiveScope action p
       = Ok ((VString <$> composeSpec (g :: G) []) ++ [VUndefined])%list)
  ∧ (∀ (action : string) (p : ScopePolicy) (G A : list string),
       scope p = Some ("" :: G) →
       actionScopeOf action p = Ok (Some A) →
       effectiveScope action p = Ok (VString <$> A))
  ∧ (∀ (action : string) (p : ScopePolicy) (G A : list string),
       default [] (scope p) = G →
       head G ≠ Some "" →
       actionScopeOf action p = Ok (Some A) →
       effectiveScope action p = Ok (VString <$> composeSpec G A)).
Proof.
  split; [reflexivity|]. split; [reflexivity|].
  split; [reflexivity|]. split; [reflexivity|].
  split; [reflexivity|]. split; [reflexivity|].
  split; [|split].
  - intros action p g G Hscope Hg HA. unfold effectiveScope.
    rewrite HA, Hscope. simpl.
    rewrite (proj2 (String.eqb_neq _ _) Hg). simpl.
    by rewrite app_nil_r.
  - intros action p G A Hscope HA. unfold effectiveScope.
    by rewrite HA, Hscope.
  - intros action p G A HG Hhead HA. unfold effectiveScope.
    rewrite HG, HA. simpl.
    destruct G as [|g G]; simpl; [done|].
    rewrite (proj2 (String.eqb_neq g "")) by (intros ->; done). simpl.
    unfold concat. by rewrite fmap_app.
Qed.

End PolicyFacts.

(** ** Facts about the association helpers *)

Module HandlerFacts.
Import JS Handler Links HandlerExamples.

(** *** Looking for the entry of a pair *)

Lemma refersTo_keyed (key id : string) (entry : obj) :
  is_Some (entry !! key) → refersTo key id entry = Ok (linksTo key id entry).
Proof. intros [v Hv]. unfold refersTo, linksTo. by rewrite Hv. Qed.

Lemma filterM_refersTo (key id : string) (array : list obj) :
  keyed key array →
  filterM (refersTo key id) array = Ok (entriesFor key id array).
Proof.
  unfold entriesFor.
  induction 1 as [|entry array Hentry _ IH]; simpl; [done|].
  rewrite (refersTo_keyed _ _ _ Hentry), IH. simpl.
  destruct (linksTo key id entry) eqn:Hl.
  - by rewrite filter_cons_True.
  - rewrite filter_cons_False; [done|]. by rewrite Hl.
Qed.

(** The first entry for [id] is the first entry equal to it. *)
Lemma list_find_first_match (key id : string) (array : list obj) :
  match entriesFor key id array with
  | [] => list_find (fun entry => linksTo key id entry = true) array = None
  | duplicate :: _ =>
      list_find (fun entry => linksTo key id entry = true) array
      = list_find (fun entry => entry = duplicate) array
      ∧ linksTo key id duplicate = true
  end.
Proof.
  unfold entriesFor.
  induction array as [|entry array IH]; simpl; [done|].
  destruct (linksTo key id entry) eqn:Hl.
  - rewrite filter_cons_True by done. simpl.
    rewrite !decide_True by done. done.
  - rewrite filter_cons_False by (simpl; congruence).
    rewrite decide_False by (simpl; congruence).
    destruct (filter _ array) as [|duplicate rest].
    + by rewrite IH.
    + destruct IH as [IH Hd]. split; [|done].
      rewrite decide_False by congruence. by rewrite IH.
Qed.

Lemma duplicateIndexOf_keyed (key id : string) (array : list obj) :
  keyed key array →
  duplicateIndexOf key id array
  = Ok (fst <$> list_find (fun entry => linksTo key id entry = true) array).
Proof.
  intros Hk. unfold duplicateIndexOf. rewrite (filterM_refersTo _ _ _ Hk). simpl.
  pose proof (list_find_first_match key id array) as H.
  destruct (entriesFor key id array) as [|duplicate rest].
  - by rewrite H.
  - destruct H as [-> _]. done.
Qed.

(** *** Saving *)

Lemma save_faultless (m : Model) (d : document) (st : store) :
  faultless st →
  save m d st
  = (Resolved (),
     {| collections := <[(modelName m, _id d) := d]> (collections st);
        next_oid := next_oid st;
        save_faults := tail (save_faults st) |})
  ∧ faultless {| collections := <[(modelName m, _id d) := d]> (collections st);
                 next_oid := next_oid st;
                 save_faults := tail (save_faults st) |}.
Proof.
  unfold faultless, save. intros Hf.
  destruct (save_faults st) as [|[|] faults] eqn:E; simpl.
  - done.
  - by inversion Hf.
  - split; [done|]. by inversion Hf.
Qed.

Lemma setField_same (d : document) (name : string) (f : field) :
  fields d !! name = Some f → setField d name f = d.
Proof.
  intros H. destruct d as [id fs]. unfold setField. simpl in *.
  by rewrite insert_id.
Qed.

(** *** One side of a link *)

Lemma filter_nil_Forall {A : Type} (Q : A → Prop) `{!∀ x, Decision (Q x)}
    (l : list A) :
  filter Q l = [] ↔ Forall (fun x => ¬ Q x) l.
Proof.
  induction l as [|x l IH]; [by split|].
  rewrite filter_cons. case_decide.
  - split; [discriminate|]. by inversion 1.
  - rewrite IH. split; [by constructor|by inversion 1].
Qed.

Lemma filter_take_first {A : Type} (Q : A → Prop) `{!∀ x, Decision (Q x)}
    (l : list A) (i : nat) (x : A) :
  list_find Q l = Some (i, x) → filter Q (take i l) = [].
Proof.
  intros (Hi & Hx & Hfirst)%list_find_Some.
  apply filter_nil_Forall, Forall_lookup. intros j y Hj.
  apply lookup_take_Some in Hj as [Hj ?]. eauto.
Qed.

Lemma filter_insert_outside {A : Type} (Q : A → Prop) `{!∀ x, Decision (Q x)}
    (l : list A) (i : nat) (old new : A) :
  l !! i = Some old → ¬ Q old → ¬ Q new → filter Q (<[i := new]> l) = filter Q l.
Proof.
  intros Hi Hold Hnew.
  rewrite insert_take_drop by eauto using lookup_lt_Some.
  rewrite <-(take_drop_middle l i old Hi) at 3.
  by rewrite !filter_app, !filter_cons_False.
Qed.

Lemma filter_insert_inside {A : Type} (Q : A → Prop) `{!∀ x, Decision (Q x)}
    (l : list A) (i : nat) (old new : A) (rest : list A) :
  list_find Q l = Some (i, old) → Q new → filter Q l = old :: rest →
  filter Q (<[i := new]> l) = new :: rest.
Proof.
  intros (Hi & Hold & Hfirst)%list_find_Some Hnew.
  rewrite insert_take_drop by eauto using lookup_lt_Some.
  rewrite <-(take_drop_middle l i old Hi) at 1.
  rewrite !filter_app, !filter_cons_True by done.
  rewrite (filter_take_first Q l i old) by (by apply list_find_Some).
  simpl. by intros [= ->].
Qed.

Lemma list_find_filter_nil {A : Type} (Q : A → Prop) `{!∀ x, Decision (Q x)}
    (l : list A) :
  filter Q l = [] ↔ list_find Q l = None.
Proof. by rewrite list_find_None, filter_nil_Forall. Qed.

Lemma list_find_filter_cons {A : Type} (Q : A → Prop) `{!∀ x, Decision (Q x)}
    (l : list A) (i : nat) (x : A) :
  list_find Q l = Some (i, x) → ∃ rest, filter Q l = x :: rest.
Proof.
  intros Hfind. pose proof (filter_take_first Q l i x Hfind) as Htake.
  apply list_find_Some in Hfind as (Hi & Hx & Hfirst).
  rewrite <-(take_drop_middle l i x Hi).
  rewrite filter_app, filter_cons_True, Htake by done. eauto.
Qed.

Section OneSide.
Variables key id : string.

(** The reference of an entry, as the code compares it. *)
Lemma linksTo_reference (id' : string) (entry : obj) :
  linksTo key id' entry = true ↔ toString <$> entry !! key = Some id'.
Proof.
  unfold linksTo. destruct (entry !! key) as [v|]; simpl; [|done].
  rewrite String.eqb_eq. naive_solver.
Qed.

Lemma linksTo_other (id' : string) (entry : obj) :
  toString <$> entry !! key = Some id → id' ≠ id → ¬ linksTo key id' entry = true.
Proof. rewrite linksTo_reference. congruence. Qed.

Lemma retainId_id (existing payload : obj) :
  retainId (Some existing) payload !! "_id" = existing !! "_id".
Proof.
  unfold retainId. simpl. destruct (existing !! "_id") as [v|] eqn:E.
  - by rewrite lookup_insert_eq.
  - by rewrite lookup_delete_eq.
Qed.

Lemma retainId_other (existing : option obj) (payload : obj) (k : string) :
  k ≠ "_id" → retainId existing payload !! k = payload !! k.
Proof.
  intros Hk. unfold retainId.
  destruct (existing ≫= _); by rewrite ?lookup_insert_ne, ?lookup_delete_ne.
Qed.

(** The payload keeps its reference when it takes over the [_id] of an
    entry with the same reference. *)
Lemma retainId_reference (existing payload : obj) :
  toString <$> existing !! key = Some id →
  toString <$> payload !! key = Some id →
  toString <$> retainId (Some existing) payload !! key = Some id.
Proof.
  intros He Hp. destruct (decide (key = "_id")) as [->|Hne].
  - by rewrite retainId_id.
  - by rewrite retainId_other.
Qed.

Lemma stored_entry_other (payload : obj) (n : nat) (k : string) :
  k ≠ "_id" → stored_entry payload n !! k = payload !! k.
Proof.
  intros Hk. unfold stored_entry.
  destruct (payload !! "_id"); by rewrite ?lookup_insert_ne.
Qed.

Lemma stored_entry_reference (payload : obj) (n : nat) :
  toString <$> payload !! key = Some id →
  toString <$> stored_entry payload n !! key = Some id.
Proof.
  intros Hp. destruct (decide (key = "_id")) as [->|Hne].
  - unfold stored_entry. destruct (payload !! "_id") eqn:E.
    + by rewrite E.
    + discriminate.
  - by rewrite stored_entry_other.
Qed.

Context (payload : obj) (Hpayload : toString <$> payload !! key = Some id).

(** Without an entry for [id] the payload is appended. *)
Lemma upsert_appends (replace : bool) (n : nat) (array : list obj) :
  entriesFor key id array = [] →
  upsert key id replace payload n array = (array ++ [stored_entry payload n])%list.
Proof.
  unfold entriesFor, upsert. intros ->%list_find_filter_nil. done.
Qed.

(** The first entry for [id] keeps its place and its [_id]. *)
Lemma upsert_retains (replace : bool) (n : nat) (array : list obj)
    (existing : obj) (rest : list obj) :
  entriesFor key id array = existing :: rest →
  ∃ entry,
    entriesFor key id (upsert key id replace payload n array) = entry :: rest
    ∧ entry !! "_id" = existing !! "_id".
Proof.
  unfold entriesFor, upsert. intros Hexisting.
  destruct (list_find _ array) as [[i d]|] eqn:Hfind.
  - destruct (list_find_filter_cons _ _ _ _ Hfind) as [rest' Hd].
    assert (d = existing) as -> by congruence.
    destruct replace; [|by eauto].
    exists (retainId (Some existing) payload). split; [|apply retainId_id].
    apply (filter_insert_inside _ _ _ existing); [done| |done].
    apply linksTo_reference, retainId_reference; [|done].
    apply list_find_Some in Hfind as (_ & Hd' & _).
    by apply linksTo_reference.
  - apply list_find_filter_nil in Hfind. congruence.
Qed.

(** The entries for other documents stay as they are. *)
Lemma upsert_others (replace : bool) (n : nat) (array : list obj) (id' : string) :
  id' ≠ id →
  entriesFor key id' (upsert key id replace payload n array)
  = entriesFor key id' array.
Proof.
  intros Hne. unfold entriesFor, upsert.
  destruct (list_find _ array) as [[i d]|] eqn:Hfind.
  - destruct replace; [|done].
    apply list_find_Some in Hfind as (Hi & Hd & _).
    apply linksTo_reference in Hd.
    apply (filter_insert_outside _ _ _ d); [done|..].
    + by apply linksTo_other.
    + apply linksTo_other; [|done]. by apply retainId_reference.
  - rewrite filter_app, filter_cons_False, filter_nil, app_nil_r; [done|].
    apply linksTo_other; [|done]. by apply stored_entry_reference.
Qed.

Lemma upsert_keyed (replace : bool) (n : nat) (array : list obj) :
  keyed key array → keyed key (upsert key id replace payload n array).
Proof.
  unfold keyed, upsert. intros Hk.
  destruct (list_find _ array) as [[i d]|] eqn:Hfind.
  - destruct replace; [|done].
    apply list_find_Some in Hfind as (Hi & Hd & _).
    apply linksTo_reference in Hd.
    apply Forall_insert; [done|].
    apply (fmap_is_Some toString). rewrite retainId_reference; eauto.
  - apply Forall_app. split; [done|]. constructor; [|done].
    apply (fmap_is_Some toString). rewrite stored_entry_reference; eauto.
Qed.

(** A pair that has at most one entry has exactly one afterwards. *)
Lemma upsert_single (replace : bool) (n : nat) (array : list obj) :
  (length (entriesFor key id array) ≤ 1)%nat →
  length (entriesFor key id (upsert key id replace payload n array)) = 1%nat.
Proof.
  intros Hlen.
  destruct (entriesFor key id array) as [|existing rest] eqn:Hentries.
  - rewrite upsert_appends by done.
    unfold entriesFor in *. rewrite filter_app, Hentries. simpl.
    rewrite filter_cons_True; [done|].
    by apply linksTo_reference, stored_entry_reference.
  - destruct (upsert_retains replace n array existing rest Hentries)
      as (entry & -> & _).
    simpl in *. lia.
Qed.

End OneSide.

(** *** The MANY_MANY branch of [_setAssociation] *)

Lemma selectPayload_cases (p : Payload) (childId : string) (pl : obj) (ef : bool)
    (slot : option nat) :
  selectPayload p childId = Ok (pl, ef, slot) →
  (firstIsString p = true ∧ pl = ∅ ∧ ef = false ∧ slot = None)
  ∨ ∃ records i record,
      p = Records records
      ∧ list_find (fun object => object !! "childId" = Some (JStr childId)) records
        = Some (i, record)
      ∧ pl = delete "childId" record ∧ ef = true ∧ slot = Some i.
Proof.
  unfold selectPayload. destruct (firstIsString p) eqn:Hf.
  - intros [= <- <- <-]. by left.
  - destruct p as [ids|records].
    + simpl. discriminate.
    + destruct (list_find _ records) as [[i record]|] eqn:Hfind; [|discriminate].
      intros [= <- <- <-]. right. by exists records, i, record.
Qed.

Lemma pushEntry_stored (array : list obj) (entry : obj) (st : store) :
  ∃ st', pushEntry array entry st = ((array ++ [stored_entry entry (next_oid st)])%list, st')
         ∧ collections st' = collections st ∧ save_faults st' = save_faults st.
Proof.
  unfold pushEntry, stored_entry. destruct (entry !! "_id"); eauto.
Qed.

Lemma delete_retainId (existing : option obj) (payload : obj) :
  delete "_id" (retainId existing payload) = delete "_id" payload.
Proof.
  unfold retainId. destruct (existing ≫= _).
  - by rewrite delete_insert_eq.
  - by rewrite delete_delete_eq.
Qed.

Lemma list_find_insert_outside {A : Type} (Q : A → Prop) `{!∀ x, Decision (Q x)}
    (l : list A) (i : nat) (old new : A) :
  l !! i = Some old → ¬ Q old → ¬ Q new →
  list_find Q (<[i := new]> l) = list_find Q l.
Proof.
  revert i. induction l as [|x l IH]; intros [|i] Hi Hold Hnew; simplify_eq/=.
  - by rewrite !decide_False.
  - case_decide; [done|]. by rewrite IH.
Qed.

Lemma written_written (slot : option nat) (x x' : obj) (p : Payload) :
  written slot x (written slot x' p) = written slot x p.
Proof.
  destruct slot as [i|], p as [ids|records]; simpl; try done.
  by rewrite list_insert_insert_eq.
Qed.

(** Writing to the record of one child leaves the records of the others to
    be found as before. *)
Lemma written_selectPayload (p : Payload) (childId y : string) (pl x : obj)
    (ef : bool) (slot : option nat) :
  selectPayload p childId = Ok (pl, ef, slot) →
  y ≠ childId →
  x !! "childId" ≠ Some (JStr y) →
  selectPayload (written slot x p) y = selectPayload p y.
Proof.
  intros [(_ & _ & _ & ->) | (records & i & record & -> & Hfind & _ & _ & ->)]
    %selectPayload_cases Hy Hx; [by destruct p|].
  unfold selectPayload. simpl.
  apply list_find_Some in Hfind as (Hi & Hrecord & _).
  rewrite (list_find_insert_outside _ _ _ record); [done..| |done].
  rewrite Hrecord. congruence.
Qed.

(** What the payload object holds under [childId] once the child is filled
    in. *)
Lemma linked_payload_childId (key childId y : string) (record : obj) :
  y ≠ childId →
  (<[key := JStr childId]> (delete "childId" record)) !! "childId" ≠ Some (JStr y).
Proof.
  intros Hy. destruct (decide (key = "childId")) as [->|Hne].
  - rewrite lookup_insert_eq. congruence.
  - by rewrite lookup_insert_ne, lookup_delete_eq.
Qed.

Lemma linkOwner_links (childModel : Model) (childId associationName : string)
    (payload : obj) (extraFields : bool) (slot : option nat) (m : mem)
    (oa : list obj) :
  fields (ownerObject m) !! associationName = Some (FArr oa) →
  keyed (modelName childModel) oa →
  ∃ payload' p' st',
    linkOwner childModel childId associationName payload extraFields slot m
    = (Ok payload',
       {| ownerObject := setField (ownerObject m) associationName
            (FArr (upsert (modelName childModel) childId extraFields payload
                     (next_oid (db m)) oa));
          childObject := childObject m;
          payloadArray := p';
          db := st' |})
    ∧ (payload' = payload ∨ ∃ d, payload' = retainId d payload)
    ∧ (p' = payloadArray m ∨ p' = written slot payload' (payloadArray m))
    ∧ collections st' = collections (db m)
    ∧ save_faults st' = save_faults (db m).
Proof.
  intros Hoa Hkoa. unfold linkOwner.
  unfold mbind, M_bind, get, lift, writeThrough, setPayloadArray, setOwner, setDb.
  simpl. unfold arrayField. rewrite Hoa. simpl.
  rewrite (duplicateIndexOf_keyed _ _ _ Hkoa). simpl.
  unfold upsert.
  destruct (list_find _ oa) as [[i d]|] eqn:Hfo; simpl.
  - pose proof Hfo as (Hi & _ & _)%list_find_Some.
    destruct extraFields; simpl.
    + rewrite Hi. eexists _, _, _. split; [reflexivity|]. eauto 10.
    + rewrite (setField_same _ _ _ Hoa).
      exists payload, (payloadArray m), (db m). destruct m. eauto 10.
  - destruct (pushEntry_stored oa payload (db m)) as (st1 & -> & ? & ?). simpl.
    eexists _, _, _. split; [reflexivity|]. eauto 10.
Qed.

Lemma linkChild_links (ownerModel childModel : Model) (childAssociationName : string)
    (payload : obj) (m : mem) (ca : list obj) :
  (∃ a, lastAssociation
          (fun association =>
             String.eqb (model association) (modelName ownerModel)
             && String.eqb (type association) "MANY_MANY")
          (associations childModel) = Some a
        ∧ include_as a = Some childAssociationName) →
  fields (childObject m) !! childAssociationName = Some (FArr ca) →
  keyed (modelName ownerModel) ca →
  let childPayload :=
    <[modelName ownerModel := JStr (_id (ownerObject m))]>
      (delete (modelName childModel) (delete "_id" payload)) in
  ∃ st',
    linkChild ownerModel childModel payload m
    = (Ok (),
       {| ownerObject := ownerObject m;
          childObject := setField (childObject m) childAssociationName
            (FArr (upsert (modelName ownerModel) (_id (ownerObject m)) true
                     childPayload (next_oid (db m)) ca));
          payloadArray := payloadArray m;
          db := st' |})
    ∧ collections st' = collections (db m)
    ∧ save_faults st' = save_faults (db m).
Proof.
  intros (a & Hlast & Has) Hca Hkca childPayload. unfold linkChild.
  unfold mbind, M_bind, get, lift, setChild, setDb. simpl.
  rewrite Hlast. unfold includeAs. simpl. rewrite Has. simpl. rewrite Hca. simpl.
  rewrite (duplicateIndexOf_keyed _ _ _ Hkca). simpl.
  fold childPayload. unfold upsert.
  destruct (list_find _ ca) as [[j e]|] eqn:Hfc; simpl.
  - apply list_find_Some in Hfc as (Hj & _ & _). rewrite Hj.
    exists (db m). by destruct m.
  - destruct (pushEntry_stored ca childPayload (db m)) as (st' & -> & ? & ?).
    simpl. exists st'. by destruct m.
Qed.

Lemma linkManyMany_links (ownerModel childModel : Model)
    (associationName childAssociationName childId : string)
    (o c : document) (oa ca : list obj) (p : Payload) (pl : obj) (ef : bool)
    (slot : option nat) (st : store) :
  manyMany ownerModel childModel associationName childAssociationName →
  _id c = childId →
  fields o !! associationName = Some (FArr oa) →
  keyed (modelName childModel) oa →
  fields c !! childAssociationName = Some (FArr ca) →
  keyed (modelName ownerModel) ca →
  selectPayload p childId = Ok (pl, ef, slot) →
  let ownerPayload := <[modelName childModel := JStr childId]> pl in
  let childPayload :=
    <[modelName ownerModel := JStr (_id o)]>
      (delete (modelName childModel) (delete "_id" ownerPayload)) in
  ∃ n n' p' st',
    linkManyMany ownerModel childModel childId associationName
      {| ownerObject := o; childObject := c; payloadArray := p; db := st |}
    = (Ok (),
       {| ownerObject := setField o associationName
            (FArr (upsert (modelName childModel) childId ef ownerPayload n oa));
          childObject := setField c childAssociationName
            (FArr (upsert (modelName ownerModel) (_id o) true childPayload n' ca));
          payloadArray := p';
          db := st' |})
    ∧ collections st' = collections st
    ∧ save_faults st' = save_faults st
    ∧ ∀ y, y ≠ childId → selectPayload p' y = selectPayload p y.
Proof.
  intros [_ Hchild] Hc Hoa Hkoa Hca Hkca Hsel ownerPayload childPayload.
  unfold linkManyMany.
  unfold mbind at 1 2 3 4 5, M_bind, get, lift, writeThrough, setPayloadArray. simpl.
  rewrite Hc, Hsel. simpl. fold ownerPayload.
  rewrite written_written.
  set (m1 := {| ownerObject := o; childObject := c;
                payloadArray := written slot ownerPayload p; db := st |}).
  destruct (linkOwner_links childModel childId associationName ownerPayload
              ef slot m1 oa Hoa Hkoa)
    as (payload' & p' & st1 & -> & Hpayload' & Hp' & Hst1 & Hf1).
  simpl.
  match goal with |- context [linkChild _ _ _ ?m] => set (m2 := m) end.
  destruct (linkChild_links ownerModel childModel childAssociationName payload'
              m2 ca Hchild Hca Hkca) as (st2 & -> & Hst2 & Hf2).
  simpl in *.
  assert (delete "_id" payload' = delete "_id" ownerPayload) as ->.
  { destruct Hpayload' as [-> | [d ->]]; [done|apply delete_retainId]. }
  fold childPayload.
  eexists _, _, p', st2. split; [reflexivity|].
  split; [congruence|]. split; [congruence|].
  intros y Hy.
  assert (∀ x, x !! "childId" = ownerPayload !! "childId" →
            selectPayload (written slot x p) y = selectPayload p y) as Hwritten.
  { intros x Hx.
    destruct (selectPayload_cases _ _ _ _ _ Hsel)
      as [(_ & _ & _ & ->) | (records & i & record & -> & _ & Hpl & _ & ->)].
    { by destruct p. }
    apply (written_selectPayload _ _ _ _ _ _ _ Hsel Hy).
    rewrite Hx. unfold ownerPayload. rewrite Hpl.
    by apply linked_payload_childId. }
  destruct Hp' as [-> | ->].
  - by apply Hwritten.
  - rewrite written_written. apply Hwritten.
    destruct Hpayload' as [-> | [d ->]]; [done|by rewrite retainId_other].
Qed.

(** *** [_setAssociation] on a MANY_MANY association without faults *)

Lemma holds_setField (st : store) (m : Model) (d : document) (name key : string)
    (array : list obj) :
  findOne m (_id d) st = Some (setField d name (FArr array)) →
  keyed key array →
  holds st m (_id d) name key (setField d name (FArr array)) array.
Proof.
  intros Hfound Hkeyed. split; [done|done| |done].
  simpl. by rewrite lookup_insert_eq.
Qed.

Lemma setAssociation_links (ownerModel childModel : Model)
    (associationName childAssociationName childId : string)
    (o c : document) (oa ca : list obj) (p : Payload) (pl : obj) (ef : bool)
    (slot : option nat) (st : store) :
  manyMany ownerModel childModel associationName childAssociationName →
  fields o !! associationName = Some (FArr oa) →
  keyed (modelName childModel) oa →
  holds st childModel childId childAssociationName (modelName ownerModel) c ca →
  (modelName ownerModel, _id o) ≠ (modelName childModel, childId) →
  selectPayload p childId = Ok (pl, ef, slot) →
  faultless st →
  let ownerPayload := <[modelName childModel := JStr childId]> pl in
  let childPayload :=
    <[modelName ownerModel := JStr (_id o)]>
      (delete (modelName childModel) (delete "_id" ownerPayload)) in
  ∃ n n' p' st',
    let oa' := upsert (modelName childModel) childId ef ownerPayload n oa in
    let ca' := upsert (modelName ownerModel) (_id o) true childPayload n' ca in
    _setAssociation ownerModel o childModel childId associationName p st
    = (Resolved (), (setField o associationName (FArr oa'), p', st'))
    ∧ holds st' ownerModel (_id o) associationName (modelName childModel)
        (setField o associationName (FArr oa')) oa'
    ∧ holds st' childModel childId childAssociationName (modelName ownerModel)
        (setField c childAssociationName (FArr ca')) ca'
    ∧ (∀ k, k ≠ (modelName ownerModel, _id o) → k ≠ (modelName childModel, childId) →
          collections st' !! k = collections st !! k)
    ∧ faultless st'
    ∧ ∀ y, y ≠ childId → selectPayload p' y = selectPayload p y.
Proof.
  intros Hmm Hoa Hkoa [Hfound Hc Hca Hkca] Hkeys Hsel Hfaultless
    ownerPayload childPayload.
  destruct (linkManyMany_links ownerModel childModel associationName
              childAssociationName childId o c oa ca p pl ef slot st
              Hmm Hc Hoa Hkoa Hca Hkca Hsel)
    as (n & n' & p' & st1 & Hlink & Hst1 & Hf1 & Hp').
  fold ownerPayload childPayload in Hlink.
  exists n, n', p'.
  set (oa' := upsert (modelName childModel) childId ef ownerPayload n oa) in *.
  set (ca' := upsert (modelName ownerModel) (_id o) true childPayload n' ca) in *.
  assert (faultless st1) as Hfaultless1 by (unfold faultless; by rewrite Hf1).
  destruct (save_faultless ownerModel (setField o associationName (FArr oa')) st1
              Hfaultless1) as [Hsave1 Hfaultless2].
  set (st2 := {| collections := _ |}) in Hsave1, Hfaultless2.
  destruct (save_faultless childModel (setField c childAssociationName (FArr ca')) st2
              Hfaultless2) as [Hsave2 Hfaultless3].
  set (st3 := {| collections := _ |}) in Hsave2, Hfaultless3.
  exists st3. simpl.
  destruct Hmm as [(a & Ha & Htype) _].
  split.
  { unfold _setAssociation. rewrite Hfound, Ha, Htype. simpl.
    rewrite Hlink. simpl. rewrite Hsave1, Hsave2. done. }
  assert (keyed (modelName childModel) oa') as Hkoa'.
  { apply upsert_keyed; [|done]. unfold ownerPayload.
    by rewrite lookup_insert_eq. }
  assert (keyed (modelName ownerModel) ca') as Hkca'.
  { apply upsert_keyed; [|done]. unfold childPayload.
    by rewrite lookup_insert_eq. }
  split; [|split; [|split; [|split; [done|done]]]].
  - apply holds_setField; [|done]. unfold findOne, st3, st2. simpl.
    rewrite Hc, lookup_insert_ne by done. by rewrite lookup_insert_eq.
  - rewrite <-Hc. apply holds_setField; [|done]. unfold findOne, st3. simpl.
    by rewrite lookup_insert_eq.
  - intros k Hk1 Hk2. unfold st3, st2. simpl. rewrite Hc.
    by rewrite !lookup_insert_ne, Hst1 by done.
Qed.

(** *** Linking the same pair again *)

Lemma list_find_insert_first {A : Type} (Q : A → Prop) `{!∀ x, Decision (Q x)}
    (l : list A) (i : nat) (old new : A) :
  list_find Q l = Some (i, old) → Q new →
  list_find Q (<[i := new]> l) = Some (i, new).
Proof.
  intros (Hi & Hold & Hfirst)%list_find_Some Hnew.
  apply list_find_Some. split; [|split; [done|]].
  - apply list_lookup_insert_eq. eauto using lookup_lt_Some.
  - intros j y Hj Hlt. rewrite list_lookup_insert_ne in Hj by lia. eauto.
Qed.

Lemma list_find_app_new {A : Type} (Q : A → Prop) `{!∀ x, Decision (Q x)}
    (l : list A) (new : A) :
  list_find Q l = None → Q new →
  list_find Q (l ++ [new]) = Some (length l, new).
Proof.
  intros Hnone Hnew. rewrite list_find_app_r by done. simpl.
  by rewrite decide_True.
Qed.

Lemma retainId_stored_entry (payload : obj) (n : nat) :
  retainId (Some (stored_entry payload n)) payload = stored_entry payload n.
Proof.
  unfold retainId, stored_entry. simpl.
  destruct (payload !! "_id") as [v|] eqn:E.
  - rewrite E. by rewrite insert_id.
  - by rewrite lookup_insert_eq.
Qed.

Lemma retainId_retainId (existing payload : obj) :
  retainId (Some (retainId (Some existing) payload)) payload
  = retainId (Some existing) payload.
Proof.
  unfold retainId at 1. simpl. rewrite retainId_id.
  unfold retainId. simpl. done.
Qed.

(** Linking a pair that was just linked with the same payload changes
    nothing. *)
Lemma upsert_idempotent (key id : string) (payload : obj) (n n' : nat)
    (array : list obj) :
  toString <$> payload !! key = Some id →
  upsert key id true payload n' (upsert key id true payload n array)
  = upsert key id true payload n array.
Proof.
  intros Hpayload. unfold upsert at 2.
  destruct (list_find _ array) as [[i existing]|] eqn:Hfind.
  - assert (linksTo key id (retainId (Some existing) payload) = true) as Hnew.
    { apply list_find_Some in Hfind as (_ & Hexisting & _).
      apply linksTo_reference in Hexisting.
      by apply linksTo_reference, retainId_reference. }
    unfold upsert.
    rewrite (list_find_insert_first _ _ _ existing _ Hfind Hnew).
    by rewrite retainId_retainId, list_insert_insert_eq, Hfind.
  - assert (linksTo key id (stored_entry payload n) = true) as Hnew.
    { by apply linksTo_reference, stored_entry_reference. }
    unfold upsert.
    rewrite (list_find_app_new _ _ _ Hfind Hnew).
    rewrite retainId_stored_entry, Hfind.
    apply list_insert_id. by rewrite lookup_app_r, Nat.sub_diag.
Qed.

(** [_addOne] on a MANY_MANY association, without faults. *)
Lemma addOne_links (ownerModel childModel : Model)
    (ownerId childId associationName childAssociationName : string)
    (o c : document) (oa ca : list obj) (extra : option obj) (st : store) :
  manyMany ownerModel childModel associationName childAssociationName →
  holds st ownerModel ownerId associationName (modelName childModel) o oa →
  holds st childModel childId childAssociationName (modelName ownerModel) c ca →
  (modelName ownerModel, ownerId) ≠ (modelName childModel, childId) →
  faultless st →
  let ownerPayload :=
    <[modelName childModel := JStr childId]> (delete "childId" (default ∅ extra)) in
  let childPayload :=
    <[modelName ownerModel := JStr ownerId]>
      (delete (modelName childModel) (delete "_id" ownerPayload)) in
  ∃ n n' st',
    let oa' := upsert (modelName childModel) childId true ownerPayload n oa in
    let ca' := upsert (modelName ownerModel) ownerId true childPayload n' ca in
    _addOne ownerModel ownerId childModel childId associationName extra st
    = (Resolved (VBool true), st')
    ∧ holds st' ownerModel ownerId associationName (modelName childModel)
        (setField o associationName (FArr oa')) oa'
    ∧ holds st' childModel childId childAssociationName (modelName ownerModel)
        (setField c childAssociationName (FArr ca')) ca'
    ∧ faultless st'.
Proof.
  intros Hmm [Hfo Ho Hoa Hkoa] Hchild Hkeys Hfaultless ownerPayload childPayload.
  rewrite <-Ho in Hkeys.
  destruct (setAssociation_links ownerModel childModel associationName
              childAssociationName childId o c oa ca
              (Records [<["childId" := JStr childId]> (default ∅ extra)])
              (delete "childId" (default ∅ extra)) true (Some 0%nat) st
              Hmm Hoa Hkoa Hchild Hkeys)
    as (n & n' & p' & st' & Hset & Howner' & Hchild' & _ & Hfaultless' & _);
    [|done|].
  { unfold selectPayload. simpl.
    rewrite decide_True by (by rewrite lookup_insert_eq).
    simpl. by rewrite delete_insert_eq. }
  exists n, n', st'. simpl in *. rewrite Ho in *.
  split; [|done].
  unfold _addOne. rewrite Hfo. simpl. by rewrite Hset.
Qed.

(** *** What a link can change in the store *)

Lemma pushEntry_collections (array : list obj) (entry : obj) (st : store) :
  collections (pushEntry array entry st).2 = collections st.
Proof. unfold pushEntry. by destruct (entry !! "_id"). Qed.

Lemma linkOwner_frame (childModel : Model) (childId associationName : string)
    (payload : obj) (extraFields : bool) (slot : option nat) (m : mem) :
  let after := (linkOwner childModel childId associationName payload
                  extraFields slot m).2 in
  collections (db after) = collections (db m)
  ∧ childObject after = childObject m
  ∧ _id (ownerObject after) = _id (ownerObject m).
Proof.
  unfold linkOwner.
  unfold mbind, M_bind, get, lift, writeThrough, setPayloadArray, setOwner, setDb.
  simpl.
  destruct (arrayField _ _) as [ownerArray|]; simpl; [|done].
  destruct (duplicateIndexOf _ _ _) as [[i|]|]; simpl; [| |done].
  - by destruct extraFields.
  - pose proof (pushEntry_collections ownerArray payload (db m)).
    by destruct (pushEntry _ _ _).
Qed.

Lemma linkChild_frame (ownerModel childModel : Model) (payload : obj) (m : mem) :
  let after := (linkChild ownerModel childModel payload m).2 in
  collections (db after) = collections (db m)
  ∧ _id (childObject after) = _id (childObject m)
  ∧ ownerObject after = ownerObject m.
Proof.
  unfold linkChild.
  unfold mbind, M_bind, get, lift, setChild, setDb, throw. simpl.
  destruct (includeAs _) as [name|]; simpl; [|done].
  destruct (fields (childObject m) !! name) as [[v|childArray]|]; simpl;
    [by destruct (falsy v)| |done].
  destruct (duplicateIndexOf _ _ _) as [[i|]|]; simpl; [done| |done].
  match goal with |- context [pushEntry ?a ?e ?s] =>
    pose proof (pushEntry_collections a e s); by destruct (pushEntry a e s) end.
Qed.

Lemma linkManyMany_frame (ownerModel childModel : Model)
    (childId associationName : string) (m : mem) :
  let after := (linkManyMany ownerModel childModel childId associationName m).2 in
  collections (db after) = collections (db m)
  ∧ _id (childObject after) = _id (childObject m)
  ∧ _id (ownerObject after) = _id (ownerObject m).
Proof.
  intros after. subst after.
  destruct (linkManyMany ownerModel childModel childId associationName m)
    as [r m'] eqn:H. simpl.
  unfold linkManyMany in H.
  unfold mbind at 1 2 3 4 5, M_bind, get, lift, writeThrough, setPayloadArray in H.
  simpl in H.
  destruct (selectPayload _ _) as [[[payload extraFields] slot]|]; simpl in H;
    [|by simplify_eq].
  match type of H with context [linkOwner ?a ?b ?c ?d ?e ?f ?m1] =>
    pose proof (linkOwner_frame a b c d e f m1) as (Ho1 & Ho2 & Ho3);
    destruct (linkOwner a b c d e f m1) as [[payload'|] m2] end;
    simpl in *; [|simplify_eq; split_and!; congruence].
  pose proof (linkChild_frame ownerModel childModel payload' m2) as (Hc1 & Hc2 & Hc3).
  rewrite H in Hc1, Hc2, Hc3. simpl in *.
  split; [congruence|]. split; congruence.
Qed.

Lemma save_rejected (m : Model) (d : document) (st : store) (r : reason) :
  (save m d st).1 = Rejected r → collections (save m d st).2 = collections st.
Proof. unfold save. by destruct (save_faults st) as [|[|] faults]. Qed.

Lemma save_collections (m : Model) (d : document) (st : store) (k : string * string) :
  k ≠ (modelName m, _id d) →
  collections (save m d st).2 !! k = collections st !! k.
Proof.
  intros Hk. unfold save.
  destruct (save_faults st) as [|[|] faults]; simpl; by rewrite ?lookup_insert_ne.
Qed.

(** A link that is rejected has written nothing but, at most, the document
    of its child. *)
Lemma setAssociation_rejected (ownerModel childModel : Model) (o : document)
    (childId associationName : string) (p : Payload) (st : store) (r : reason) :
  let link := _setAssociation ownerModel o childModel childId associationName p st in
  link.1 = Rejected r →
  (∀ d, findOne childModel childId st = Some d → _id d = childId) →
  ∀ k, k ≠ (modelName childModel, childId) →
       collections link.2.2 !! k = collections st !! k.
Proof.
  intros link. subst link.
  destruct (_setAssociation _ _ _ _ _ _ _) as [promise [[o' p'] st']] eqn:H.
  simpl. intros -> Hid k Hk.
  unfold _setAssociation in H.
  destruct (findOne childModel childId st) as [c|] eqn:Hfound; [|by simplify_eq].
  specialize (Hid c eq_refl). subst childId.
  destruct (lookupAssociation ownerModel associationName) as [a|];
    [|by simplify_eq].
  destruct (type a =? "ONE_MANY").
  { match type of H with context [save ?m ?d ?s] =>
      pose proof (save_collections m d s k) as Hsave;
      destruct (save m d s) as [promise st1] end.
    simplify_eq. simpl in *. by apply Hsave. }
  destruct (type a =? "MANY_MANY"); [|by simplify_eq].
  match type of H with context [linkManyMany ?a ?b ?c ?d ?m] =>
    pose proof (linkManyMany_frame a b c d m) as (Hl1 & Hl2 & Hl3);
    destruct (linkManyMany a b c d m) as [[[]|e] m'] end; simpl in *;
    [|simplify_eq; by rewrite Hl1].
  pose proof (save_rejected ownerModel (ownerObject m') (db m')) as Hfirst.
  destruct (save ownerModel (ownerObject m') (db m')) as [first st1].
  pose proof (save_collections childModel (childObject m') st1 k) as Hsecond.
  destruct (save childModel (childObject m') st1) as [second st2].
  unfold Q_all in H. simplify_eq. simpl in *.
  rewrite Hsecond, (Hfirst r eq_refl), Hl1; [done|]. by rewrite Hl2.
Qed.

(** *** The chain of links of [_addMany] *)

Lemma promise_chain_app (ownerModel childModel : Model) (o : document)
    (l1 l2 : list (option string)) (associationName : string) (p : Payload)
    (st : store) :
  promise_chain ownerModel o childModel (l1 ++ l2) associationName p st
  = match promise_chain ownerModel o childModel l1 associationName p st with
    | (Resolved _, (o1, p1, st1)) =>
        promise_chain ownerModel o1 childModel l2 associationName p1 st1
    | other => other
    end.
Proof.
  revert o p st. induction l1 as [|c l1 IH]; intros o p st; simpl; [done|].
  destruct (promise_link _ _ _ _ _ _ _) as [[[]|r|] [[o1 p1] st1]]; [|done..].
  apply IH.
Qed.

(** *** Saves that fail *)

(** [_removeOne] reports nothing of the removal: whenever the owner is
    found its promise is resolved, with [undefined]. *)
Lemma removeOne_reports_no_failure (ownerModel childModel : Model)
    (ownerId childId associationName : string) (st : store) :
  (_removeOne ownerModel ownerId childModel childId associationName st).1
  = match findOne ownerModel ownerId st with
    | Some _ => Resolved VUndefined
    | None => Rejected (Handled NOT_FOUND "No owner resource was found with that id.")
    end.
Proof.
  unfold _removeOne. destruct (findOne ownerModel ownerId st) as [o|]; [|done].
  by destruct (_removeAssociation _ _ _ _ _ _) as [promise [o' st']].
Qed.

(** C9 (the code departs from it): [addOne] and [removeOne] are to report a
    failure when the save of the owner or of the child fails. [addOne]
    whose child save fails is resolved with [true], while the same link
    whose owner save fails is rejected: [Q.all] is given the two saves as
    two arguments and waits for the first. [removeOne] is resolved whenever
    the owner is found, also when its [_removeAssociation] is rejected for a
    save that failed: the promise of [_removeAssociation] is not returned. *)
Theorem failed_save_is_reported_as_success :
  (∀ ownerModel ownerId childModel childId associationName st,
     (_removeOne ownerModel ownerId childModel childId associationName st).1
     = match findOne ownerModel ownerId st with
       | Some _ => Resolved VUndefined
       | None =>
           Rejected (Handled NOT_FOUND "No owner resource was found with that id.")
       end)
  ∧ (_addOne userModel "u1" roleModel "r1" "roles" (Some level3)
       (unlinked [false; true])).1
    = Resolved (VBool true)
  ∧ (_addOne userModel "u1" roleModel "r1" "roles" (Some level3)
       (unlinked [true; false])).1
    = Rejected (Handled GATEWAY_TIMEOUT
                  "There was a database error while setting the association.")
  ∧ (_removeAssociation userModel (user "u1" [ownerEntry]) roleModel "r1" "roles"
       (linked [true; false])).1
    = Rejected (SaveFailed "user" "u1")
  ∧ (_removeOne userModel "u1" roleModel "r1" "roles" (linked [true; false])).1
    = Resolved VUndefined.
Proof.
  split.
  - intros. apply removeOne_reports_no_failure.
  - repeat split; vm_compute; reflexivity.
Qed.

(** C2 (the code departs from it): after a successful [addOne] both sides
    are to hold an entry for the pair, after a successful [removeOne]
    neither. With a child save that fails both operations are resolved and
    leave the entry on one side: [addOne] on the owner, [removeOne] on the
    child. *)
Theorem success_leaves_entry_on_one_side :
  let added := _addOne userModel "u1" roleModel "r1" "roles" (Some level3)
                 (unlinked [false; true]) in
  let removed := _removeOne userModel "u1" roleModel "r1" "roles"
                   (linked [false; true]) in
  added.1 = Resolved (VBool true)
  ∧ storedArray added.2 userModel "u1" "roles" = Some [ownerEntry]
  ∧ storedArray added.2 roleModel "r1" "users" = Some []
  ∧ removed.1 = Resolved VUndefined
  ∧ storedArray removed.2 userModel "u1" "roles" = Some []
  ∧ storedArray removed.2 roleModel "r1" "users" = Some [childEntry].
Proof. repeat split; vm_compute; reflexivity. Qed.

(** Without a failing save the two operations leave both sides alike. *)
Example addOne_then_removeOne :
  let added := _addOne userModel "u1" roleModel "r1" "roles" (Some level3)
                 (unlinked []) in
  let removed := _removeOne userModel "u1" roleModel "r1" "roles" added.2 in
  added.1 = Resolved (VBool true)
  ∧ storedArray added.2 userModel "u1" "roles" = Some [ownerEntry]
  ∧ storedArray added.2 roleModel "r1" "users" = Some [childEntry]
  ∧ storedArray removed.2 userModel "u1" "roles" = Some []
  ∧ storedArray removed.2 roleModel "r1" "users" = Some [].
Proof. repeat split; vm_compute; reflexivity. Qed.


(** *** Linking one pair twice *)

Lemma holds_storedArray (st : store) (m : Model) (id name key : string)
    (d : document) (array : list obj) :
  holds st m id name key d array → storedArray st m id name = Some array.
Proof.
  intros [Hfound _ Harray _]. unfold storedArray. rewrite Hfound. simpl.
  by rewrite Harray.
Qed.

Lemma length_one {A : Type} (l : list A) : length l = 1%nat → ∃ x, l = [x].
Proof. destruct l as [|x [|y l]]; try discriminate. eauto. Qed.

(** The entry that a link leaves for the pair carries the fields of the
    payload. *)
Lemma upsert_entry_fields (key id : string) (payload : obj) (n : nat)
    (array : list obj) (entry : obj) (rest : list obj) :
  toString <$> payload !! key = Some id →
  entriesFor key id (upsert key id true payload n array) = entry :: rest →
  ∀ k, k ≠ "_id" → entry !! k = payload !! k.
Proof.
  intros Hpayload. unfold upsert, entriesFor.
  destruct (list_find _ array) as [[i existing]|] eqn:Hfind.
  - destruct (list_find_filter_cons _ _ _ _ Hfind) as [rest' Hfilter].
    rewrite (filter_insert_inside _ _ _ existing _ rest' Hfind); [|
      |done].
    + intros [= <- _] k Hk. by apply retainId_other.
    + apply list_find_Some in Hfind as (_ & Hexisting & _).
      apply linksTo_reference in Hexisting.
      by apply linksTo_reference, retainId_reference.
  - apply list_find_filter_nil in Hfind.
    rewrite filter_app, Hfind, filter_cons_True
      by (by apply linksTo_reference, stored_entry_reference).
    intros [= <- _] k Hk. by apply stored_entry_other.
Qed.

(** C7: on a MANY_MANY association whose pair has at most one entry on each
    side, and without a failing save, two calls of [addOne] with the same
    extra fields are both resolved with [true]. After the second call the
    association arrays of the owner and of the child are what they were after
    the first: each holds exactly one entry for the pair, so with the [_id]
    that it had after the first call, and that entry carries the extra
    fields. *)
Theorem addOne_twice_keeps_one_entry (ownerModel childModel : Model)
    (ownerId childId associationName childAssociationName : string)
    (o c : document) (oa ca : list obj) (extra : option obj) (st : store) :
  manyMany ownerModel childModel associationName childAssociationName →
  holds st ownerModel ownerId associationName (modelName childModel) o oa →
  holds st childModel childId childAssociationName (modelName ownerModel) c ca →
  (modelName ownerModel, ownerId) ≠ (modelName childModel, childId) →
  (length (entriesFor (modelName childModel) childId oa) ≤ 1)%nat →
  (length (entriesFor (modelName ownerModel) ownerId ca) ≤ 1)%nat →
  faultless st →
  let first :=
    _addOne ownerModel ownerId childModel childId associationName extra st in
  let second :=
    _addOne ownerModel ownerId childModel childId associationName extra first.2 in
  first.1 = Resolved (VBool true)
  ∧ second.1 = Resolved (VBool true)
  ∧ ∃ oa' ca' entry reciprocal,
      storedArray first.2 ownerModel ownerId associationName = Some oa'
      ∧ storedArray second.2 ownerModel ownerId associationName = Some oa'
      ∧ entriesFor (modelName childModel) childId oa' = [entry]
      ∧ storedArray first.2 childModel childId childAssociationName = Some ca'
      ∧ storedArray second.2 childModel childId childAssociationName = Some ca'
      ∧ entriesFor (modelName ownerModel) ownerId ca' = [reciprocal]
      ∧ (∀ k, k ≠ "_id" → k ≠ "childId" → k ≠ modelName childModel →
              entry !! k = default ∅ extra !! k).
Proof.
  intros Hmm Howner Hchild Hkeys Hone_owner Hone_child Hfaultless first second.
  destruct (addOne_links ownerModel childModel ownerId childId associationName
              childAssociationName o c oa ca extra st
              Hmm Howner Hchild Hkeys Hfaultless)
    as (n1 & n1' & st1 & Hfirst & Howner1 & Hchild1 & Hfaultless1).
  simpl in Hfirst, Howner1, Hchild1.
  set (ownerPayload :=
         <[modelName childModel := JStr childId]> (delete "childId" (default ∅ extra)))
    in *.
  set (childPayload :=
         <[modelName ownerModel := JStr ownerId]>
           (delete (modelName childModel) (delete "_id" ownerPayload))) in *.
  set (oa1 := upsert (modelName childModel) childId true ownerPayload n1 oa) in *.
  set (ca1 := upsert (modelName ownerModel) ownerId true childPayload n1' ca) in *.
  assert (toString <$> ownerPayload !! modelName childModel = Some childId)
    as Hownerref by (unfold ownerPayload; by rewrite lookup_insert_eq).
  assert (toString <$> childPayload !! modelName ownerModel = Some ownerId)
    as Hchildref by (unfold childPayload; by rewrite lookup_insert_eq).
  destruct (addOne_links ownerModel childModel ownerId childId associationName
              childAssociationName _ _ oa1 ca1 extra st1
              Hmm Howner1 Hchild1 Hkeys Hfaultless1)
    as (n2 & n2' & st2 & Hsecond & Howner2 & Hchild2 & _).
  simpl in Hsecond, Howner2, Hchild2.
  fold ownerPayload childPayload in Hsecond, Howner2, Hchild2.
  unfold oa1 in Howner2 at 2 3. unfold ca1 in Hchild2 at 2 3.
  rewrite upsert_idempotent in Howner2, Hchild2 by done.
  fold oa1 in Howner2. fold ca1 in Hchild2.
  subst first second. rewrite Hfirst. simpl. rewrite Hsecond. simpl.
  split; [done|]. split; [done|].
  destruct (length_one (entriesFor (modelName childModel) childId oa1))
    as [entry Hentry]; [by apply upsert_single|].
  destruct (length_one (entriesFor (modelName ownerModel) ownerId ca1))
    as [reciprocal Hreciprocal]; [by apply upsert_single|].
  exists oa1, ca1, entry, reciprocal.
  repeat split; eauto using holds_storedArray.
  intros k Hk1 Hk2 Hk3.
  rewrite (upsert_entry_fields _ _ _ _ _ _ _ Hownerref Hentry k Hk1).
  unfold ownerPayload. by rewrite lookup_insert_ne, lookup_delete_ne.
Qed.

Lemma manyMany_users_roles : manyMany userModel roleModel "roles" "users".
Proof. split; eexists; split; reflexivity. Qed.

Lemma holds_unlinked_user (faults : list bool) :
  holds (unlinked faults) userModel "u1" "roles" "role" (user "u1" []) [].
Proof. split; [reflexivity..|constructor]. Qed.

Lemma holds_unlinked_role (faults : list bool) (id : string) :
  id = "r1" ∨ id = "r2" →
  holds (unlinked faults) roleModel id "users" "user" (role id []) [].
Proof. intros [-> | ->]; (split; [reflexivity..|constructor]). Qed.

Lemma addOne_twice_keeps_one_entry_witness :
  (manyMany userModel roleModel "roles" "users"
   ∧ holds (unlinked []) userModel "u1" "roles" "role" (user "u1" []) []
   ∧ holds (unlinked []) roleModel "r1" "users" "user" (role "r1" []) []
   ∧ ("user", "u1") ≠ ("role", "r1")
   ∧ faultless (unlinked []))
  ∧ let first := _addOne userModel "u1" roleModel "r1" "roles" (Some level3)
                   (unlinked []) in
    let second := _addOne userModel "u1" roleModel "r1" "roles" (Some level3)
                    first.2 in
    first.1 = Resolved (VBool true)
    ∧ second.1 = Resolved (VBool true)
    ∧ ∃ oa' ca' entry reciprocal,
        storedArray first.2 userModel "u1" "roles" = Some oa'
        ∧ storedArray second.2 userModel "u1" "roles" = Some oa'
        ∧ entriesFor "role" "r1" oa' = [entry]
        ∧ storedArray first.2 roleModel "r1" "users" = Some ca'
        ∧ storedArray second.2 roleModel "r1" "users" = Some ca'
        ∧ entriesFor "user" "u1" ca' = [reciprocal]
        ∧ (∀ k, k ≠ "_id" → k ≠ "childId" → k ≠ "role" →
                entry !! k = default ∅ (Some level3) !! k).
Proof.
  assert (manyMany userModel roleModel "roles" "users") as Hmm
    by exact manyMany_users_roles.
  assert (holds (unlinked []) userModel "u1" "roles" "role" (user "u1" []) [])
    as Howner by exact (holds_unlinked_user []).
  assert (holds (unlinked []) roleModel "r1" "users" "user" (role "r1" []) [])
    as Hchild by (apply holds_unlinked_role; by left).
  assert (("user", "u1") ≠ ("role", "r1")) as Hkeys by discriminate.
  assert (faultless (unlinked [])) as Hfaultless by constructor.
  split; [done|].
  apply (addOne_twice_keeps_one_entry userModel roleModel "u1" "r1" "roles" "users"
           (user "u1" []) (role "r1" []) [] [] (Some level3) (unlinked [])
           Hmm Howner Hchild Hkeys); [simpl; lia | simpl; lia | exact Hfaultless].
Defined.

(** *** [_addMany] *)

Lemma childIdsOf_cases (p : Payload) :
  childIdsOf p
  = match p with
    | Ids ids => Some <$> ids
    | Records records => childIdOf <$> records
    end.
Proof. by destruct p as [[|id ids]|records]. Qed.

(** Every child that the payload names has its payload object. *)
Lemma childIdsOf_selectPayload (p : Payload) (childId : string) :
  Some childId ∈ childIdsOf p →
  ∃ pl ef slot, selectPayload p childId = Ok (pl, ef, slot).
Proof.
  rewrite childIdsOf_cases. unfold selectPayload.
  destruct p as [[|id ids]|records]; simpl.
  - by intros ?%elem_of_nil.
  - eauto.
  - intros (record & Hid & Hrecord)%list_elem_of_fmap.
    assert (record !! "childId" = Some (JStr childId)) as Hchild.
    { unfold childIdOf in Hid. by repeat case_match; simplify_eq. }
    destruct (list_find_elem_of
                (fun object => object !! "childId" = Some (JStr childId))
                records record Hrecord Hchild) as [[i r] ->].
    eauto.
Qed.

(** The chain stops at the first link that is rejected: the promise of
    [_addMany] is left pending, and the store is as that link left it. *)
Lemma addMany_stops (ownerModel childModel : Model)
    (ownerId associationName : string) (p : Payload) (st : store) (o : document)
    (pre post : list (option string)) (c : string)
    (o1 : document) (p1 : Payload) (st1 : store) (r : reason) :
  findOne ownerModel ownerId st = Some o →
  childIdsOf p = (pre ++ Some c :: post)%list →
  promise_chain ownerModel o childModel pre associationName p st
  = (Resolved (), (o1, p1, st1)) →
  (_setAssociation ownerModel o1 childModel c associationName p1 st1).1
  = Rejected r →
  (∀ d, findOne childModel c st1 = Some d → _id d = c) →
  ∃ st2,
    _addMany ownerModel ownerId childModel associationName p st = (Pending, st2)
    ∧ ∀ k, k ≠ (modelName childModel, c) →
           collections st2 !! k = collections st1 !! k.
Proof.
  intros Hfound Hids Hpre Hrejected Hid.
  pose proof (setAssociation_rejected ownerModel childModel o1 c associationName
                p1 st1 r Hrejected Hid) as Hframe.
  unfold _addMany. rewrite Hfound, Hids, promise_chain_app, Hpre. simpl.
  destruct (_setAssociation ownerModel o1 childModel c associationName p1 st1)
    as [promise [[o2 p2] st2]].
  simpl in *. subst promise. eauto.
Qed.

(** Two new children are linked one after the other. *)
Lemma addMany_two (ownerModel childModel : Model)
    (ownerId associationName childAssociationName x y : string)
    (p : Payload) (st : store) (o cx cy : document) (oa cax cay : list obj) :
  manyMany ownerModel childModel associationName childAssociationName →
  holds st ownerModel ownerId associationName (modelName childModel) o oa →
  holds st childModel x childAssociationName (modelName ownerModel) cx cax →
  holds st childModel y childAssociationName (modelName ownerModel) cy cay →
  x ≠ y →
  (modelName ownerModel, ownerId) ≠ (modelName childModel, x) →
  (modelName ownerModel, ownerId) ≠ (modelName childModel, y) →
  entriesFor (modelName childModel) x oa = [] →
  entriesFor (modelName childModel) y oa = [] →
  faultless st →
  childIdsOf p = [Some x; Some y] →
  ∃ st' ex ey,
    _addMany ownerModel ownerId childModel associationName p st
    = (Resolved (VBool true), st')
    ∧ storedArray st' ownerModel ownerId associationName = Some (oa ++ [ex; ey])%list
    ∧ toString <$> ex !! modelName childModel = Some x
    ∧ toString <$> ey !! modelName childModel = Some y
    ∧ entriesFor (modelName childModel) x (oa ++ [ex; ey])%list = [ex]
    ∧ entriesFor (modelName childModel) y (oa ++ [ex; ey])%list = [ey].
Proof.
  intros Hmm [Hfo Ho Hoa Hkoa] Hx Hy Hxy Hkx Hky Hnox Hnoy Hfaultless Hids.
  destruct (childIdsOf_selectPayload p x) as (plx & efx & slotx & Hselx);
    [rewrite Hids; set_solver|].
  destruct (childIdsOf_selectPayload p y) as (ply & efy & sloty & Hsely);
    [rewrite Hids; set_solver|].
  subst ownerId.
  (* the link of [x] *)
  destruct (setAssociation_links ownerModel childModel associationName
              childAssociationName x o cx oa cax p plx efx slotx st
              Hmm Hoa Hkoa Hx Hkx Hselx Hfaultless)
    as (n1 & n1' & p1 & st1 & Hset1 & Ho1 & _ & Hother1 & Hfaultless1 & Hp1).
  simpl in Hset1, Ho1.
  set (px := <[modelName childModel := JStr x]> plx) in *.
  assert (toString <$> px !! modelName childModel = Some x) as Hpx
    by (unfold px; by rewrite lookup_insert_eq).
  rewrite upsert_appends in Hset1, Ho1 by done.
  set (ex := stored_entry px n1) in *.
  set (o1 := setField o associationName (FArr (oa ++ [ex]))) in *.
  assert (toString <$> ex !! modelName childModel = Some x) as Hex
    by by apply stored_entry_reference.
  assert (holds st1 childModel y childAssociationName (modelName ownerModel) cy cay)
    as Hy1.
  { destruct Hy as [Hfy ? ? ?]. split; [|done..].
    unfold findOne in *. rewrite Hother1; [done|congruence|congruence]. }
  (* the link of [y] *)
  destruct Ho1 as [_ _ Hoa1 Hkoa1].
  destruct (setAssociation_links ownerModel childModel associationName
              childAssociationName y o1 cy (oa ++ [ex]) cay p1 ply efy sloty st1
              Hmm Hoa1 Hkoa1 Hy1 Hky)
    as (n2 & n2' & p2 & st2 & Hset2 & Ho2 & _ & _ & _ & _);
    [by rewrite Hp1|done|].
  simpl in Hset2, Ho2.
  set (py := <[modelName childModel := JStr y]> ply) in *.
  assert (toString <$> py !! modelName childModel = Some y) as Hpy
    by (unfold py; by rewrite lookup_insert_eq).
  assert (entriesFor (modelName childModel) y (oa ++ [ex]) = []) as Hnoy1.
  { unfold entriesFor in *. rewrite filter_app, Hnoy, filter_cons_False; [done|].
    by apply (linksTo_other _ x). }
  rewrite upsert_appends in Hset2, Ho2 by done.
  set (ey := stored_entry py n2) in *.
  assert (toString <$> ey !! modelName childModel = Some y) as Hey
    by by apply stored_entry_reference.
  rewrite <-(assoc_L (++)) in Hset2, Ho2. simpl in Hset2, Ho2.
  exists st2, ex, ey.
  split.
  { unfold _addMany. rewrite Hfo, Hids. simpl. by rewrite Hset1, Hset2. }
  split; [by eapply holds_storedArray|].
  split; [done|]. split; [done|].
  unfold entriesFor in *. rewrite !filter_app, Hnox, Hnoy. simpl.
  split.
  - rewrite filter_cons_True by by apply linksTo_reference.
    rewrite filter_cons_False; [done|]. by apply (linksTo_other _ y).
  - rewrite filter_cons_False by by apply (linksTo_other _ x).
    by rewrite filter_cons_True by by apply linksTo_reference.
Qed.

(** Records with extra fields: each child gets the entry made of its own
    record. *)
Example addMany_records :
  let added :=
    _addMany userModel "u1" roleModel "roles"
      (Records [ {[ "childId" := JStr "r1"; "level" := JNum 1 ]};
                 {[ "childId" := JStr "r2"; "level" := JNum 2 ]} ])
      (unlinked []) in
  added.1 = Resolved (VBool true)
  ∧ storedArray added.2 userModel "u1" "roles"
    = Some [ {[ "_id" := JOid 0; "role" := JStr "r1"; "level" := JNum 1 ]};
             {[ "_id" := JOid 2; "role" := JStr "r2"; "level" := JNum 2 ]} ]
  ∧ storedArray added.2 roleModel "r1" "users"
    = Some [ {[ "_id" := JOid 1; "user" := JStr "u1"; "level" := JNum 1 ]} ]
  ∧ storedArray added.2 roleModel "r2" "users"
    = Some [ {[ "_id" := JOid 3; "user" := JStr "u1"; "level" := JNum 2 ]} ].
Proof. repeat split; vm_compute; reflexivity. Qed.

(** *** [_setAssociation] with a child save that fails *)

(** The save of the owner succeeds and the save of the child fails: the
    link is resolved all the same, the owner is stored with the entry, the
    child is stored as it was. *)
Lemma setAssociation_child_save_lost (ownerModel childModel : Model)
    (associationName childAssociationName childId : string)
    (o c : document) (oa ca : list obj) (p : Payload) (pl : obj) (ef : bool)
    (slot : option nat) (st : store) (faults : list bool) :
  manyMany ownerModel childModel associationName childAssociationName →
  fields o !! associationName = Some (FArr oa) →
  keyed (modelName childModel) oa →
  holds st childModel childId childAssociationName (modelName ownerModel) c ca →
  (modelName ownerModel, _id o) ≠ (modelName childModel, childId) →
  selectPayload p childId = Ok (pl, ef, slot) →
  save_faults st = false :: true :: faults →
  let ownerPayload := <[modelName childModel := JStr childId]> pl in
  ∃ n p' st',
    let oa' := upsert (modelName childModel) childId ef ownerPayload n oa in
    _setAssociation ownerModel o childModel childId associationName p st
    = (Resolved (), (setField o associationName (FArr oa'), p', st'))
    ∧ holds st' ownerModel (_id o) associationName (modelName childModel)
        (setField o associationName (FArr oa')) oa'
    ∧ holds st' childModel childId childAssociationName (modelName ownerModel) c ca
    ∧ (∀ k, k ≠ (modelName ownerModel, _id o) →
          collections st' !! k = collections st !! k)
    ∧ save_faults st' = faults
    ∧ ∀ y, y ≠ childId → selectPayload p' y = selectPayload p y.
Proof.
  intros Hmm Hoa Hkoa [Hfound Hc Hca Hkca] Hkeys Hsel Hfaults ownerPayload.
  destruct (linkManyMany_links ownerModel childModel associationName
              childAssociationName childId o c oa ca p pl ef slot st
              Hmm Hc Hoa Hkoa Hca Hkca Hsel)
    as (n & n' & p' & st1 & Hlink & Hst1 & Hf1 & Hp').
  fold ownerPayload in Hlink.
  exists n, p'.
  set (oa' := upsert (modelName childModel) childId ef ownerPayload n oa) in *.
  destruct Hmm as [(a & Ha & Htype) _].
  eexists. simpl. split.
  { unfold _setAssociation. rewrite Hfound, Ha, Htype. simpl.
    rewrite Hlink. simpl. unfold save. simpl. rewrite Hf1, Hfaults. simpl.
    reflexivity. }
  assert (keyed (modelName childModel) oa') as Hkoa'.
  { apply upsert_keyed; [|done]. unfold ownerPayload.
    by rewrite lookup_insert_eq. }
  split; [|split; [|split; [|split; [done|done]]]].
  - apply holds_setField; [|done]. unfold findOne. simpl.
    by rewrite lookup_insert_eq.
  - split; [|done..]. unfold findOne in *. simpl.
    by rewrite lookup_insert_ne, Hst1 by done.
  - intros k Hk. simpl. by rewrite lookup_insert_ne, Hst1 by done.
Qed.

(** Two new children, the save of the first child fails: [_addMany] goes
    on, links the second child and is resolved with [true]; the owner has
    the two entries, the first child none. *)
Lemma addMany_child_save_lost (ownerModel childModel : Model)
    (ownerId associationName childAssociationName x y : string)
    (p : Payload) (st : store) (o cx cy : document) (oa cax cay : list obj)
    (faults : list bool) :
  manyMany ownerModel childModel associationName childAssociationName →
  holds st ownerModel ownerId associationName (modelName childModel) o oa →
  holds st childModel x childAssociationName (modelName ownerModel) cx cax →
  holds st childModel y childAssociationName (modelName ownerModel) cy cay →
  x ≠ y →
  (modelName ownerModel, ownerId) ≠ (modelName childModel, x) →
  (modelName ownerModel, ownerId) ≠ (modelName childModel, y) →
  entriesFor (modelName childModel) x oa = [] →
  entriesFor (modelName childModel) y oa = [] →
  entriesFor (modelName ownerModel) ownerId cay = [] →
  save_faults st = false :: true :: faults →
  Forall (fun fault => fault = false) faults →
  childIdsOf p = [Some x; Some y] →
  ∃ st' ex ey ey',
    _addMany ownerModel ownerId childModel associationName p st
    = (Resolved (VBool true), st')
    ∧ storedArray st' ownerModel ownerId associationName = Some (oa ++ [ex; ey])%list
    ∧ toString <$> ex !! modelName childModel = Some x
    ∧ toString <$> ey !! modelName childModel = Some y
    ∧ findOne childModel x st' = Some cx
    ∧ storedArray st' childModel y childAssociationName = Some (cay ++ [ey'])%list
    ∧ toString <$> ey' !! modelName ownerModel = Some ownerId.
Proof.
  intros Hmm [Hfo Ho Hoa Hkoa] Hx Hy Hxy Hkx Hky Hnox Hnoy Hnoo Hfaults Hrest Hids.
  destruct (childIdsOf_selectPayload p x) as (plx & efx & slotx & Hselx);
    [rewrite Hids; set_solver|].
  destruct (childIdsOf_selectPayload p y) as (ply & efy & sloty & Hsely);
    [rewrite Hids; set_solver|].
  subst ownerId.
  (* the link of [x] *)
  destruct (setAssociation_child_save_lost ownerModel childModel associationName
              childAssociationName x o cx oa cax p plx efx slotx st faults
              Hmm Hoa Hkoa Hx Hkx Hselx Hfaults)
    as (n1 & p1 & st1 & Hset1 & Ho1 & Hx1 & Hother1 & Hfaults1 & Hp1).
  simpl in Hset1, Ho1.
  set (px := <[modelName childModel := JStr x]> plx) in *.
  assert (toString <$> px !! modelName childModel = Some x) as Hpx
    by (unfold px; by rewrite lookup_insert_eq).
  rewrite upsert_appends in Hset1, Ho1 by done.
  set (ex := stored_entry px n1) in *.
  set (o1 := setField o associationName (FArr (oa ++ [ex]))) in *.
  assert (toString <$> ex !! modelName childModel = Some x) as Hex
    by by apply stored_entry_reference.
  assert (holds st1 childModel y childAssociationName (modelName ownerModel) cy cay)
    as Hy1.
  { destruct Hy as [Hfy ? ? ?]. split; [|done..].
    unfold findOne in *. rewrite Hother1; [done|congruence]. }
  (* the link of [y] *)
  destruct Ho1 as [_ _ Hoa1 Hkoa1].
  destruct (setAssociation_links ownerModel childModel associationName
              childAssociationName y o1 cy (oa ++ [ex]) cay p1 ply efy sloty st1
              Hmm Hoa1 Hkoa1 Hy1 Hky)
    as (n2 & n2' & p2 & st2 & Hset2 & Ho2 & Hy2 & Hother2 & _ & _);
    [by rewrite Hp1|unfold faultless; by rewrite Hfaults1|].
  simpl in Hset2, Ho2, Hy2.
  set (py := <[modelName childModel := JStr y]> ply) in *.
  assert (toString <$> py !! modelName childModel = Some y) as Hpy
    by (unfold py; by rewrite lookup_insert_eq).
  assert (entriesFor (modelName childModel) y (oa ++ [ex]) = []) as Hnoy1.
  { unfold entriesFor in *. rewrite filter_app, Hnoy, filter_cons_False; [done|].
    by apply (linksTo_other _ x). }
  rewrite upsert_appends in Hset2, Ho2 by done.
  set (ey := stored_entry py n2) in *.
  assert (toString <$> ey !! modelName childModel = Some y) as Hey
    by by apply stored_entry_reference.
  rewrite <-(assoc_L (++)) in Hset2, Ho2. simpl in Hset2, Ho2.
  set (cpy := <[modelName ownerModel := JStr (_id o)]> _) in Hy2.
  assert (toString <$> cpy !! modelName ownerModel = Some (_id o)) as Hcpy
    by (unfold cpy; by rewrite lookup_insert_eq).
  rewrite (upsert_appends _ _ cpy) in Hy2 by done.
  exists st2, ex, ey, (stored_entry cpy n2').
  split.
  { unfold _addMany. rewrite Hfo, Hids. simpl. by rewrite Hset1, Hset2. }
  split; [by eapply holds_storedArray|].
  split; [done|]. split; [done|].
  split.
  { destruct Hx1 as [Hfx _ _ _]. unfold findOne in *.
    rewrite Hother2; [done|simpl; congruence|congruence]. }
  split; [by eapply holds_storedArray|].
  by apply stored_entry_reference.
Qed.

(** The child ids of a payload of records are the [childId] of each. *)
Lemma childIdsOf_records (records : list obj) (ids : list string) :
  Forall2 (fun record id => record !! "childId" = Some (JStr id)) records ids →
  childIdsOf (Records records) = Some <$> ids.
Proof.
  unfold childIdsOf. simpl.
  induction 1 as [|record id records ids Hid _ IH]; [done|].
  rewrite !fmap_cons, IH. unfold childIdOf. by rewrite Hid.
Qed.

Lemma childIdsOf_ids (ids : list string) : childIdsOf (Ids ids) = Some <$> ids.
Proof. by destruct ids. Qed.

(** C8 (the code departs from it): [addMany] takes the child ids from the
    payload, the ids themselves or the [childId] of each record, and links
    the children one after the other in this order, each link working on the
    owner object as the link before left it; for two new children [x] and
    [y], without a failing save, the array of the owner ends with one entry
    for [x] followed by one entry for [y]. A failed link is to leave the
    remaining children unlinked. This holds for a link that is rejected
    (the child is not found, the save of the owner fails): the promise of
    [addMany] is left pending and no further child is linked. It does not
    hold for a link whose child save fails: [Q.all] does not wait for that
    save, the link is resolved, and [addMany] goes on. For the records of
    [r1] and [r2], with the save of [r1] failing, [addMany] is resolved with
    [true], the user holds an entry for each role, [r2] holds its entry for
    the user and [r1] holds none; and so it is for any two new children. *)
Theorem addMany_goes_on_after_a_failed_child_save :
  (let added :=
     _addMany userModel "u1" roleModel "roles"
       (Records [ {[ "childId" := JStr "r1"; "level" := JNum 1 ]};
                  {[ "childId" := JStr "r2"; "level" := JNum 2 ]} ])
       (unlinked [false; true; false; false]) in
   added.1 = Resolved (VBool true)
   ∧ storedArray added.2 userModel "u1" "roles"
     = Some [ {[ "_id" := JOid 0; "role" := JStr "r1"; "level" := JNum 1 ]};
              {[ "_id" := JOid 2; "role" := JStr "r2"; "level" := JNum 2 ]} ]
   ∧ storedArray added.2 roleModel "r1" "users" = Some []
   ∧ storedArray added.2 roleModel "r2" "users"
     = Some [ {[ "_id" := JOid 3; "user" := JStr "u1"; "level" := JNum 2 ]} ])
  ∧ (∀ (ownerModel childModel : Model)
       (ownerId associationName childAssociationName x y : string)
       (p : Payload) (st : store) (o cx cy : document) (oa cax cay : list obj)
       (faults : list bool),
       manyMany ownerModel childModel associationName childAssociationName →
       holds st ownerModel ownerId associationName (modelName childModel) o oa →
       holds st childModel x childAssociationName (modelName ownerModel) cx cax →
       holds st childModel y childAssociationName (modelName ownerModel) cy cay →
       x ≠ y →
       (modelName ownerModel, ownerId) ≠ (modelName childModel, x) →
       (modelName ownerModel, ownerId) ≠ (modelName childModel, y) →
       entriesFor (modelName childModel) x oa = [] →
       entriesFor (modelName childModel) y oa = [] →
       entriesFor (modelName ownerModel) ownerId cay = [] →
       save_faults st = false :: true :: faults →
       Forall (fun fault => fault = false) faults →
       childIdsOf p = [Some x; Some y] →
       ∃ st' ex ey ey',
         _addMany ownerModel ownerId childModel associationName p st
         = (Resolved (VBool true), st')
         ∧ storedArray st' ownerModel ownerId associationName
           = Some (oa ++ [ex; ey])%list
         ∧ toString <$> ex !! modelName childModel = Some x
         ∧ toString <$> ey !! modelName childModel = Some y
         ∧ findOne childModel x st' = Some cx
         ∧ storedArray st' childModel y childAssociationName
           = Some (cay ++ [ey'])%list
         ∧ toString <$> ey' !! modelName ownerModel = Some ownerId)
  ∧ (let added :=
       _addMany userModel "u1" roleModel "roles" (Ids ["r1"; "missing"; "r2"])
         (unlinked []) in
     added.1 = Pending
     ∧ storedArray added.2 userModel "u1" "roles"
       = Some [ {[ "_id" := JOid 0; "role" := JStr "r1" ]} ]
     ∧ storedArray added.2 roleModel "r1" "users"
       = Some [ {[ "_id" := JOid 1; "user" := JStr "u1" ]} ]
     ∧ storedArray added.2 roleModel "r2" "users" = Some [])
  ∧ (∀ (ownerModel childModel : Model) (ownerId associationName : string)
       (p : Payload) (st : store) (o : document)
       (pre post : list (option string)) (c : string)
       (o1 : document) (p1 : Payload) (st1 : store) (r : reason),
       findOne ownerModel ownerId st = Some o →
       childIdsOf p = (pre ++ Some c :: post)%list →
       promise_chain ownerModel o childModel pre associationName p st
       = (Resolved (), (o1, p1, st1)) →
       (_setAssociation ownerModel o1 childModel c associationName p1 st1).1
       = Rejected r →
       (∀ d, findOne childModel c st1 = Some d → _id d = c) →
       ∃ st2,
         _addMany ownerModel ownerId childModel associationName p st = (Pending, st2)
         ∧ ∀ k, k ≠ (modelName childModel, c) →
                collections st2 !! k = collections st1 !! k)
  ∧ (∀ ids, childIdsOf (Ids ids) = Some <$> ids)
  ∧ (∀ records ids,
       Forall2 (fun record id => record !! "childId" = Some (JStr id)) records ids →
       childIdsOf (Records records) = Some <$> ids)
  ∧ (∀ (ownerModel childModel : Model)
       (ownerId associationName childAssociationName x y : string)
       (p : Payload) (st : store) (o cx cy : document) (oa cax cay : list obj),
       manyMany ownerModel childModel associationName childAssociationName →
       holds st ownerModel ownerId associationName (modelName childModel) o oa →
       holds st childModel x childAssociationName (modelName ownerModel) cx cax →
       holds st childModel y childAssociationName (modelName ownerModel) cy cay →
       x ≠ y →
       (modelName ownerModel, ownerId) ≠ (modelName childModel, x) →
       (modelName ownerModel, ownerId) ≠ (modelName childModel, y) →
       entriesFor (modelName childModel) x oa = [] →
       entriesFor (modelName childModel) y oa = [] →
       faultless st →
       childIdsOf p = [Some x; Some y] →
       ∃ st' ex ey,
         _addMany ownerModel ownerId childModel associationName p st
         = (Resolved (VBool true), st')
         ∧ storedArray st' ownerModel ownerId associationName
           = Some (oa ++ [ex; ey])%list
         ∧ toString <$> ex !! modelName childModel = Some x
         ∧ toString <$> ey !! modelName childModel = Some y
         ∧ entriesFor (modelName childModel) x (oa ++ [ex; ey])%list = [ex]
         ∧ entriesFor (modelName childModel) y (oa ++ [ex; ey])%list = [ey]).
Proof.
  split; [repeat split; vm_compute; reflexivity|].
  split; [intros; by eapply addMany_child_save_lost|].
  split; [repeat split; vm_compute; reflexivity|].
  split; [intros; by eapply addMany_stops|].
  split; [apply childIdsOf_ids|].
  split; [apply childIdsOf_records|].
  intros. by eapply addMany_two.
Qed.

End HandlerFacts.

(** * Further properties of the scope verification and its hooks *)

Module PolicyMore.
Import JS Policy PolicyWords Verdicts PolicyExamples PolicyFacts.

(** *** The verification in terms of the comparator's verdicts *)

Section Comparator.
(** The function that [internals.compareScopes] holds. *)
Variable compare : list string → list value → result bool.

Lemma verifyDocument_verdict (strict : bool) (action : string) (S : list string)
    (d : document) (a : bool) :
  verifyDocument strict compare action S d a
  = match verdictOf compare action S d with
    | Passes => (a, Ok false)
    | Refused => (false, if strict then Throw (Thrown (VBool false)) else Ok true)
    | Fails e => (a, Throw e)
    end.
Proof.
  unfold verifyDocument, verdictOf.
  destruct (document_scope d) as [p|]; [|done].
  destruct (isEmpty_object p); simpl; [done|].
  destruct (effectiveScope action p) as [[|v P]|e]; simpl; [done| |done].
  by destruct (compare S (v :: P)) as [[|]|e], strict.
Qed.

(** The comparator may throw, but not the value [false], which
    [verifyScope] keeps for its own early exit. *)
Hypothesis compare_never_throws_false :
  ∀ S P, compare S P ≠ Throw (Thrown (VBool false)).

Lemma verdictOf_never_fails_false (action : string) (S : list string)
    (d : document) :
  verdictOf compare action S d ≠ Fails (Thrown (VBool false)).
Proof.
  unfold verdictOf.
  destruct (document_scope d) as [p|]; [|done].
  destruct (isEmpty_object p); [done|].
  destruct (effectiveScope action p) as [[|v P]|e] eqn:HP; [done| |].
  - destruct (compare S (v :: P)) as [[|]|e] eqn:Hc; try done.
    intros [= ->]. by eapply compare_never_throws_false.
  - by rewrite (effectiveScope_throws _ _ _ HP).
Qed.

Lemma firstFailure_never_false (action : string) (S : list string)
    (docs : list document) :
  firstFailure compare action S docs ≠ Some (Thrown (VBool false)).
Proof.
  induction docs as [|d rest IH]; [done|]. simpl.
  pose proof (verdictOf_never_fails_false action S d) as Hd.
  destruct (verdictOf compare action S d) as [| |e]; [done..|].
  intros [= ->]. done.
Qed.

Lemma lenient_filterDocuments (action : string) (S : list string)
    (docs : list document) (a : bool) :
  match firstFailure compare action S docs with
  | Some e => ∃ a', filterDocuments false compare action S docs a = (a', Throw e)
  | None =>
      filterDocuments false compare action S docs a
      = (a && bool_decide (refusedDocuments compare action S docs = []),
         Ok (refusedDocuments compare action S docs))
  end.
Proof.
  revert a. induction docs as [|d rest IH]; intros a; simpl.
  { by rewrite andb_true_r. }
  rewrite verifyDocument_verdict. unfold refusedDocuments in *.
  destruct (verdictOf compare action S d) as [| |e] eqn:Hd; simpl.
  - rewrite filter_cons_False by (by rewrite Hd).
    specialize (IH a).
    destruct (firstFailure compare action S rest) as [e|].
    + destruct IH as [a' ->]. by eexists.
    + by rewrite IH.
  - rewrite filter_cons_True by (by rewrite Hd).
    specialize (IH false).
    destruct (firstFailure compare action S rest) as [e|].
    + destruct IH as [a' ->]. by eexists.
    + rewrite IH. simpl. by rewrite andb_false_r.
  - by eexists.
Qed.

Lemma strict_filterDocuments_verdict (action : string) (S : list string)
    (docs : list document) (a : bool) :
  filterDocuments true compare action S docs a
  = match firstObjection compare action S docs with
    | Passes => (a, Ok [])
    | Refused => (false, Throw (Thrown (VBool false)))
    | Fails e => (a, Throw e)
    end.
Proof.
  revert a. induction docs as [|d rest IH]; intros a; simpl; [done|].
  rewrite verifyDocument_verdict.
  destruct (verdictOf compare action S d) as [| |e] eqn:Hd; simpl; [|done..].
  rewrite IH. by destruct (firstObjection compare action S rest).
Qed.

Lemma firstObjection_never_fails_false (action : string) (S : list string)
    (docs : list document) :
  firstObjection compare action S docs ≠ Fails (Thrown (VBool false)).
Proof.
  induction docs as [|d rest IH]; [done|]. simpl.
  pose proof (verdictOf_never_fails_false action S d) as Hd.
  by destruct (verdictOf compare action S d) as [| |e].
Qed.

End Comparator.

Lemma compareScopes_never_throws_false (S : list string) (P : list value) :
  compareScopes S P ≠ Throw (Thrown (VBool false)).
Proof.
  destruct P as [|p P]; [done|].
  destruct (compareScopes_nonempty S p P) as [what ->]. done.
Qed.

Lemma specComparator_never_throws_false (S : list string) (P : list value) :
  specComparator S P ≠ Throw (Thrown (VBool false)).
Proof. done. Qed.

Lemma indexOf_None (l : list string) (s : string) :
  indexOf l s = None ↔ s ∉ l.
Proof.
  unfold indexOf. split.
  - destruct (list_find (fun x => x = s) l) as [[i x]|] eqn:Hfind; [done|].
    intros _ Hin. apply list_find_None in Hfind.
    rewrite Forall_forall in Hfind. by apply (Hfind s).
  - intros Hin. destruct (list_find (fun x => x = s) l) as [[i x]|] eqn:Hfind; [|done].
    apply list_find_Some in Hfind as (Hi & -> & _).
    destruct Hin. by eapply list_elem_of_lookup_2.
Qed.

Lemma NoDup_fmap_eq {A B : Type} (f : A → B) (l : list A) (x y : A) :
  NoDup (f <$> l) → x ∈ l → y ∈ l → f x = f y → x = y.
Proof.
  induction l as [|z l IH]; [by intros _ ?%elem_of_nil|].
  rewrite fmap_cons, NoDup_cons. intros [Hz Hl] Hx Hy Hf.
  apply elem_of_cons in Hx as [->|Hx]; apply elem_of_cons in Hy as [->|Hy]; auto.
  - destruct Hz. rewrite Hf. by apply list_elem_of_fmap_2.
  - destruct Hz. rewrite <- Hf. by apply list_elem_of_fmap_2.
Qed.


(** X1: in lenient mode the verification throws what the comparator throws
    on the first document it throws on; when it throws on none, the
    verification names exactly the documents whose effective scope the
    comparator refuses, in their order, and says "authorized" exactly when
    it names none. *)
Theorem lenient_verification_names_the_refused
    (compare : list string → list value → result bool)
    (docs : list document) (action : string) (S : list string) :
  (∀ S P, compare S P ≠ Throw (Thrown (VBool false))) →
  verifyScopeWith false compare docs action S
  = match firstFailure compare action S docs with
    | Some e => Throw e
    | None =>
        Ok {| authorized :=
                bool_decide (refusedDocuments compare action S docs = []);
              unauthorizedDocs := refusedDocuments compare action S docs |}
    end.
Proof.
  intros Hc. unfold verifyScopeWith.
  pose proof (lenient_filterDocuments compare action S docs true) as Hf.
  pose proof (firstFailure_never_false compare Hc action S docs) as Hnot.
  destruct (firstFailure compare action S docs) as [e|].
  - destruct Hf as [a' ->].
    destruct e as [?|v]; [done|]. by destruct v as [|[|]| | |].
  - by rewrite Hf.
Qed.

Lemma lenient_verification_names_the_refused_witness :
  verifyScope false stored "read" ["user"]
  = Throw (TypeError "Cannot read property 'reduce' of undefined")
  ∧ verifyScopeWith false specComparator stored "read" ["user"]
    = Ok {| authorized := false; unauthorizedDocs := [adminOnly "B"] |}
  ∧ verifyScopeWith false specComparator stored "read" ["admin"]
    = Ok {| authorized := true; unauthorizedDocs := [] |}.
Proof.
  split; [|split].
  - unfold verifyScope.
    rewrite (lenient_verification_names_the_refused compareScopes stored "read"
               ["user"] compareScopes_never_throws_false).
    vm_compute. reflexivity.
  - rewrite (lenient_verification_names_the_refused specComparator stored "read"
               ["user"] specComparator_never_throws_false).
    vm_compute. reflexivity.
  - rewrite (lenient_verification_names_the_refused specComparator stored "read"
               ["admin"] specComparator_never_throws_false).
    vm_compute. reflexivity.
Defined.

(** X2: a list read in lenient mode is never refused as a whole. When the
    comparator throws on a document, the exception leaves the hook; when
    it throws on none, each document whose effective scope it refuses is
    replaced by the error object at its place, and every other document is
    returned as it is. *)
Theorem lenient_list_read_redacts_the_refused
    (compare : list string → list value → result bool)
    (req : request) (docs : list document) :
  (∀ S P, compare S P ≠ Throw (Thrown (VBool false))) →
  method req = "get" →
  truthy_param (params_id req) = false →
  response_source req = Docs docs →
  NoDup (_id <$> docs) →
  enforceDocumentScopePostWith false compare req
  = match firstFailure compare "read" (credentials_scope req) docs with
    | Some e => (Uncaught e, RDocs (Document <$> docs))
    | None =>
        (Next None true,
         RDocs ((fun d =>
           if isRefused (verdictOf compare "read" (credentials_scope req) d)
           then ErrorObject "Insufficient document scope."
           else Document d) <$> docs))
    end.
Proof.
  intros Hc Hm Hid Hsrc Hnodup. unfold enforceDocumentScopePostWith.
  rewrite Hm, Hid, Hsrc. simpl. unfold verifyScopeWith.
  pose proof (lenient_filterDocuments compare "read" (credentials_scope req)
                docs true) as Hf.
  pose proof (firstFailure_never_false compare Hc "read" (credentials_scope req)
                docs) as Hnot.
  destruct (firstFailure compare "read" (credentials_scope req) docs) as [e|].
  { destruct Hf as [a' ->].
    destruct e as [?|v]; [done|]. by destruct v as [|[|]| | |]. }
  rewrite Hf. simpl.
  set (refused := refusedDocuments compare "read" (credentials_scope req) docs).
  assert (Hmember : ∀ d, d ∈ docs →
            (_id d ∈ _id <$> refused)
            ↔ isRefused (verdictOf compare "read" (credentials_scope req) d) = true).
  { intros d Hd. unfold refused, refusedDocuments. split.
    - intros (d' & Heq & Hd')%list_elem_of_fmap.
      apply list_elem_of_filter in Hd' as [Hrefused Hin].
      by assert (d = d') as -> by by eapply (NoDup_fmap_eq _id).
    - intros Hrefused. apply list_elem_of_fmap_2. by apply list_elem_of_filter. }
  destruct (bool_decide (refused = [])) eqn:Hnone; simpl; do 2 f_equal;
    apply list_fmap_ext; intros i d Hd%list_elem_of_lookup_2.
  - apply bool_decide_eq_true in Hnone.
    destruct (isRefused _) eqn:Hrefused; [|done].
    apply (Hmember d Hd) in Hrefused. rewrite Hnone in Hrefused.
    by apply elem_of_nil in Hrefused.
  - destruct (isRefused _) eqn:Hrefused.
    + rewrite bool_decide_eq_false_2; [done|]. rewrite indexOf_None.
      intros Hnot'. apply Hnot'. by apply Hmember.
    + rewrite bool_decide_eq_true_2; [done|]. apply indexOf_None.
      intros Hin%(Hmember d Hd). congruence.
Qed.

Lemma lenient_list_read_redacts_the_refused_witness :
  enforceDocumentScopePost false listRead
  = (Uncaught (TypeError "Cannot read property 'reduce' of undefined"),
     RDocs [Document (noPolicy "d1"); Document (adminOnly "d2")])
  ∧ enforceDocumentScopePostWith false specComparator listRead
    = (Next None true,
       RDocs [Document (noPolicy "d1"); ErrorObject "Insufficient document scope."]).
Proof.
  assert (Hn : NoDup (_id <$> [noPolicy "d1"; adminOnly "d2"])).
  { by apply (bool_decide_unpack _). }
  split.
  - unfold enforceDocumentScopePost.
    rewrite (lenient_list_read_redacts_the_refused compareScopes listRead
               [noPolicy "d1"; adminOnly "d2"] compareScopes_never_throws_false
               eq_refl eq_refl eq_refl Hn).
    vm_compute. reflexivity.
  - rewrite (lenient_list_read_redacts_the_refused specComparator listRead
               [noPolicy "d1"; adminOnly "d2"] specComparator_never_throws_false
               eq_refl eq_refl eq_refl Hn).
    vm_compute. reflexivity.
Defined.

(** X3: a document that restricts nothing for the action is invisible to
    the verification: with it or without it in the list, the outcome is the
    same, in both modes and whatever the comparator does. *)
Theorem unrestricted_document_is_transparent (strict : bool)
    (compare : list string → list value → result bool)
    (before after : list document) (d : document) (action : string)
    (S : list string) :
  unrestricted action d →
  verifyScopeWith strict compare (before ++ d :: after) action S
  = verifyScopeWith strict compare (before ++ after) action S.
Proof.
  intros Hd. unfold verifyScopeWith.
  rewrite !filterDocuments_app. simpl.
  destruct (filterDocuments strict compare action S before true) as [a [kept|e]];
    [|done].
  rewrite (unrestricted_verifyDocument _ _ _ _ _ _ Hd).
  by destruct (filterDocuments strict compare action S after a) as [a' [kept'|e]].
Qed.

Lemma unrestricted_document_is_transparent_witness :
  unrestricted "read" (openPolicy "O")
  ∧ verifyScope true [noPolicy "A"; openPolicy "O"; adminOnly "B"] "read" ["user"]
    = verifyScope true [noPolicy "A"; adminOnly "B"] "read" ["user"].
Proof.
  assert (H : unrestricted "read" (openPolicy "O")) by (by right).
  split; [done|].
  exact (unrestricted_document_is_transparent true compareScopes
           [noPolicy "A"] [adminOnly "B"] (openPolicy "O") "read" ["user"] H).
Defined.

Lemma find_no_document (collection : list document) (ids : list string) :
  (∀ d, d ∈ collection → _id d ∉ ids) →
  filter (fun d => bool_decide (_id d ∈ ids)) collection = [].
Proof.
  intros Hnone. induction collection as [|d rest IH]; [done|].
  rewrite filter_cons_False.
  - apply IH. intros d' Hd'. apply Hnone. by right.
  - intros Hin%bool_decide_unpack. revert Hin. apply Hnone. by left.
Qed.

Lemma verifyScopeById_no_document (strict : bool)
    (compare : list string → list value → result bool)
    (collection : list document) (ids : list string) (action : string)
    (S : list string) :
  (∀ d, d ∈ collection → _id d ∉ ids) →
  verifyScopeByIdWith strict compare collection ids action S
  = Ok {| authorized := true; unauthorizedDocs := [] |}.
Proof.
  intros Hnone. unfold verifyScopeByIdWith. by rewrite find_no_document.
Qed.

(** X4: ids that no stored document has are let through by the pre hook:
    [model.find] answers with no document, and an empty list is
    authorized, whatever the action, the mode and the comparator. The only
    other outcome is the exception of a bulk delete whose payload is no
    array. *)
Theorem pre_hook_passes_unknown_ids (strict : bool)
    (compare : list string → list value → result bool)
    (collection : list document) (req : request) :
  (∀ d, d ∈ collection →
     params_id req ≠ Some (_id d)
     ∧ params_ownerId req ≠ Some (_id d)
     ∧ ∀ items, payload req = Some items → _id d ∉ item_id <$> items) →
  enforceDocumentScopePreWith strict compare collection req = (Next None true, req)
  ∨ (payload req = None
     ∧ enforceDocumentScopePreWith strict compare collection req
       = (Uncaught (TypeError "request.payload.map is not a function"), req)).
Proof.
  intros Hnone. unfold enforceDocumentScopePreWith.
  assert (Hid : ∀ s action S, params_id req = Some s →
            verifyScopeByIdWith strict compare collection [s] action S
              = Ok {| authorized := true; unauthorizedDocs := [] |}).
  { intros s action S Hs. apply verifyScopeById_no_document.
    intros d Hd Heq%list_elem_of_singleton. destruct (Hnone d Hd) as [Hno _].
    congruence. }
  destruct (truthy_param (params_id req) && (method req =? "put")) eqn:Hput.
  { left. apply andb_prop in Hput as [Hput _].
    destruct (params_id req) as [s|] eqn:Hs; [|done]. by rewrite (Hid s). }
  destruct (truthy_param (params_ownerId req)) eqn:Howner.
  { left. destruct (params_ownerId req) as [s|] eqn:Hs; [|done].
    rewrite verifyScopeById_no_document; [done|].
    intros d Hd Heq%list_elem_of_singleton. destruct (Hnone d Hd) as (_ & Hno & _).
    simpl in Heq. congruence. }
  destruct (method req =? "delete"); [|by left].
  destruct (truthy_param (params_id req)) eqn:Hparam.
  { left. destruct (params_id req) as [s|] eqn:Hs; [|done]. by rewrite (Hid s). }
  destruct (payload req) as [items|] eqn:Hitems; [left|by right].
  rewrite verifyScopeById_no_document; [done|].
  intros d Hd. by apply (Hnone d Hd).
Qed.

Lemma pre_hook_passes_unknown_ids_witness :
  (∀ d, d ∈ [adminOnly "B"] →
     params_id bulkDeleteWithoutB ≠ Some (_id d)
     ∧ params_ownerId bulkDeleteWithoutB ≠ Some (_id d)
     ∧ ∀ items, payload bulkDeleteWithoutB = Some items → _id d ∉ item_id <$> items)
  ∧ enforceDocumentScopePre true [adminOnly "B"] bulkDeleteWithoutB
    = (Next None true, bulkDeleteWithoutB).
Proof.
  assert (H : ∀ d, d ∈ [adminOnly "B"] →
     params_id bulkDeleteWithoutB ≠ Some (_id d)
     ∧ params_ownerId bulkDeleteWithoutB ≠ Some (_id d)
     ∧ ∀ items, payload bulkDeleteWithoutB = Some items → _id d ∉ item_id <$> items).
  { intros d ->%list_elem_of_singleton. repeat split; [done..|].
    intros items [= <-]. simpl. rewrite !elem_of_cons, elem_of_nil.
    intros [|[|[]]]; discriminate. }
  split; [done|].
  destruct (pre_hook_passes_unknown_ids true compareScopes [adminOnly "B"]
              bulkDeleteWithoutB H) as [Hpass|[Hno _]]; [exact Hpass|discriminate Hno].
Defined.

(** X5: an action other than the four known ones makes [verifyScope] throw
    the string "Invalid method type." as soon as one document carries a
    policy object with a key; documents without one are still authorized. *)
Theorem unknown_action_is_thrown (strict : bool)
    (compare : list string → list value → result bool)
    (docs : list document) (action : string) (S : list string) :
  action ≠ "read" → action ≠ "update" → action ≠ "delete" → action ≠ "associate" →
  verifyScopeWith strict compare docs action S
  = if existsb (fun d => match document_scope d with
                         | Some p => negb (isEmpty_object p)
                         | None => false
                         end) docs
    then Throw (Thrown (VString "Invalid method type."))
    else Ok {| authorized := true; unauthorizedDocs := [] |}.
Proof.
  intros Hr Hu Hd Ha. unfold verifyScopeWith.
  assert (Hthrow : ∀ p, effectiveScope action p
                        = Throw (Thrown (VString "Invalid method type."))).
  { intros p. unfold effectiveScope, actionScopeOf.
    by rewrite !(proj2 (String.eqb_neq _ _)). }
  enough (Hf : filterDocuments strict compare action S docs true
               = if existsb (fun d => match document_scope d with
                                      | Some p => negb (isEmpty_object p)
                                      | None => false
                                      end) docs
                 then (true, Throw (Thrown (VString "Invalid method type.")))
                 else (true, Ok [])).
  { rewrite Hf. by destruct (existsb _ docs). }
  induction docs as [|d rest IH]; [done|]. simpl.
  unfold verifyDocument.
  destruct (document_scope d) as [p|]; simpl.
  - destruct (isEmpty_object p); simpl.
    + rewrite IH. by destruct (existsb _ rest).
    + by rewrite Hthrow.
  - rewrite IH. by destruct (existsb _ rest).
Qed.

Lemma unknown_action_is_thrown_witness :
  verifyScope false [noPolicy "A"; adminOnly "B"] "create" ["admin"]
  = Throw (Thrown (VString "Invalid method type."))
  ∧ verifyScope false [noPolicy "A"] "create" ["admin"]
  = Ok {| authorized := true; unauthorizedDocs := [] |}.
Proof.
  assert (Hr : "create" ≠ "read") by discriminate.
  assert (Hu : "create" ≠ "update") by discriminate.
  assert (Hd : "create" ≠ "delete") by discriminate.
  assert (Ha : "create" ≠ "associate") by discriminate.
  split.
  - exact (unknown_action_is_thrown false compareScopes [noPolicy "A"; adminOnly "B"]
             "create" ["admin"] Hr Hu Hd Ha).
  - exact (unknown_action_is_thrown false compareScopes [noPolicy "A"]
             "create" ["admin"] Hr Hu Hd Ha).
Defined.

(** X6: when the policy has no list for the action, a global scope that
    starts with a non-empty token is extended by the one element
    [undefined] (what [concat] does with an argument that is no array); a
    global scope that is empty or starts with the empty token is compared as
    it is. *)
Theorem effectiveScope_without_action_list (action : string) (p : ScopePolicy)
    (G : list string) :
  default [] (scope p) = G →
  actionScopeOf action p = Ok None →
  effectiveScope action p
  = Ok (match G with
        | [] => []
        | g :: _ =>
            if String.eqb g "" then VString <$> G
            else (VString <$> G) ++ [VUndefined]
        end)%list.
Proof.
  intros HG HA. unfold effectiveScope. rewrite HA, HG. simpl.
  destruct G as [|g G']; [done|]. simpl.
  by destruct g.
Qed.

Lemma effectiveScope_without_action_list_witness :
  effectiveScope "update" (globalAndRead ["staff"] ["+verified"])
  = Ok [VString "staff"; VUndefined]
  ∧ effectiveScope "update" (globalAndRead [""; "staff"] ["+verified"])
  = Ok [VString ""; VString "staff"].
Proof.
  split.
  - exact (effectiveScope_without_action_list "update"
             (globalAndRead ["staff"] ["+verified"]) ["staff"] eq_refl eq_refl).
  - exact (effectiveScope_without_action_list "update"
             (globalAndRead [""; "staff"] ["+verified"]) [""; "staff"] eq_refl eq_refl).
Defined.


(** X8: in strict mode the verification stops at the first document that
    does not pass and names no document: when the comparator refuses that
    document the answer is "not authorized", when it throws on it the
    exception is rethrown, and when every document passes the answer is
    "authorized". *)
Theorem strict_verification_refuses_without_naming
    (compare : list string → list value → result bool)
    (docs : list document) (action : string) (S : list string) :
  (∀ S P, compare S P ≠ Throw (Thrown (VBool false))) →
  verifyScopeWith true compare docs action S
  = match firstObjection compare action S docs with
    | Passes => Ok {| authorized := true; unauthorizedDocs := [] |}
    | Refused => Ok {| authorized := false; unauthorizedDocs := [] |}
    | Fails e => Throw e
    end.
Proof.
  intros Hc. unfold verifyScopeWith.
  rewrite strict_filterDocuments_verdict.
  pose proof (firstObjection_never_fails_false compare Hc action S docs) as Hnot.
  destruct (firstObjection compare action S docs) as [| |e]; [done..|].
  destruct e as [?|v]; [done|]. by destruct v as [|[|]| | |].
Qed.

Lemma strict_verification_refuses_without_naming_witness :
  verifyScope true stored "read" ["user"]
  = Throw (TypeError "Cannot read property 'reduce' of undefined")
  ∧ verifyScopeWith true specComparator stored "read" ["user"]
    = Ok {| authorized := false; unauthorizedDocs := [] |}
  ∧ verifyScopeWith true specComparator stored "read" ["admin"]
    = Ok {| authorized := true; unauthorizedDocs := [] |}.
Proof.
  split; [|split].
  - unfold verifyScope.
    rewrite (strict_verification_refuses_without_naming compareScopes stored
               "read" ["user"] compareScopes_never_throws_false).
    vm_compute. reflexivity.
  - rewrite (strict_verification_refuses_without_naming specComparator stored
               "read" ["user"] specComparator_never_throws_false).
    vm_compute. reflexivity.
  - rewrite (strict_verification_refuses_without_naming specComparator stored
               "read" ["admin"] specComparator_never_throws_false).
    vm_compute. reflexivity.
Defined.

End PolicyMore.

(** * Further properties of the association helpers *)

Module HandlerMore.
Import JS Handler Links Unlinks HandlerExamples OneManyExamples HandlerFacts.

(** *** Unlinking one side *)

Section RemoveFirst.
Variables key id : string.

Lemma removeFirst_absent (array : list obj) :
  entriesFor key id array = [] → removeFirst key id array = array.
Proof.
  intros Hnone%list_find_filter_nil. unfold removeFirst.
  by rewrite Hnone.
Qed.

Lemma filter_delete_first {A : Type} (Q : A → Prop) `{!∀ x, Decision (Q x)}
    (l : list A) (i : nat) (x : A) :
  list_find Q l = Some (i, x) → filter Q (delete i l) = tail (filter Q l).
Proof.
  intros Hfind. pose proof (filter_take_first Q l i x Hfind) as Htake.
  apply list_find_Some in Hfind as (Hi & Hx & _).
  rewrite <- (take_drop_middle l i x Hi) at 2.
  rewrite delete_take_drop, !filter_app, Htake. simpl.
  by rewrite filter_cons_True.
Qed.

Lemma filter_delete_other {A : Type} (Q : A → Prop) `{!∀ x, Decision (Q x)}
    (l : list A) (i : nat) (x : A) :
  l !! i = Some x → ¬ Q x → filter Q (delete i l) = filter Q l.
Proof.
  intros Hi Hx.
  rewrite <- (take_drop_middle l i x Hi) at 2.
  rewrite delete_take_drop, !filter_app.
  by rewrite (filter_cons_False _ _ _ Hx).
Qed.

(** Of the entries for [id] the first one goes. *)
Lemma removeFirst_entries (array : list obj) :
  entriesFor key id (removeFirst key id array) = tail (entriesFor key id array).
Proof.
  unfold removeFirst, entriesFor.
  destruct (list_find _ array) as [[i x]|] eqn:Hfind.
  - by eapply filter_delete_first.
  - apply list_find_filter_nil in Hfind. by rewrite Hfind.
Qed.

(** The entries for another document stay. *)
Lemma removeFirst_others (array : list obj) (id' : string) :
  id' ≠ id →
  entriesFor key id' (removeFirst key id array) = entriesFor key id' array.
Proof.
  intros Hne. unfold removeFirst.
  destruct (list_find _ array) as [[i x]|] eqn:Hfind; [|done].
  apply list_find_Some in Hfind as (Hi & Hx & _).
  apply (filter_delete_other _ _ _ _ Hi).
  apply linksTo_reference in Hx. by eapply linksTo_other.
Qed.

Lemma removeFirst_keyed (array : list obj) :
  keyed key array → keyed key (removeFirst key id array).
Proof.
  unfold removeFirst, keyed.
  destruct (list_find _ array) as [[i x]|]; [|done].
  intros Hk. rewrite delete_take_drop. apply Forall_app. split.
  - by apply Forall_take.
  - by apply Forall_drop.
Qed.

Lemma removeFirst_length (array : list obj) :
  length (removeFirst key id array)
  = (length array - length (take 1 (entriesFor key id array)))%nat.
Proof.
  unfold removeFirst, entriesFor.
  destruct (list_find _ array) as [[i x]|] eqn:Hfind.
  - destruct (list_find_filter_cons _ _ _ _ Hfind) as [rest ->]. simpl.
    apply list_find_Some in Hfind as (Hi & _).
    apply length_delete. by eexists.
  - apply list_find_filter_nil in Hfind. rewrite Hfind. simpl. lia.
Qed.


End RemoveFirst.

(** *** The MANY_MANY branch of [_removeAssociation] *)

Lemma unlinkManyMany_unlinks (ownerModel childModel : Model)
    (associationName childAssociationName : string)
    (o c : document) (oa ca : list obj) (p : Payload) (st : store) :
  pointsBack ownerModel childModel childAssociationName →
  fields o !! associationName = Some (FArr oa) →
  keyed (modelName childModel) oa →
  fields c !! childAssociationName = Some (FArr ca) →
  keyed (modelName ownerModel) ca →
  unlinkManyMany ownerModel childModel associationName
    {| ownerObject := o; childObject := c; payloadArray := p; db := st |}
  = (Ok (),
     {| ownerObject := setField o associationName
          (FArr (removeFirst (modelName childModel) (_id c) oa));
        childObject := setField c childAssociationName
          (FArr (removeFirst (modelName ownerModel) (_id o) ca));
        payloadArray := p;
        db := st |}).
Proof.
  intros (a & Hlast & Has) Hoa Hkoa Hca Hkca. unfold unlinkManyMany.
  unfold mbind, M_bind, mret, M_ret, get, lift, setOwner, setChild. simpl.
  unfold arrayField. rewrite Hoa. simpl.
  rewrite (duplicateIndexOf_keyed _ _ _ Hkoa). simpl.
  rewrite Hlast. unfold includeAs. simpl. rewrite Has.
  unfold removeFirst.
  destruct (list_find _ oa) as [[i d]|] eqn:Hfo; simpl;
    rewrite Hca; simpl; rewrite (duplicateIndexOf_keyed _ _ _ Hkca); simpl;
    destruct (list_find _ ca) as [[j e]|] eqn:Hfc; simpl;
    by rewrite ?(setField_same o _ _ Hoa), ?(setField_same c _ _ Hca).
Qed.

Lemma removeAssociation_unlinks (ownerModel childModel : Model)
    (associationName childAssociationName childId : string)
    (o c : document) (oa ca : list obj) (st : store) :
  (∃ a, lookupAssociation ownerModel associationName = Ok a
        ∧ type a = "MANY_MANY") →
  pointsBack ownerModel childModel childAssociationName →
  fields o !! associationName = Some (FArr oa) →
  keyed (modelName childModel) oa →
  holds st childModel childId childAssociationName (modelName ownerModel) c ca →
  faultless st →
  let o' := setField o associationName
              (FArr (removeFirst (modelName childModel) childId oa)) in
  let c' := setField c childAssociationName
              (FArr (removeFirst (modelName ownerModel) (_id o) ca)) in
  _removeAssociation ownerModel o childModel childId associationName st
  = (Resolved (),
     (o', {| collections :=
               <[(modelName childModel, childId) := c']>
                 (<[(modelName ownerModel, _id o) := o']> (collections st));
             next_oid := next_oid st;
             save_faults := tail (tail (save_faults st)) |})).
Proof.
  intros (a & Ha & Htype) Hback Hoa Hkoa [Hfound Hc Hca Hkca] Hfaultless o' c'.
  unfold _removeAssociation. rewrite Hfound, Ha, Htype. simpl.
  rewrite (unlinkManyMany_unlinks _ _ _ _ _ _ _ _ _ _ Hback Hoa Hkoa Hca Hkca).
  rewrite Hc. fold o' c'. simpl.
  destruct (save_faultless ownerModel o' st Hfaultless) as [-> Hfaultless'].
  destruct (save_faultless childModel c' _ Hfaultless') as [-> _].
  simpl. by rewrite Hc.
Qed.

(** X9: without a failing save, [_removeOne] on a MANY_MANY association
    takes the first entry of the pair out of the owner's array and out of
    the child's array. Further entries of the pair, the entries of other
    pairs and all other documents stay as they are. *)
Theorem removeOne_removes_first_entry_on_both_sides
    (ownerModel childModel : Model)
    (ownerId childId associationName childAssociationName : string)
    (o c : document) (oa ca : list obj) (st : store) :
  (∃ a, lookupAssociation ownerModel associationName = Ok a
        ∧ type a = "MANY_MANY") →
  pointsBack ownerModel childModel childAssociationName →
  holds st ownerModel ownerId associationName (modelName childModel) o oa →
  holds st childModel childId childAssociationName (modelName ownerModel) c ca →
  (modelName ownerModel, ownerId) ≠ (modelName childModel, childId) →
  faultless st →
  let removed :=
    _removeOne ownerModel ownerId childModel childId associationName st in
  removed.1 = Resolved VUndefined
  ∧ ∃ oa' ca',
      storedArray removed.2 ownerModel ownerId associationName = Some oa'
      ∧ storedArray removed.2 childModel childId childAssociationName = Some ca'
      ∧ entriesFor (modelName childModel) childId oa'
        = tail (entriesFor (modelName childModel) childId oa)
      ∧ entriesFor (modelName ownerModel) ownerId ca'
        = tail (entriesFor (modelName ownerModel) ownerId ca)
      ∧ (∀ id, id ≠ childId →
           entriesFor (modelName childModel) id oa'
           = entriesFor (modelName childModel) id oa)
      ∧ (∀ id, id ≠ ownerId →
           entriesFor (modelName ownerModel) id ca'
           = entriesFor (modelName ownerModel) id ca)
      ∧ (∀ k, k ≠ (modelName ownerModel, ownerId) →
              k ≠ (modelName childModel, childId) →
              collections removed.2 !! k = collections st !! k).
Proof.
  intros Hown Hback [Hfo Ho Hoa Hkoa] Hchild Hkeys Hfaultless removed.
  pose proof (removeAssociation_unlinks ownerModel childModel associationName
                childAssociationName childId o c oa ca st
                Hown Hback Hoa Hkoa Hchild Hfaultless) as Hrem.
  simpl in Hrem. rewrite Ho in Hrem.
  assert (Hremoved : removed
    = (Resolved VUndefined,
       {| collections :=
            <[(modelName childModel, childId) :=
                setField c childAssociationName
                  (FArr (removeFirst (modelName ownerModel) ownerId ca))]>
              (<[(modelName ownerModel, ownerId) :=
                   setField o associationName
                     (FArr (removeFirst (modelName childModel) childId oa))]>
                 (collections st));
          next_oid := next_oid st;
          save_faults := tail (tail (save_faults st)) |})).
  { unfold removed, _removeOne. by rewrite Hfo, Hrem. }
  rewrite Hremoved. simpl. split; [done|].
  exists (removeFirst (modelName childModel) childId oa),
         (removeFirst (modelName ownerModel) ownerId ca).
  repeat split.
  - unfold storedArray, findOne. simpl.
    rewrite lookup_insert_ne, lookup_insert_eq by done. simpl.
    by rewrite lookup_insert_eq.
  - unfold storedArray, findOne. simpl. rewrite lookup_insert_eq. simpl.
    by rewrite lookup_insert_eq.
  - apply removeFirst_entries.
  - apply removeFirst_entries.
  - intros id Hid. by apply removeFirst_others.
  - intros id Hid. by apply removeFirst_others.
  - intros k Hk1 Hk2. by rewrite !lookup_insert_ne.
Qed.

Lemma pointsBack_roles_users : pointsBack userModel roleModel "users".
Proof. eexists. split; reflexivity. Qed.

Lemma holds_linked_user (faults : list bool) :
  holds (linked faults) userModel "u1" "roles" "role"
    (user "u1" [ownerEntry]) [ownerEntry].
Proof.
  split; [reflexivity..|]. constructor; [|constructor]. by eexists.
Qed.

Lemma holds_linked_role (faults : list bool) :
  holds (linked faults) roleModel "r1" "users" "user"
    (role "r1" [childEntry]) [childEntry].
Proof.
  split; [reflexivity..|]. constructor; [|constructor]. by eexists.
Qed.

Lemma removeOne_removes_first_entry_on_both_sides_witness :
  let removed := _removeOne userModel "u1" roleModel "r1" "roles" (linked []) in
  removed.1 = Resolved VUndefined
  ∧ ∃ oa' ca',
      storedArray removed.2 userModel "u1" "roles" = Some oa'
      ∧ storedArray removed.2 roleModel "r1" "users" = Some ca'
      ∧ entriesFor "role" "r1" oa' = tail (entriesFor "role" "r1" [ownerEntry])
      ∧ entriesFor "user" "u1" ca' = tail (entriesFor "user" "u1" [childEntry])
      ∧ (∀ id, id ≠ "r1" →
           entriesFor "role" id oa' = entriesFor "role" id [ownerEntry])
      ∧ (∀ id, id ≠ "u1" →
           entriesFor "user" id ca' = entriesFor "user" id [childEntry])
      ∧ (∀ k, k ≠ ("user", "u1") → k ≠ ("role", "r1") →
              collections removed.2 !! k = collections (linked []) !! k).
Proof.
  assert (Hown : ∃ a, lookupAssociation userModel "roles" = Ok a
                      ∧ type a = "MANY_MANY") by (eexists; split; reflexivity).
  assert (Hkeys : (modelName userModel, "u1") ≠ (modelName roleModel, "r1"))
    by discriminate.
  assert (Hfaultless : faultless (linked [])) by constructor.
  exact (removeOne_removes_first_entry_on_both_sides userModel roleModel
           "u1" "r1" "roles" "users" _ _ _ _ (linked [])
           Hown pointsBack_roles_users (holds_linked_user []) (holds_linked_role [])
           Hkeys Hfaultless).
Defined.

(** X10: [_removeOne] for a pair that is not linked changes no document:
    no index is found on either side, the two documents are saved as they
    were, and the promise is resolved. *)
Theorem removeOne_of_unlinked_pair_changes_nothing
    (ownerModel childModel : Model)
    (ownerId childId associationName childAssociationName : string)
    (o c : document) (oa ca : list obj) (st : store) :
  (∃ a, lookupAssociation ownerModel associationName = Ok a
        ∧ type a = "MANY_MANY") →
  pointsBack ownerModel childModel childAssociationName →
  holds st ownerModel ownerId associationName (modelName childModel) o oa →
  holds st childModel childId childAssociationName (modelName ownerModel) c ca →
  entriesFor (modelName childModel) childId oa = [] →
  entriesFor (modelName ownerModel) ownerId ca = [] →
  faultless st →
  let removed :=
    _removeOne ownerModel ownerId childModel childId associationName st in
  removed.1 = Resolved VUndefined
  ∧ collections removed.2 = collections st.
Proof.
  intros Hown Hback [Hfo Ho Hoa Hkoa] Hchild Hnoo Hnoc Hfaultless removed.
  pose proof (removeAssociation_unlinks ownerModel childModel associationName
                childAssociationName childId o c oa ca st
                Hown Hback Hoa Hkoa Hchild Hfaultless) as Hrem.
  destruct Hchild as [Hfc Hc Hca Hkca].
  simpl in Hrem. rewrite Ho in Hrem.
  rewrite (removeFirst_absent _ _ _ Hnoo), (removeFirst_absent _ _ _ Hnoc) in Hrem.
  rewrite (setField_same _ _ _ Hoa), (setField_same _ _ _ Hca) in Hrem.
  unfold removed, _removeOne. rewrite Hfo, Hrem. simpl. split; [done|].
  rewrite (insert_id (collections st) (modelName ownerModel, ownerId) o) by done.
  by rewrite insert_id.
Qed.

Lemma removeOne_of_unlinked_pair_changes_nothing_witness :
  let removed := _removeOne userModel "u1" roleModel "r2" "roles" (linked []) in
  removed.1 = Resolved VUndefined
  ∧ collections removed.2 = collections (linked []).
Proof.
  assert (Hown : ∃ a, lookupAssociation userModel "roles" = Ok a
                      ∧ type a = "MANY_MANY") by (eexists; split; reflexivity).
  assert (Hchild : holds (linked []) roleModel "r2" "users" "user" (role "r2" []) [])
    by (split; [reflexivity..|constructor]).
  assert (Hfaultless : faultless (linked [])) by constructor.
  exact (removeOne_of_unlinked_pair_changes_nothing userModel roleModel
           "u1" "r2" "roles" "users" _ _ _ _ (linked [])
           Hown pointsBack_roles_users (holds_linked_user []) Hchild
           eq_refl eq_refl Hfaultless).
Defined.




(** *** ONE_MANY associations *)

(** X12: on a ONE_MANY association [_addOne] writes the owner's id under the
    foreign key of the child and saves the child, nothing else: the owner
    and the extra fields of the payload play no part, and the promise ends
    as that one save ends. *)
Theorem addOne_one_many_sets_the_foreign_key (ownerModel childModel : Model)
    (ownerId childId associationName foreignKey : string)
    (o c : document) (extra : option obj) (st : store) :
  oneMany ownerModel associationName foreignKey →
  findOne ownerModel ownerId st = Some o →
  _id o = ownerId →
  findOne childModel childId st = Some c →
  _id c = childId →
  let added :=
    _addOne ownerModel ownerId childModel childId associationName extra st in
  match save_faults st with
  | true :: _ =>
      added.1 = Rejected (Handled GATEWAY_TIMEOUT
                  "There was a database error while setting the association.")
      ∧ collections added.2 = collections st
  | _ =>
      added.1 = Resolved (VBool true)
      ∧ collections added.2
        = <[(modelName childModel, childId) :=
              setField c foreignKey (FVal (JStr ownerId))]> (collections st)
  end.
Proof.
  intros (a & Ha & Htype & Hfk) Hfo Ho Hfc Hc. simpl.
  unfold _addOne, _setAssociation. rewrite Hfo, Hfc, Ha, Htype, Hfk. simpl.
  unfold save. rewrite Ho. simpl. rewrite Hc.
  by destruct (save_faults st) as [|[|] faults].
Qed.

(** X13: on a ONE_MANY association [_removeOne] deletes the foreign key of
    the child, whatever it holds, also the id of another owner, and
    changes nothing else. *)
Theorem removeOne_one_many_clears_the_foreign_key (ownerModel childModel : Model)
    (ownerId childId associationName foreignKey : string)
    (o c : document) (st : store) :
  oneMany ownerModel associationName foreignKey →
  findOne ownerModel ownerId st = Some o →
  findOne childModel childId st = Some c →
  _id c = childId →
  faultless st →
  let removed :=
    _removeOne ownerModel ownerId childModel childId associationName st in
  removed.1 = Resolved VUndefined
  ∧ collections removed.2
    = <[(modelName childModel, childId) := deleteField c foreignKey]>
        (collections st).
Proof.
  intros (a & Ha & Htype & Hfk) Hfo Hfc Hc Hfaultless. simpl.
  unfold _removeOne, _removeAssociation. rewrite Hfo, Hfc, Ha, Htype, Hfk. simpl.
  destruct (save_faultless childModel (deleteField c foreignKey) st Hfaultless)
    as [-> _]. simpl. by rewrite Hc.
Qed.

Lemma oneMany_players : oneMany teamModel "players" "team".
Proof. eexists. repeat split; reflexivity. Qed.

Lemma addOne_one_many_sets_the_foreign_key_witness :
  (let added := _addOne teamModel "t1" playerModel "p1" "players" (Some level3)
                  (league None []) in
   added.1 = Resolved (VBool true)
   ∧ collections added.2
     = <[("player", "p1") := setField (player "p1" None) "team" (FVal (JStr "t1"))]>
         (collections (league None [])))
  ∧ (let added := _addOne teamModel "t1" playerModel "p1" "players" (Some level3)
                    (league None [true]) in
     added.1 = Rejected (Handled GATEWAY_TIMEOUT
                 "There was a database error while setting the association.")
     ∧ collections added.2 = collections (league None [true])).
Proof.
  split.
  - exact (addOne_one_many_sets_the_foreign_key teamModel playerModel
             "t1" "p1" "players" "team" (team "t1") (player "p1" None)
             (Some level3) (league None [])
             oneMany_players eq_refl eq_refl eq_refl eq_refl).
  - exact (addOne_one_many_sets_the_foreign_key teamModel playerModel
             "t1" "p1" "players" "team" (team "t1") (player "p1" None)
             (Some level3) (league None [true])
             oneMany_players eq_refl eq_refl eq_refl eq_refl).
Defined.

Lemma removeOne_one_many_clears_the_foreign_key_witness :
  let removed := _removeOne teamModel "t1" playerModel "p1" "players"
                   (league (Some "t2") []) in
  removed.1 = Resolved VUndefined
  ∧ collections removed.2
    = <[("player", "p1") := deleteField (player "p1" (Some "t2")) "team"]>
        (collections (league (Some "t2") [])).
Proof.
  assert (Hfaultless : faultless (league (Some "t2") [])) by constructor.
  exact (removeOne_one_many_clears_the_foreign_key teamModel playerModel
           "t1" "p1" "players" "team" (team "t1") (player "p1" (Some "t2"))
           (league (Some "t2") [])
           oneMany_players eq_refl eq_refl eq_refl Hfaultless).
Defined.

(** *** Refusals before the saves *)

Lemma save_never_raw (m : Model) (d : document) (st : store) (e : exn) :
  (save m d st).1 ≠ Rejected (Raw e).
Proof. unfold save. by destruct (save_faults st) as [|[|] faults]. Qed.

Lemma unlinkManyMany_db (ownerModel childModel : Model) (associationName : string)
    (m : mem) :
  db (unlinkManyMany ownerModel childModel associationName m).2 = db m.
Proof.
  unfold unlinkManyMany.
  unfold mbind, M_bind, mret, M_ret, get, lift, setOwner, setChild. simpl.
  destruct (arrayField (ownerObject m) associationName) as [ownerArray|];
    simpl; [|done].
  destruct (duplicateIndexOf _ _ ownerArray) as [[i|]|]; simpl; [| |done];
    (destruct (includeAs _) as [name|]; simpl; [|done]);
    (destruct (arrayField (childObject m) name) as [childArray|]; simpl; [|done]);
    by destruct (duplicateIndexOf _ _ childArray) as [[j|]|].
Qed.

(** X14: a link or an unlink that is refused with a thrown or rejected value
    of the helper itself (a missing child, an unknown association, a type
    that is neither ONE_MANY nor MANY_MANY, a document without its array)
    has written nothing: these refusals all come before the first save. *)
Theorem refusal_before_the_saves_writes_nothing (ownerModel childModel : Model)
    (o : document) (childId associationName : string) (p : Payload) (st : store) :
  let link :=
    _setAssociation ownerModel o childModel childId associationName p st in
  let unlink :=
    _removeAssociation ownerModel o childModel childId associationName st in
  (∀ e, link.1 = Rejected (Raw e) → collections link.2.2 = collections st)
  ∧ (∀ e, unlink.1 = Rejected (Raw e) → collections unlink.2.2 = collections st).
Proof.
  simpl. split; intros e.
  - unfold _setAssociation.
    destruct (findOne childModel childId st) as [c|]; [|done].
    destruct (lookupAssociation ownerModel associationName) as [a|]; [|done].
    destruct (type a =? "ONE_MANY").
    { match goal with |- context [save ?m ?d ?s] =>
        pose proof (save_never_raw m d s e);
        destruct (save m d s) as [promise st1] end. done. }
    destruct (type a =? "MANY_MANY"); [|done].
    match goal with |- context [linkManyMany ?a ?b ?c ?d ?m] =>
      pose proof (linkManyMany_frame a b c d m) as (Hl & _ & _);
      destruct (linkManyMany a b c d m) as [[[]|e'] m'] end; simpl in *; [|done].
    pose proof (save_never_raw ownerModel (ownerObject m') (db m') e).
    destruct (save ownerModel (ownerObject m') (db m')) as [first st1].
    by destruct (save childModel (childObject m') st1) as [second st2].
  - unfold _removeAssociation.
    destruct (findOne childModel childId st) as [c|]; [|done].
    destruct (lookupAssociation ownerModel associationName) as [a|]; [|done].
    destruct (type a =? "ONE_MANY").
    { match goal with |- context [save ?m ?d ?s] =>
        pose proof (save_never_raw m d s e);
        destruct (save m d s) as [promise st1] end. done. }
    destruct (type a =? "MANY_MANY"); [|done].
    match goal with |- context [unlinkManyMany ?a ?b ?c ?m] =>
      pose proof (unlinkManyMany_db a b c m) as Hdb;
      destruct (unlinkManyMany a b c m) as [[[]|e'] m'] end; simpl in *;
      [|by rewrite Hdb].
    pose proof (save_never_raw ownerModel (ownerObject m') (db m') e).
    destruct (save ownerModel (ownerObject m') (db m')) as [first st1].
    by destruct (save childModel (childObject m') st1) as [second st2].
Qed.

Lemma refusal_before_the_saves_writes_nothing_witness :
  let link := _setAssociation userModel (user "u1" []) roleModel "missing" "roles"
                (Ids ["missing"]) (unlinked []) in
  let unlink := _removeAssociation userModel (user "u1" []) roleModel "r1" "friends"
                  (unlinked []) in
  (link.1 = Rejected (Raw (Thrown (VString "Child object not found.")))
   ∧ collections link.2.2 = collections (unlinked []))
  ∧ (unlink.1
     = Rejected (Raw (TypeError "Cannot read property 'type' of undefined"))
     ∧ collections unlink.2.2 = collections (unlinked [])).
Proof.
  pose proof (refusal_before_the_saves_writes_nothing userModel roleModel
                (user "u1" []) "missing" "roles" (Ids ["missing"]) (unlinked []))
    as [Hlink _].
  pose proof (refusal_before_the_saves_writes_nothing userModel roleModel
                (user "u1" []) "r1" "friends" (Ids []) (unlinked []))
    as [_ Hunlink].
  split; (split; [reflexivity|]).
  - exact (Hlink _ eq_refl).
  - exact (Hunlink _ eq_refl).
Defined.

(** *** Linking by plain ids a pair that is linked *)

Lemma upsert_keeps (key id : string) (payload : obj) (n : nat) (array : list obj)
    (existing : obj) (rest : list obj) :
  entriesFor key id array = existing :: rest →
  upsert key id false payload n array = array.
Proof.
  intros Hentries. unfold upsert.
  destruct (list_find _ array) as [[i x]|] eqn:Hfind; [done|].
  apply list_find_filter_nil in Hfind. unfold entriesFor in Hentries. congruence.
Qed.

(** X15: [_addMany] with plain ids, for a pair that is linked already, keeps
    the entry on the owner as it is, with its extra fields, but replaces
    the entry on the child by one that has the owner's id and the old
    [_id] only: the extra fields are lost on the child's side. *)
Theorem addMany_by_id_strips_the_child_entry (ownerModel childModel : Model)
    (ownerId childId associationName childAssociationName : string)
    (o c : document) (oa ca : list obj) (e f : obj) (oes ces : list obj)
    (st : store) :
  manyMany ownerModel childModel associationName childAssociationName →
  holds st ownerModel ownerId associationName (modelName childModel) o oa →
  holds st childModel childId childAssociationName (modelName ownerModel) c ca →
  (modelName ownerModel, ownerId) ≠ (modelName childModel, childId) →
  entriesFor (modelName childModel) childId oa = e :: oes →
  entriesFor (modelName ownerModel) ownerId ca = f :: ces →
  faultless st →
  let added :=
    _addMany ownerModel ownerId childModel associationName (Ids [childId]) st in
  added.1 = Resolved (VBool true)
  ∧ storedArray added.2 ownerModel ownerId associationName = Some oa
  ∧ ∃ ca' f',
      storedArray added.2 childModel childId childAssociationName = Some ca'
      ∧ entriesFor (modelName ownerModel) ownerId ca' = f' :: ces
      ∧ f' !! "_id" = f !! "_id"
      ∧ ∀ k, k ≠ "_id" → k ≠ modelName ownerModel → f' !! k = None.
Proof.
  intros Hmm [Hfo Ho Hoa Hkoa] Hchild Hkeys Hoes Hces Hfaultless.
  rewrite <- Ho in Hkeys.
  destruct (setAssociation_links ownerModel childModel associationName
              childAssociationName childId o c oa ca (Ids [childId])
              ∅ false None st Hmm Hoa Hkoa Hchild Hkeys eq_refl Hfaultless)
    as (n & n' & p' & st' & Hset & Howner' & Hchild' & _).
  simpl in Hset, Howner', Hchild'. rewrite Ho in *.
  rewrite (upsert_keeps _ _ _ _ _ _ _ Hoes) in Hset, Howner'.
  set (childPayload := <[modelName ownerModel := JStr ownerId]> _) in *.
  assert (Hpayload : toString <$> childPayload !! modelName ownerModel
                     = Some ownerId)
    by (unfold childPayload; by rewrite lookup_insert_eq).
  assert (Hadd : _addMany ownerModel ownerId childModel associationName
                   (Ids [childId]) st = (Resolved (VBool true), st')).
  { unfold _addMany. rewrite Hfo. simpl. by rewrite Hset. }
  rewrite Hadd. simpl. split; [done|]. split.
  { by eapply holds_storedArray. }
  destruct (upsert_retains _ _ childPayload Hpayload true n' ca f ces Hces)
    as (f' & Hf' & Hid).
  eexists _, f'. split; [by eapply holds_storedArray|].
  split; [done|]. split; [done|].
  pose proof (upsert_entry_fields _ _ _ _ _ _ _ Hpayload Hf') as Hfields.
  intros k Hk1 Hk2. rewrite Hfields by done. unfold childPayload.
  rewrite lookup_insert_ne by done.
  destruct (decide (k = modelName childModel)) as [->|Hk3].
  { by rewrite lookup_delete_eq. }
  by rewrite !lookup_delete_ne, lookup_insert_ne.
Qed.

Lemma addMany_by_id_strips_the_child_entry_witness :
  let added := _addMany userModel "u1" roleModel "roles" (Ids ["r1"]) (linked []) in
  added.1 = Resolved (VBool true)
  ∧ storedArray added.2 userModel "u1" "roles" = Some [ownerEntry]
  ∧ ∃ ca' f',
      storedArray added.2 roleModel "r1" "users" = Some ca'
      ∧ entriesFor "user" "u1" ca' = f' :: []
      ∧ f' !! "_id" = childEntry !! "_id"
      ∧ ∀ k, k ≠ "_id" → k ≠ "user" → f' !! k = None.
Proof.
  assert (Hkeys : (modelName userModel, "u1") ≠ (modelName roleModel, "r1"))
    by discriminate.
  assert (Hoes : entriesFor (modelName roleModel) "r1" [ownerEntry] = [ownerEntry])
    by (vm_compute; reflexivity).
  assert (Hces : entriesFor (modelName userModel) "u1" [childEntry] = [childEntry])
    by (vm_compute; reflexivity).
  assert (Hfaultless : faultless (linked [])) by constructor.
  exact (addMany_by_id_strips_the_child_entry userModel roleModel
           "u1" "r1" "roles" "users" _ _ _ _ ownerEntry childEntry [] [] (linked [])
           manyMany_users_roles (holds_linked_user []) (holds_linked_role [])
           Hkeys Hoes Hces Hfaultless).
Defined.

(** *** The chain of [_addMany] over any number of children *)

Lemma upsert_linked (key id : string) (replace : bool) (payload : obj) (n : nat)
    (array : list obj) :
  toString <$> payload !! key = Some id →
  entriesFor key id (upsert key id replace payload n array) ≠ [].
Proof.
  intros Hp.
  destruct (entriesFor key id array) as [|existing rest] eqn:Hentries.
  - rewrite upsert_appends by done. unfold entriesFor.
    rewrite filter_app. unfold entriesFor in Hentries. rewrite Hentries. simpl.
    rewrite filter_cons_True; [done|].
    apply linksTo_reference. by apply stored_entry_reference.
  - destruct (upsert_retains _ _ _ Hp replace n _ _ _ Hentries) as (entry & -> & _).
    done.
Qed.

Section Chain.
Context (ownerModel childModel : Model)
        (associationName childAssociationName : string)
        (Hmm : manyMany ownerModel childModel associationName childAssociationName).

Lemma promise_chain_links (ids : list string) :
  ∀ (o : document) (oa : list obj) (p : Payload) (st : store),
  NoDup ids →
  fields o !! associationName = Some (FArr oa) →
  keyed (modelName childModel) oa →
  faultless st →
  (∀ x, x ∈ ids →
     (modelName ownerModel, _id o) ≠ (modelName childModel, x)
     ∧ entriesFor (modelName childModel) x oa = []
     ∧ (∃ c ca, holds st childModel x childAssociationName (modelName ownerModel) c ca)
     ∧ ∃ pl ef slot, selectPayload p x = Ok (pl, ef, slot)) →
  ∃ o' p' st' new,
    promise_chain ownerModel o childModel (Some <$> ids) associationName p st
    = (Resolved (), (o', p', st'))
    ∧ _id o' = _id o
    ∧ fields o' !! associationName = Some (FArr (oa ++ new)%list)
    ∧ (fun entry => toString <$> entry !! modelName childModel) <$> new
      = Some <$> ids
    ∧ (ids ≠ [] → findOne ownerModel (_id o) st' = Some o')
    ∧ (∀ x, x ∈ ids →
         ∃ ca', storedArray st' childModel x childAssociationName = Some ca'
                ∧ entriesFor (modelName ownerModel) (_id o) ca' ≠ [])
    ∧ (∀ k, k ≠ (modelName ownerModel, _id o) →
            (∀ x, x ∈ ids → k ≠ (modelName childModel, x)) →
            collections st' !! k = collections st !! k).
Proof.
  induction ids as [|x ids IH]; intros o oa p st Hnodup Hoa Hkoa Hfaultless Hready.
  { exists o, p, st, []. simpl. rewrite app_nil_r.
    repeat split; try done. intros x Hx. by apply elem_of_nil in Hx. }
  apply NoDup_cons in Hnodup as [Hx Hnodup].
  destruct (Hready x) as (Hkeys & Hnone & (c & ca & Hchild) & (pl & ef & slot & Hsel));
    [by left|].
  destruct (setAssociation_links ownerModel childModel associationName
              childAssociationName x o c oa ca p pl ef slot st
              Hmm Hoa Hkoa Hchild Hkeys Hsel Hfaultless)
    as (n & n' & p1 & st1 & Hset & Howner1 & Hchild1 & Hframe1 & Hfaultless1 & Hp1).
  simpl in Hset, Howner1, Hchild1.
  set (ownerPayload := <[modelName childModel := JStr x]> pl) in *.
  set (childPayload := <[modelName ownerModel := JStr (_id o)]> _) in *.
  assert (Hop : toString <$> ownerPayload !! modelName childModel = Some x)
    by (unfold ownerPayload; by rewrite lookup_insert_eq).
  assert (Hcp : toString <$> childPayload !! modelName ownerModel = Some (_id o))
    by (unfold childPayload; by rewrite lookup_insert_eq).
  rewrite (upsert_appends _ _ ownerPayload) in Hset, Howner1 by done.
  set (e := stored_entry ownerPayload n) in *.
  set (o1 := setField o associationName (FArr (oa ++ [e])%list)) in *.
  destruct Howner1 as [Hfo1 _ Hoa1 Hkoa1].
  destruct (IH o1 (oa ++ [e])%list p1 st1 Hnodup Hoa1 Hkoa1 Hfaultless1)
    as (o' & p' & st' & new & Hchain & Hid' & Hoa' & Hnew & Hfo' & Hchildren & Hframe).
  { intros y Hy.
    destruct (Hready y) as (Hkeysy & Hnoney & (cy & cay & Hchildy) & Hsely);
      [by right|].
    assert (y ≠ x) as Hyx by (intros ->; done).
    split; [done|]. split.
    { unfold entriesFor in *. rewrite filter_app, Hnoney. simpl.
      rewrite filter_cons_False; [done|].
      eapply linksTo_other; [|done]. by apply stored_entry_reference. }
    split.
    { exists cy, cay. destruct Hchildy as [Hfy Hidy Hcay Hkcay].
      split; try done. unfold findOne in *. rewrite Hframe1; [done|done|].
      intros [= ?]. done. }
    by rewrite Hp1. }
  exists o', p', st', (e :: new). simpl. unfold promise_link. rewrite Hset.
  split; [done|]. split; [done|]. split.
  { by rewrite Hoa', <- app_assoc. }
  split.
  { f_equal; [by apply stored_entry_reference|exact Hnew]. }
  split.
  { intros _. destruct ids as [|y ids']; [|by apply Hfo'].
    simpl in Hchain. by simplify_eq. }
  split.
  { intros y [->|Hy]%elem_of_cons; [|by apply Hchildren].
    exists (upsert (modelName ownerModel) (_id o) true childPayload n' ca).
    split; [|by apply upsert_linked].
    rewrite <- (holds_storedArray _ _ _ _ _ _ _ Hchild1).
    unfold storedArray, findOne. rewrite Hframe; [done|..].
    - intros [= ? ?]. by destruct Hkeys; f_equal.
    - intros z Hz [= ->]. done. }
  intros k Hk1 Hk2. rewrite Hframe.
  - apply Hframe1; [done|]. apply Hk2. by left.
  - done.
  - intros z Hz. apply Hk2. by right.
Qed.

End Chain.

(** X16: [_addMany] with the ids of any number of distinct children, none of
    them linked to the owner yet and no save failing, links every one of
    them: the owner's array gets one new entry per child, in the order of
    the payload, after the entries it had, and each child gets an entry for
    the owner. *)
Theorem addMany_links_every_child (ownerModel childModel : Model)
    (ownerId associationName childAssociationName : string)
    (o : document) (oa : list obj) (p : Payload) (ids : list string)
    (st : store) :
  manyMany ownerModel childModel associationName childAssociationName →
  holds st ownerModel ownerId associationName (modelName childModel) o oa →
  childIdsOf p = Some <$> ids →
  NoDup ids →
  (∀ x, x ∈ ids →
     (modelName ownerModel, ownerId) ≠ (modelName childModel, x)
     ∧ entriesFor (modelName childModel) x oa = []
     ∧ ∃ c ca, holds st childModel x childAssociationName (modelName ownerModel)
                 c ca) →
  faultless st →
  let added := _addMany ownerModel ownerId childModel associationName p st in
  added.1 = Resolved (VBool true)
  ∧ ∃ new,
      storedArray added.2 ownerModel ownerId associationName
      = Some (oa ++ new)%list
      ∧ (fun entry => toString <$> entry !! modelName childModel) <$> new
        = Some <$> ids
      ∧ ∀ x, x ∈ ids →
          ∃ ca', storedArray added.2 childModel x childAssociationName = Some ca'
                 ∧ entriesFor (modelName ownerModel) ownerId ca' ≠ [].
Proof.
  intros Hmm [Hfo Ho Hoa Hkoa] Hids Hnodup Hready Hfaultless.
  destruct (promise_chain_links ownerModel childModel associationName
              childAssociationName Hmm ids o oa p st Hnodup Hoa Hkoa Hfaultless)
    as (o' & p' & st' & new & Hchain & Hid' & Hoa' & Hnew & Hfo' & Hchildren & _).
  { intros x Hx. destruct (Hready x Hx) as (Hkeys & Hnone & Hchild).
    rewrite Ho. split; [done|]. split; [done|]. split; [done|].
    apply childIdsOf_selectPayload. rewrite Hids. by apply list_elem_of_fmap_2. }
  rewrite Ho in *.
  assert (Hadd : _addMany ownerModel ownerId childModel associationName p st
                 = (Resolved (VBool true), st')).
  { unfold _addMany. by rewrite Hfo, Hids, Hchain. }
  rewrite Hadd. simpl. split; [done|].
  exists new. split; [|done].
  unfold storedArray.
  destruct ids as [|x ids'].
  - simpl in Hchain. injection Hchain as <- <- <-.
    rewrite Hfo. simpl. by rewrite Hoa'.
  - rewrite Hfo' by done. simpl. by rewrite Hoa'.
Qed.

Lemma addMany_links_every_child_witness :
  let added :=
    _addMany userModel "u1" roleModel "roles" (Ids ["r2"; "r1"]) (unlinked []) in
  added.1 = Resolved (VBool true)
  ∧ ∃ new,
      storedArray added.2 userModel "u1" "roles" = Some ([] ++ new)%list
      ∧ (fun entry => toString <$> entry !! "role") <$> new
        = Some <$> ["r2"; "r1"]
      ∧ ∀ x, x ∈ ["r2"; "r1"] →
          ∃ ca', storedArray added.2 roleModel x "users" = Some ca'
                 ∧ entriesFor "user" "u1" ca' ≠ [].
Proof.
  assert (Hnodup : NoDup ["r2"; "r1"]) by (by apply (bool_decide_unpack _)).
  assert (Hready : ∀ x, x ∈ ["r2"; "r1"] →
     (modelName userModel, "u1") ≠ (modelName roleModel, x)
     ∧ entriesFor (modelName roleModel) x [] = []
     ∧ ∃ c ca, holds (unlinked []) roleModel x "users" (modelName userModel) c ca).
  { intros x Hx. split; [discriminate|]. split; [done|].
    exists (role x []), []. apply holds_unlinked_role.
    rewrite !elem_of_cons, elem_of_nil in Hx. tauto. }
  assert (Hfaultless : faultless (unlinked [])) by constructor.
  exact (addMany_links_every_child userModel roleModel "u1" "roles" "users"
           _ _ (Ids ["r2"; "r1"]) ["r2"; "r1"] (unlinked [])
           manyMany_users_roles (holds_unlinked_user []) eq_refl Hnodup Hready
           Hfaultless).
Defined.

End HandlerMore.

(** * Properties of [_delete] *)

Module CrudFacts.
Import JS Handler Links HandlerExamples Crud.

Lemma no_failing_write (st : store) :
  faultless st → ∀ faults, save_faults st ≠ true :: faults.
Proof.
  intros Hfaultless faults Heq. unfold faultless in Hfaultless.
  rewrite Heq in Hfaultless. inversion Hfaultless as [|? ? Hhead].
  discriminate Hhead.
Qed.

(** The store after a [_delete] without hooks of a document that is
    there. *)
Lemma delete_found (enableSoftDelete : bool) (now : jsval) (model : Model)
    (id : string) (payload : option obj) (d : document) (st : store) :
  findOne model id st = Some d →
  faultless st →
  _delete enableSoftDelete now model noHooks id payload st
  = (Resolved (VBool true),
     {| collections :=
          if enableSoftDelete && negb (hardDeleteAsked payload)
          then <[(modelName model, id) :=
                   {| _id := _id d;
                      fields := {[ "isDeleted" := FVal (JBool true);
                                   "deletedAt" := FVal now ]} ∪ fields d |}]>
                 (collections st)
          else delete (modelName model, id) (collections st);
        next_oid := next_oid st;
        save_faults := tail (save_faults st) |}).
Proof.
  intros Hfound Hfaultless. unfold findOne in Hfound.
  pose proof (no_failing_write st Hfaultless) as Hfaults.
  unfold _delete. simpl.
  destruct (enableSoftDelete && negb (hardDeleteAsked payload)).
  - unfold findByIdAndUpdate. rewrite Hfound.
    by destruct (save_faults st) as [|[|] faults] eqn:Hf;
      [|destruct (Hfaults faults)|].
  - unfold findByIdAndRemove. rewrite Hfound.
    by destruct (save_faults st) as [|[|] faults] eqn:Hf;
      [|destruct (Hfaults faults)|].
Qed.

(** A [_delete] without hooks of a document that is not there. *)
Lemma delete_missing (enableSoftDelete : bool) (now : jsval) (model : Model)
    (id : string) (payload : option obj) (st : store) :
  findOne model id st = None →
  ∃ r, (_delete enableSoftDelete now model noHooks id payload st).1 = Rejected r.
Proof.
  intros Hnone. unfold findOne in Hnone. unfold _delete. simpl.
  destruct (enableSoftDelete && negb (hardDeleteAsked payload)).
  - unfold findByIdAndUpdate. rewrite Hnone.
    destruct (save_faults st) as [|[|] faults]; simpl; eauto.
  - unfold findByIdAndRemove. rewrite Hnone.
    destruct (save_faults st) as [|[|] faults]; simpl; eauto.
Qed.

(** X17: without hooks and without a failing write, [_delete] of a stored
    document is resolved with [true]. When soft deletes are configured and
    the payload does not ask for a hard delete, the document stays, with
    [isDeleted] set and [deletedAt] at the current time and its other
    fields as they were; otherwise it is gone. No other document
    changes. *)
Theorem delete_flags_or_removes_the_document (enableSoftDelete : bool)
    (now : jsval) (model : Model) (id : string) (payload : option obj)
    (d : document) (st : store) :
  findOne model id st = Some d →
  faultless st →
  let deleted := _delete enableSoftDelete now model noHooks id payload st in
  deleted.1 = Resolved (VBool true)
  ∧ (if enableSoftDelete && negb (hardDeleteAsked payload)
     then ∃ d', findOne model id deleted.2 = Some d'
                ∧ _id d' = _id d
                ∧ fields d' !! "isDeleted" = Some (FVal (JBool true))
                ∧ fields d' !! "deletedAt" = Some (FVal now)
                ∧ ∀ k, k ≠ "isDeleted" → k ≠ "deletedAt" →
                       fields d' !! k = fields d !! k
     else findOne model id deleted.2 = None)
  ∧ ∀ k, k ≠ (modelName model, id) →
         collections deleted.2 !! k = collections st !! k.
Proof.
  intros Hfound Hfaultless. simpl.
  rewrite (delete_found enableSoftDelete now model id payload d st Hfound
             Hfaultless). simpl.
  split; [done|]. unfold findOne. simpl.
  destruct (enableSoftDelete && negb (hardDeleteAsked payload)).
  - split; [|by intros k Hk; rewrite lookup_insert_ne].
    eexists. rewrite lookup_insert_eq. split; [done|]. simpl. split; [done|].
    split; [by apply lookup_union_Some_l|].
    split; [by apply lookup_union_Some_l|].
    intros k Hk1 Hk2. rewrite lookup_union_r; [done|].
    by rewrite lookup_insert_ne, lookup_singleton_ne.
  - split; [by rewrite lookup_delete_eq|].
    by intros k Hk; rewrite lookup_delete_ne.
Qed.

Lemma delete_flags_or_removes_the_document_witness :
  let deleted := _delete true (JNum 7) userModel noHooks "u1" None (unlinked []) in
  deleted.1 = Resolved (VBool true)
  ∧ (∃ d', findOne userModel "u1" deleted.2 = Some d'
           ∧ _id d' = _id (user "u1" [])
           ∧ fields d' !! "isDeleted" = Some (FVal (JBool true))
           ∧ fields d' !! "deletedAt" = Some (FVal (JNum 7))
           ∧ ∀ k, k ≠ "isDeleted" → k ≠ "deletedAt" →
                  fields d' !! k = fields (user "u1" []) !! k)
  ∧ ∀ k, k ≠ (modelName userModel, "u1") →
         collections deleted.2 !! k = collections (unlinked []) !! k.
Proof.
  assert (Hfaultless : faultless (unlinked [])) by constructor.
  exact (delete_flags_or_removes_the_document true (JNum 7) userModel "u1" None
           (user "u1" []) (unlinked []) eq_refl Hfaultless).
Defined.

(** The store after the write of [_delete], when the document is there. *)
Lemma removal_collections (enableSoftDelete : bool) (now : jsval) (model : Model)
    (id : string) (payload : option obj) (st : store) :
  let removal :=
    if enableSoftDelete && negb (hardDeleteAsked payload)
    then findByIdAndUpdate model id
           {[ "isDeleted" := FVal (JBool true); "deletedAt" := FVal now ]} st
    else findByIdAndRemove model id st in
  (∃ r, removal.1 = Rejected r ∧ collections removal.2 = collections st)
  ∨ (removal.1 = Resolved None ∧ findOne model id st = None
     ∧ collections removal.2 = collections st)
  ∨ ∃ d, removal.1 = Resolved (Some d) ∧ findOne model id st = Some d.
Proof.
  simpl. unfold findOne.
  destruct (enableSoftDelete && negb (hardDeleteAsked payload)).
  - unfold findByIdAndUpdate.
    destruct (save_faults st) as [|[|] faults]; simpl; eauto;
      destruct (collections st !! (modelName model, id)) as [d|]; simpl; eauto.
  - unfold findByIdAndRemove.
    destruct (save_faults st) as [|[|] faults]; simpl; eauto;
      destruct (collections st !! (modelName model, id)) as [d|] eqn:Hd;
      simpl; eauto; right; left; (split; [done|]); (split; [done|]);
      by apply delete_id.
Qed.

(** X18: a [_delete] that ends rejected has changed no document, with one
    exception: when the post hook is what failed, the document is deleted
    already and stays deleted. *)
Theorem rejected_delete_changes_nothing_unless_the_post_hook_failed
    (enableSoftDelete : bool) (now : jsval) (model : Model) (hooks : deleteHooks)
    (id : string) (payload : option obj) (st : store) (r : reason) :
  let deleted := _delete enableSoftDelete now model hooks id payload st in
  deleted.1 = Rejected r →
  collections deleted.2 = collections st
  ∨ ∃ hook d e,
      post hooks = Some hook
      ∧ findOne model id st = Some d
      ∧ hook payload d = Rejected e
      ∧ deleted.2
        = (_delete enableSoftDelete now model noHooks id payload st).2.
Proof.
  simpl. unfold _delete. simpl.
  destruct (match pre hooks with Some hook => hook payload | None => Resolved () end)
    as [[]|e|]; simpl; [|by left|done].
  pose proof (removal_collections enableSoftDelete now model id payload st) as Hrem.
  simpl in Hrem.
  destruct (if enableSoftDelete && negb (hardDeleteAsked payload)
            then findByIdAndUpdate model id _ st
            else findByIdAndRemove model id st) as [removal st1].
  simpl in Hrem.
  destruct Hrem as [(e & -> & Hst)|[(-> & _ & Hst)|(d & -> & Hd)]]; simpl;
    [by left|by left|].
  destruct (post hooks) as [hook|] eqn:Hpost; simpl; [|done].
  destruct (hook payload d) as [[]|e|] eqn:Hhook; simpl; [done| |done].
  intros _. right. by exists hook, d, e.
Qed.

Lemma rejected_delete_changes_nothing_unless_the_post_hook_failed_witness :
  let failing := {| pre := None;
                    post := Some (fun _ _ => Rejected (Raw (Thrown (VString "no")))) |} in
  let deleted := _delete false (JNum 7) userModel failing "u1" None (unlinked []) in
  (∃ r, deleted.1 = Rejected r)
  ∧ findOne userModel "u1" deleted.2 = None
  ∧ (collections deleted.2 = collections (unlinked [])
     ∨ ∃ hook d e,
         post failing = Some hook
         ∧ findOne userModel "u1" (unlinked []) = Some d
         ∧ hook None d = Rejected e
         ∧ deleted.2
           = (_delete false (JNum 7) userModel noHooks "u1" None (unlinked [])).2).
Proof.
  split; [by eexists|]. split; [reflexivity|].
  exact (rejected_delete_changes_nothing_unless_the_post_hook_failed
           false (JNum 7) userModel
           {| pre := None;
              post := Some (fun _ _ => Rejected (Raw (Thrown (VString "no")))) |}
           "u1" None (unlinked []) _ eq_refl).
Defined.

(** X19: [_delete] of an id that the collection does not have is rejected
    and changes no document, in both delete modes, once the pre hook, if
    there is one, has let it pass. *)
Theorem delete_of_a_missing_document_is_rejected (enableSoftDelete : bool)
    (now : jsval) (model : Model) (hooks : deleteHooks) (id : string)
    (payload : option obj) (st : store) :
  findOne model id st = None →
  match pre hooks with Some hook => hook payload | None => Resolved () end
    = Resolved () →
  let deleted := _delete enableSoftDelete now model hooks id payload st in
  (∃ r, deleted.1 = Rejected r)
  ∧ collections deleted.2 = collections st.
Proof.
  intros Hnone Hpre. simpl. unfold _delete. rewrite Hpre.
  pose proof (removal_collections enableSoftDelete now model id payload st) as Hrem.
  simpl in Hrem.
  destruct (if enableSoftDelete && negb (hardDeleteAsked payload)
            then findByIdAndUpdate model id _ st
            else findByIdAndRemove model id st) as [removal st1].
  simpl in Hrem.
  destruct Hrem as [(e & -> & Hst)|[(-> & _ & Hst)|(d & -> & Hd)]]; simpl;
    [by eauto|by eauto|congruence].
Qed.

Lemma delete_of_a_missing_document_is_rejected_witness :
  let deleted := _delete true (JNum 7) userModel noHooks "u9" None (unlinked []) in
  (∃ r, deleted.1 = Rejected r)
  ∧ collections deleted.2 = collections (unlinked []).
Proof.
  exact (delete_of_a_missing_document_is_rejected true (JNum 7) userModel noHooks
           "u9" None (unlinked []) eq_refl eq_refl).
Defined.


(** X20: a soft delete can be repeated, a hard delete cannot: after a
    [_delete] without hooks and failing writes, the same [_delete] again is
    resolved with [true] when the first one only flagged the document, and
    is rejected when the first one removed it. *)
Theorem second_delete_succeeds_only_after_a_soft_delete (enableSoftDelete : bool)
    (now later : jsval) (model : Model) (id : string) (payload : option obj)
    (d : document) (st : store) :
  findOne model id st = Some d →
  faultless st →
  let first := _delete enableSoftDelete now model noHooks id payload st in
  let second := _delete enableSoftDelete later model noHooks id payload first.2 in
  first.1 = Resolved (VBool true)
  ∧ if enableSoftDelete && negb (hardDeleteAsked payload)
    then second.1 = Resolved (VBool true)
    else ∃ r, second.1 = Rejected r.
Proof.
  intros Hfound Hfaultless. simpl.
  rewrite (delete_found enableSoftDelete now model id payload d st Hfound
             Hfaultless). simpl.
  split; [done|].
  set (st1 := {| collections := _ |}).
  assert (Hfaultless1 : faultless st1).
  { unfold faultless in *. simpl.
    destruct (save_faults st) as [|fault faults]; [done|].
    by inversion Hfaultless. }
  destruct (enableSoftDelete && negb (hardDeleteAsked payload)) eqn:Hmode.
  - erewrite (delete_found enableSoftDelete later model id payload _ st1);
      [done| |done].
    unfold findOne, st1. simpl. by rewrite lookup_insert_eq.
  - apply delete_missing. unfold findOne, st1. simpl. by rewrite lookup_delete_eq.
Qed.

Lemma second_delete_succeeds_only_after_a_soft_delete_witness :
  (let first := _delete true (JNum 7) userModel noHooks "u1" None (unlinked []) in
   let second := _delete true (JNum 8) userModel noHooks "u1" None first.2 in
   first.1 = Resolved (VBool true) ∧ second.1 = Resolved (VBool true))
  ∧ (let hard : option obj := Some {[ "hardDelete" := JBool true ]} in
     let first := _delete true (JNum 7) userModel noHooks "u1" hard (unlinked []) in
     let second := _delete true (JNum 8) userModel noHooks "u1" hard first.2 in
     first.1 = Resolved (VBool true) ∧ ∃ r, second.1 = Rejected r).
Proof.
  assert (Hfaultless : faultless (unlinked [])) by constructor.
  split.
  - exact (second_delete_succeeds_only_after_a_soft_delete true (JNum 7) (JNum 8)
             userModel "u1" None (user "u1" []) (unlinked []) eq_refl Hfaultless).
  - exact (second_delete_succeeds_only_after_a_soft_delete true (JNum 7) (JNum 8)
             userModel "u1" (Some {[ "hardDelete" := JBool true ]})
             (user "u1" []) (unlinked []) eq_refl Hfaultless).
Defined.

(** *** [_update] *)

Section UpdateFacts.
Variable attributesFilter : Model → document → document.

(** What [_update] does to a document that is there. *)
Lemma update_found (enableUpdatedAt : bool) (now : jsval) (model : Model)
    (id : string) (payload : gmap string field) (d : document) (st : store) :
  findOne model id st = Some d →
  _id d = id →
  faultless st →
  let written :=
    if enableUpdatedAt then <["updatedAt" := FVal now]> payload else payload in
  let d' := {| _id := id; fields := written ∪ fields d |} in
  _update attributesFilter enableUpdatedAt now model noUpdateHooks id payload st
  = (Resolved (attributesFilter model d'),
     {| collections := <[(modelName model, id) := d']> (collections st);
        next_oid := next_oid st;
        save_faults := tail (save_faults st) |}).
Proof.
  intros Hfound Hid Hfaultless. subst id. simpl.
  unfold _update, findByIdAndUpdate. simpl.
  unfold findOne in *. rewrite Hfound.
  assert (Hfaults : ∀ faults, save_faults st ≠ true :: faults).
  { intros faults Heq. unfold faultless in Hfaultless. rewrite Heq in Hfaultless.
    inversion Hfaultless as [|? ? Hhead]. discriminate Hhead. }
  destruct (save_faults st) as [|[|] faults] eqn:Hf; simpl;
    rewrite ?lookup_insert_eq; try done.
  by destruct (Hfaults faults).
Qed.

End UpdateFacts.

(** X21: without hooks and without a failing write, [_update] of a stored
    document answers with the document as it is after the update, read
    again through the attributes filter: every field of the payload is set,
    [updatedAt] is the current time when that is configured, whatever the
    payload says, and every other field and every other document is as
    before. *)
Theorem update_returns_the_document_as_updated
    (attributesFilter : Model → document → document)
    (enableUpdatedAt : bool) (now : jsval) (model : Model)
    (id : string) (payload : gmap string field) (d : document) (st : store) :
  findOne model id st = Some d →
  _id d = id →
  faultless st →
  let updated :=
    _update attributesFilter enableUpdatedAt now model noUpdateHooks id payload st in
  ∃ d',
    updated.1 = Resolved (attributesFilter model d')
    ∧ findOne model id updated.2 = Some d'
    ∧ _id d' = id
    ∧ (enableUpdatedAt = true → fields d' !! "updatedAt" = Some (FVal now))
    ∧ (∀ k, (enableUpdatedAt = true → k ≠ "updatedAt") →
            fields d' !! k = match payload !! k with
                             | Some f => Some f
                             | None => fields d !! k
                             end)
    ∧ ∀ k, k ≠ (modelName model, id) →
           collections updated.2 !! k = collections st !! k.
Proof.
  intros Hfound Hid Hfaultless. simpl.
  rewrite (update_found attributesFilter enableUpdatedAt now model id payload d st
             Hfound Hid Hfaultless). simpl.
  eexists. split; [done|]. unfold findOne. simpl. rewrite lookup_insert_eq.
  split; [done|]. split; [done|]. simpl. split; [|split].
  - intros ->. apply lookup_union_Some_l. by rewrite lookup_insert_eq.
  - intros k Hk. rewrite lookup_union.
    assert ((if enableUpdatedAt then <["updatedAt" := FVal now]> payload else payload)
              !! k = payload !! k) as ->.
    { destruct enableUpdatedAt; [|done]. rewrite lookup_insert_ne; [done|].
      intros <-. by apply Hk. }
    by destruct (payload !! k) as [f|], (fields d !! k).
  - intros k Hk. by rewrite lookup_insert_ne.
Qed.

Lemma update_returns_the_document_as_updated_witness :
  let updated :=
    _update (fun _ d => d) true (JNum 9) userModel noUpdateHooks "u1"
      {[ "name" := FVal (JStr "Ann"); "updatedAt" := FVal (JNum 1) ]}
      (unlinked []) in
  ∃ d',
    updated.1 = Resolved d'
    ∧ findOne userModel "u1" updated.2 = Some d'
    ∧ _id d' = "u1"
    ∧ (true = true → fields d' !! "updatedAt" = Some (FVal (JNum 9)))
    ∧ (∀ k, (true = true → k ≠ "updatedAt") →
            fields d' !! k
            = match ({[ "name" := FVal (JStr "Ann"); "updatedAt" := FVal (JNum 1) ]}
                       : gmap string field) !! k with
              | Some f => Some f
              | None => fields (user "u1" []) !! k
              end)
    ∧ ∀ k, k ≠ (modelName userModel, "u1") →
           collections updated.2 !! k = collections (unlinked []) !! k.
Proof.
  assert (Hfaultless : faultless (unlinked [])) by constructor.
  exact (update_returns_the_document_as_updated (fun _ d => d) true (JNum 9)
           userModel "u1"
           {[ "name" := FVal (JStr "Ann"); "updatedAt" := FVal (JNum 1) ]}
           (user "u1" []) (unlinked []) eq_refl eq_refl Hfaultless).
Defined.

(** X22: [_update] of an id that the collection does not have is rejected
    and writes nothing: no document is created for the payload. *)
Theorem update_of_a_missing_document_creates_nothing
    (attributesFilter : Model → document → document)
    (enableUpdatedAt : bool) (now : jsval) (model : Model) (hooks : updateHooks)
    (id : string) (payload payload' : gmap string field) (st : store) :
  findOne model id st = None →
  match update_pre hooks with
  | Some hook => hook id payload
  | None => Resolved payload
  end = Resolved payload' →
  let updated :=
    _update attributesFilter enableUpdatedAt now model hooks id payload st in
  (∃ r, updated.1 = Rejected r)
  ∧ collections updated.2 = collections st.
Proof.
  intros Hnone Hpre. simpl. unfold _update. rewrite Hpre.
  unfold findByIdAndUpdate. unfold findOne in Hnone. rewrite Hnone.
  destruct (save_faults st) as [|[|] faults]; simpl; eauto.
Qed.

Lemma update_of_a_missing_document_creates_nothing_witness :
  let updated :=
    _update (fun _ d => d) true (JNum 9) userModel noUpdateHooks "u9"
      {[ "name" := FVal (JStr "Ann") ]} (unlinked []) in
  (∃ r, updated.1 = Rejected r)
  ∧ collections updated.2 = collections (unlinked []).
Proof.
  exact (update_of_a_missing_document_creates_nothing (fun _ d => d) true (JNum 9)
           userModel noUpdateHooks "u9" {[ "name" := FVal (JStr "Ann") ]}
           {[ "name" := FVal (JStr "Ann") ]} (unlinked []) eq_refl eq_refl).
Defined.

End CrudFacts.

(** * Properties of the extra fields in the result of [_getAll] *)

Module GetAllFacts.
Import JS Handler Links HandlerExamples GetAll HandlerFacts HandlerMore.

Lemma findM_isLinkOf (a : association) (object : listed) (id : string)
    (data : list obj) :
  keyed (model a) data →
  plain object !! "_id" = Some (JStr id) →
  findM (isLinkOf a object) data = Ok (head (entriesFor (model a) id data)).
Proof.
  intros Hkeyed Hid. induction Hkeyed as [|entry data [child Hchild] _ IH]; [done|].
  assert (Hstep : isLinkOf a object entry = Ok (linksTo (model a) id entry)).
  { unfold isLinkOf, linksTo. by rewrite Hchild, Hid. }
  cbn [findM]. rewrite Hstep. simpl. unfold entriesFor in *.
  destruct (linksTo (model a) id entry) eqn:Heq.
  - by rewrite filter_cons_True.
  - rewrite filter_cons_False; [done|]. congruence.
Qed.

(** The object with the extra fields of [entry] set on it. *)
Lemma insertExtraFields_each (a : association) (lm : string) (data : list obj)
    (result : list listed) :
  type a = "MANY_MANY" →
  linkingModel a = Some lm →
  lm ≠ "" →
  keyed (model a) data →
  Forall (fun object =>
    ∃ id, plain object !! "_id" = Some (JStr id)
          ∧ entriesFor (model a) id data ≠ []) result →
  insertExtraFields a data result
  = Ok ((fun object =>
           {| plain := delete lm (plain object);
              nested :=
                <[lm := delete (model a) (delete "_id"
                          (default ∅
                             (head (entriesFor (model a)
                                      (match plain object !! "_id" with
                                       | Some (JStr id) => id
                                       | _ => ""
                                       end) data))))]>
                  (nested object) |}) <$> result).
Proof.
  intros Htype Hlm Hne Hkeyed Hall. unfold insertExtraFields.
  rewrite Hlm, Htype. rewrite (proj2 (String.eqb_neq _ _) Hne). simpl.
  induction Hall as [|object result (id & Hid & Hentries) _ IH]; [done|].
  simpl. rewrite (findM_isLinkOf _ _ _ _ Hkeyed Hid), Hid.
  destruct (entriesFor (model a) id data) as [|entry rest]; [done|]. simpl.
  by rewrite IH.
Qed.

(** X23: for a MANY_MANY association with a linking model, every listed
    child is given, under the name of the linking model, the fields of the
    first entry of the owner's array that refers to it, without the
    entry's [_id] and without the reference. A listed child that no entry
    refers to makes the callback throw a TypeError. *)
Theorem getAll_sets_the_fields_of_the_first_link_entry (a : association)
    (lm : string) (data : list obj) (result : list listed) :
  type a = "MANY_MANY" →
  linkingModel a = Some lm →
  lm ≠ "" →
  keyed (model a) data →
  (Forall (fun object =>
     ∃ id, plain object !! "_id" = Some (JStr id)
           ∧ entriesFor (model a) id data ≠ []) result →
   insertExtraFields a data result
   = Ok ((fun object =>
            {| plain := delete lm (plain object);
               nested :=
                 <[lm := delete (model a) (delete "_id"
                           (default ∅
                              (head (entriesFor (model a)
                                       (match plain object !! "_id" with
                                        | Some (JStr id) => id
                                        | _ => ""
                                        end) data))))]>
                   (nested object) |}) <$> result))
  ∧ ∀ object id rest,
      plain object !! "_id" = Some (JStr id) →
      entriesFor (model a) id data = [] →
      insertExtraFields a data (object :: rest)
      = Throw (TypeError "Cannot read property 'toJSON' of undefined").
Proof.
  intros Htype Hlm Hne Hkeyed. split.
  - by apply insertExtraFields_each.
  - intros object id rest Hid Hnone. unfold insertExtraFields.
    rewrite Hlm, Htype. rewrite (proj2 (String.eqb_neq _ _) Hne). simpl.
    by rewrite (findM_isLinkOf _ _ _ _ Hkeyed Hid), Hnone.
Qed.

Lemma getAll_sets_the_fields_of_the_first_link_entry_witness :
  let rolesOfUser : association :=
    {| type := "MANY_MANY"; model := "role"; foreignField := None;
       linkingModel := Some "user_role"; include_as := Some "roles" |} in
  let r1 := {| plain := {[ "_id" := JStr "r1" ]}; nested := ∅ |} in
  let r2 := {| plain := {[ "_id" := JStr "r2" ]}; nested := ∅ |} in
  insertExtraFields rolesOfUser [ownerEntry] [r1]
  = Ok [ {| plain := {[ "_id" := JStr "r1" ]};
            nested := {[ "user_role" := {[ "level" := JNum 3 ]} ]} |} ]
  ∧ insertExtraFields rolesOfUser [ownerEntry] [r2; r1]
    = Throw (TypeError "Cannot read property 'toJSON' of undefined").
Proof.
  set (rolesOfUser := {| type := "MANY_MANY"; model := "role"; foreignField := None;
                         linkingModel := Some "user_role";
                         include_as := Some "roles" |}).
  assert (Hne : "user_role" ≠ "") by discriminate.
  assert (Hkeyed : keyed (model rolesOfUser) [ownerEntry]).
  { constructor; [|constructor]. by eexists. }
  destruct (getAll_sets_the_fields_of_the_first_link_entry rolesOfUser "user_role"
              [ownerEntry] [{| plain := {[ "_id" := JStr "r1" ]}; nested := ∅ |}]
              eq_refl eq_refl Hne Hkeyed) as [Hsets Hthrows].
  split.
  - rewrite Hsets.
    + vm_compute. reflexivity.
    + constructor; [|constructor]. exists "r1". split; [reflexivity|].
      vm_compute. discriminate.
  - apply (Hthrows _ "r2"); [reflexivity|]. vm_compute. reflexivity.
Defined.

(** X24: what [_addOne] stores is what [_getAll] shows: after [_addOne] with
    extra fields, the child in the list is given, under the name of the
    linking model, exactly these extra fields (a [childId], an [_id] and
    the reference apart). *)
Theorem getAll_shows_the_extra_fields_of_addOne (ownerModel childModel : Model)
    (ownerId childId associationName childAssociationName lm : string)
    (a : association) (o c : document) (oa ca : list obj) (extra : option obj)
    (object : listed) (st : store) :
  manyMany ownerModel childModel associationName childAssociationName →
  lookupAssociation ownerModel associationName = Ok a →
  model a = modelName childModel →
  linkingModel a = Some lm →
  lm ≠ "" →
  holds st ownerModel ownerId associationName (modelName childModel) o oa →
  holds st childModel childId childAssociationName (modelName ownerModel) c ca →
  (modelName ownerModel, ownerId) ≠ (modelName childModel, childId) →
  faultless st →
  plain object !! "_id" = Some (JStr childId) →
  let added :=
    _addOne ownerModel ownerId childModel childId associationName extra st in
  added.1 = Resolved (VBool true)
  ∧ ∃ oa',
      storedArray added.2 ownerModel ownerId associationName = Some oa'
      ∧ insertExtraFields a oa' [object]
        = Ok [ {| plain := delete lm (plain object);
                  nested :=
                    <[lm := delete (modelName childModel)
                              (delete "_id" (delete "childId" (default ∅ extra)))]>
                      (nested object) |} ].
Proof.
  intros Hmm Ha Hmodel Hlm Hne Howner Hchild Hkeys Hfaultless Hid.
  destruct (addOne_links ownerModel childModel ownerId childId associationName
              childAssociationName o c oa ca extra st Hmm Howner Hchild Hkeys
              Hfaultless) as (n & n' & st' & Hadd & Howner' & _).
  simpl in Hadd, Howner'. simpl. rewrite Hadd. simpl. split; [done|].
  set (ownerPayload := <[modelName childModel := JStr childId]> _) in *.
  set (oa' := upsert (modelName childModel) childId true ownerPayload n oa) in *.
  exists oa'. split; [by eapply holds_storedArray|].
  assert (Hpayload : toString <$> ownerPayload !! modelName childModel
                     = Some childId)
    by (unfold ownerPayload; by rewrite lookup_insert_eq).
  assert (Htype : type a = "MANY_MANY").
  { destruct Hmm as [(a' & Ha' & Htype) _]. congruence. }
  destruct Howner' as [_ _ _ Hkoa'].
  rewrite (insertExtraFields_each a lm oa' [object] Htype Hlm Hne).
  - simpl. rewrite Hid, Hmodel. do 4 f_equal.
    destruct (entriesFor (modelName childModel) childId oa') as [|entry rest]
      eqn:Hentries.
    { by destruct (upsert_linked _ _ true _ n oa Hpayload). }
    simpl. apply map_eq. intros k.
    destruct (decide (k = modelName childModel)) as [->|Hk1].
    { by rewrite !lookup_delete_eq. }
    rewrite !(lookup_delete_ne _ (modelName childModel)) by done.
    destruct (decide (k = "_id")) as [->|Hk2].
    { by rewrite !lookup_delete_eq. }
    rewrite !(lookup_delete_ne _ "_id") by done.
    rewrite (upsert_entry_fields _ _ _ _ _ _ _ Hpayload Hentries) by done.
    unfold ownerPayload. by rewrite lookup_insert_ne.
  - by rewrite Hmodel.
  - constructor; [|constructor]. exists childId. split; [done|].
    rewrite Hmodel. by apply upsert_linked.
Qed.

Lemma getAll_shows_the_extra_fields_of_addOne_witness :
  let rolesOfUser : association :=
    {| type := "MANY_MANY"; model := "role"; foreignField := None;
       linkingModel := Some "user_role"; include_as := Some "roles" |} in
  let r1 := {| plain := {[ "_id" := JStr "r1" ]}; nested := ∅ |} in
  let added := _addOne userModel "u1" roleModel "r1" "roles" (Some level3)
                 (unlinked []) in
  added.1 = Resolved (VBool true)
  ∧ ∃ oa',
      storedArray added.2 userModel "u1" "roles" = Some oa'
      ∧ insertExtraFields rolesOfUser oa' [r1]
        = Ok [ {| plain := delete "user_role" (plain r1);
                  nested :=
                    <["user_role" := delete "role"
                        (delete "_id" (delete "childId" (default ∅ (Some level3))))]>
                      (nested r1) |} ].
Proof.
  assert (Hne : "user_role" ≠ "") by discriminate.
  assert (Hkeys : (modelName userModel, "u1") ≠ (modelName roleModel, "r1"))
    by discriminate.
  assert (Hfaultless : faultless (unlinked [])) by constructor.
  exact (getAll_shows_the_extra_fields_of_addOne userModel roleModel
           "u1" "r1" "roles" "users" "user_role" _ _ _ _ _ (Some level3)
           {| plain := {[ "_id" := JStr "r1" ]}; nested := ∅ |} (unlinked [])
           manyMany_users_roles eq_refl eq_refl eq_refl Hne
           (holds_unlinked_user []) (holds_unlinked_role [] "r1" (or_introl eq_refl))
           Hkeys Hfaultless eq_refl).
Defined.

End GetAllFacts.

(** * Properties of the Joi model generator *)

Module JoiFacts.
Import JS JoiHelper JoiExamples.

(** A loop whose body leaves a key alone leaves it alone. *)
Lemma forIn_untouched {A : Type}
    (body : gmap string joi → string * A → result (gmap string joi))
    (l : list (string * A)) (name : string) :
  (∀ b n a b', (n, a) ∈ l → body b (n, a) = Ok b' → b' !! name = b !! name) →
  ∀ base r, forIn body l base = Ok r → r !! name = base !! name.
Proof.
  induction l as [|[n a] l IH]; intros Hbody base r; simpl.
  - by intros [= ->].
  - destruct (body base (n, a)) as [b'|e] eqn:Hstep; simpl; [|done].
    intros Hrest. rewrite (IH (fun b n' a' b' Hin => Hbody b n' a' b' (list_elem_of_further _ _ _ Hin)) _ _ Hrest).
    eapply Hbody; [|done]. by left.
Qed.

Lemma extend_None (base : gmap string joi) (extra : option (gmap string joi))
    (name : string) :
  (∀ e, extra = Some e → e !! name = None) →
  extend base extra !! name = base !! name.
Proof.
  intros Hextra. destruct extra as [e|]; [|done]. simpl.
  apply lookup_union_r. by apply Hextra.
Qed.

(** The rule that an association gets. *)
Lemma associations_rule (l : list (string * string)) (name : string) :
  (∀ t, (name, t) ∈ l → t ≠ "MANY") →
  ∀ base : gmap string joi,
    (∃ t, (name, t) ∈ l)
    ∨ base !! name = Some (optional (allow (unknown Joi_object) Null)) →
    foldl (fun readModelBase '(associationName, type) =>
        <[associationName := associationReadModel type]> readModelBase)
      base l !! name
    = Some (optional (allow (unknown Joi_object) Null)).
Proof.
  induction l as [|[n t] l IH]; intros Hnot base Hin; simpl.
  - destruct Hin as [[t Ht]|Hbase]; [by apply elem_of_nil in Ht|done].
  - apply IH.
    { intros t' Ht'. apply Hnot. by right. }
    destruct Hin as [[t' Ht']|Hbase].
    + apply elem_of_cons in Ht' as [[= <- <-]|Ht']; [|by eauto].
      right. rewrite lookup_insert_eq. unfold associationReadModel.
      by rewrite (proj2 (String.eqb_neq _ _) (Hnot _ (list_elem_of_here _ _))).
    + destruct (decide (n = name)) as [->|Hn].
      * right. rewrite lookup_insert_eq. unfold associationReadModel.
        by rewrite (proj2 (String.eqb_neq _ _) (Hnot _ (list_elem_of_here _ _))).
      * right. by rewrite lookup_insert_ne.
Qed.

Lemma associations_untouched (l : list (string * string)) (name : string) :
  (∀ t, (name, t) ∉ l) →
  ∀ base : gmap string joi,
    foldl (fun readModelBase '(associationName, type) =>
        <[associationName := associationReadModel type]> readModelBase)
      base l !! name
    = base !! name.
Proof.
  induction l as [|[n t] l IH]; intros Hnot base; simpl; [done|].
  rewrite IH.
  - apply lookup_insert_ne. intros ->. apply (Hnot t). by left.
  - intros t' Ht'. apply (Hnot t'). by right.
Qed.

(** X25: an association whose type is not the string "MANY" (so every
    ONE_MANY and every MANY_MANY association) is declared in the read model
    as one optional object that may be [null], never as an array, whatever
    a path of the same name says. *)
Theorem association_is_read_as_one_object (model : mongooseModel)
    (r : joiObject) (l : list (string * string)) (name : string) :
  generateJoiReadModel model = Ok r →
  associations (methods model) = Some l →
  (∃ t, (name, t) ∈ l) →
  (∀ t, (name, t) ∈ l → t ≠ "MANY") →
  (∀ e, extraReadModelAttributes (methods model) = Some e → e !! name = None) →
  keys r !! name = Some (optional (allow (unknown Joi_object) Null)).
Proof.
  intros Hgen Hl Hin Hnot Hextra. unfold generateJoiReadModel in Hgen.
  destruct (forIn _ (paths model) ∅) as [base|e]; simpl in Hgen; [|done].
  injection Hgen as <-. simpl.
  rewrite (extend_None _ _ _ Hextra), Hl.
  apply associations_rule; auto.
Qed.

Lemma association_is_read_as_one_object_witness :
  ∃ r, generateJoiReadModel permissionWithKey = Ok r
       ∧ keys r !! "users" = Some (optional (allow (unknown Joi_object) Null)).
Proof.
  destruct (generateJoiReadModel permissionWithKey) as [r|e] eqn:Hgen;
    [|by vm_compute in Hgen].
  exists r. split; [done|].
  apply (association_is_read_as_one_object permissionWithKey r
           [("users", "MANY_MANY"); ("roles", "MANY_MANY")] "users" Hgen eq_refl).
  - exists "MANY_MANY". by left.
  - intros t Ht. rewrite !elem_of_cons, elem_of_nil in Ht.
    destruct Ht as [[= ->]|[[= ?]|[]]]. discriminate.
  - by intros e [= ].
Defined.

(** X26: a path that is not to be read ([allowOnRead] is [false] or
    [exclude] is [true], and no read model of its own) has no key in the
    generated read model, unless an association or an extra attribute of
    the same name puts one there. *)
Theorem hidden_path_stays_out_of_the_read_model (model : mongooseModel)
    (r : joiObject) (name : string) :
  generateJoiReadModel model = Ok r →
  (∀ f, (name, f) ∈ paths model →
     readModel f = None
     ∧ (allowOnRead f = VBool false ∨ exclude f = VBool true)) →
  (∀ l t, associations (methods model) = Some l → (name, t) ∉ l) →
  (∀ e, extraReadModelAttributes (methods model) = Some e → e !! name = None) →
  keys r !! name = None.
Proof.
  intros Hgen Hhidden Hassoc Hextra. unfold generateJoiReadModel in Hgen.
  destruct (forIn _ (paths model) ∅) as [base|e] eqn:Hloop; simpl in Hgen; [|done].
  injection Hgen as <-. simpl.
  rewrite (extend_None _ _ _ Hextra).
  assert (Hbase : base !! name = None).
  { erewrite forIn_untouched; [|clear Hloop|exact Hloop]; [done|].
    intros b n f b' Hin.
    destruct (decide (n = name)) as [->|Hn].
    - destruct (Hhidden f Hin) as [-> Hflag].
      assert (negb (isFalse (allowOnRead f)) && negb (isTrue (exclude f)) = false)
        as -> by (destruct Hflag as [-> | ->]; simpl; by rewrite ?andb_false_r).
      by intros [= ->].
    - destruct (readModel f) as [custom|].
      { intros [= <-]. by rewrite lookup_insert_ne. }
      destruct (negb (isFalse (allowOnRead f)) && negb (isTrue (exclude f)));
        [|by intros [= ->]].
      destruct (generateJoiModelFromAttribute f) as [a|e]; simpl; [|done].
      intros [= <-]. by rewrite lookup_insert_ne. }
  destruct (associations (methods model)) as [l|] eqn:Hl; [|done].
  rewrite associations_untouched; [done|].
  intros t. by apply Hassoc.
Qed.

Lemma hidden_path_stays_out_of_the_read_model_witness :
  ∃ r, generateJoiReadModel permissionWithKey = Ok r
       ∧ keys r !! "key" = None.
Proof.
  destruct (generateJoiReadModel permissionWithKey) as [r|e] eqn:Hgen;
    [|by vm_compute in Hgen].
  exists r. split; [done|].
  apply (hidden_path_stays_out_of_the_read_model permissionWithKey r "key" Hgen).
  - intros f Hf. simpl in Hf. rewrite !elem_of_cons, elem_of_nil in Hf.
    destruct Hf as [[= ->]|[[= ?]|[[= ?]|[]]]]. split; [done|by right].
  - intros l t [= <-] Ht. rewrite !elem_of_cons, elem_of_nil in Ht.
    destruct Ht as [[= ?]|[[= ?]|[]]].
  - by intros e [= ].
Defined.

(** X27: a path that is a primary key and has no update or create model of
    its own has no key in the generated update model nor in the generated
    create model, unless the extra attributes put one there. *)
Theorem primary_key_stays_out_of_update_and_create_model
    (model : mongooseModel) (name : string) :
  (∀ f, (name, f) ∈ paths model →
     truthy (primaryKey f) = true ∧ updateModel f = None ∧ createModel f = None) →
  (∀ e, extraUpdateModelAttributes (methods model) = Some e → e !! name = None) →
  (∀ e, extraCreateModelAttributes (methods model) = Some e → e !! name = None) →
  (∀ r, generateJoiUpdateModel model = Ok r → keys r !! name = None)
  ∧ (∀ r, generateJoiCreateModel model = Ok r → keys r !! name = None).
Proof.
  intros Hkey Hupdate Hcreate. split; intros r Hgen.
  - unfold generateJoiUpdateModel in Hgen.
    destruct (forIn _ (paths model) ∅) as [base|e] eqn:Hloop; simpl in Hgen; [|done].
    injection Hgen as <-. simpl. rewrite (extend_None _ _ _ Hupdate).
    erewrite forIn_untouched; [|clear Hloop|exact Hloop]; [done|].
    intros b n f b' Hin.
    destruct (decide (n = name)) as [->|Hn].
    + destruct (Hkey f Hin) as (-> & -> & _). simpl. by intros [= ->].
    + destruct (updateModel f) as [custom|].
      { intros [= <-]. by rewrite lookup_insert_ne. }
      destruct (negb (truthy (primaryKey f)) && negb (isFalse (allowOnUpdate f)));
        [|by intros [= ->]].
      destruct (generateJoiModelFromAttribute f) as [a|e]; simpl; [|done].
      intros [= <-]. by rewrite lookup_insert_ne.
  - unfold generateJoiCreateModel in Hgen.
    destruct (forIn _ (paths model) ∅) as [base|e] eqn:Hloop; simpl in Hgen; [|done].
    injection Hgen as <-. simpl. rewrite (extend_None _ _ _ Hcreate).
    erewrite forIn_untouched; [|clear Hloop|exact Hloop]; [done|].
    intros b n f b' Hin.
    destruct (decide (n = name)) as [->|Hn].
    + destruct (Hkey f Hin) as (-> & _ & ->). simpl. by intros [= ->].
    + destruct (createModel f) as [custom|].
      { intros [= <-]. by rewrite lookup_insert_ne. }
      destruct (negb (truthy (primaryKey f)) && negb (isFalse (allowOnCreate f)));
        [|by intros [= ->]].
      destruct (generateJoiModelFromAttribute f) as [a|e]; simpl; [|done].
      intros [= <-]. by rewrite lookup_insert_ne.
Qed.

Lemma primary_key_stays_out_of_update_and_create_model_witness :
  (∃ r, generateJoiUpdateModel permissionWithKey = Ok r ∧ keys r !! "key" = None)
  ∧ (∃ r, generateJoiCreateModel permissionWithKey = Ok r ∧ keys r !! "key" = None).
Proof.
  assert (Hkey : ∀ f, (("key", f) : string * fieldOptions) ∈ paths permissionWithKey →
            truthy (primaryKey f) = true ∧ updateModel f = None ∧ createModel f = None).
  { intros f Hf. simpl in Hf. rewrite !elem_of_cons, elem_of_nil in Hf.
    by destruct Hf as [[= ->]|[[= ?]|[[= ?]|[]]]]. }
  destruct (primary_key_stays_out_of_update_and_create_model permissionWithKey "key"
              Hkey) as [Hupdate Hcreate]; [by intros e [= ]..|].
  split.
  - destruct (generateJoiUpdateModel permissionWithKey) as [r|e] eqn:Hgen;
      [|by vm_compute in Hgen].
    exists r. split; [done|]. by apply Hupdate.
  - destruct (generateJoiCreateModel permissionWithKey) as [r|e] eqn:Hgen;
      [|by vm_compute in Hgen].
    exists r. split; [done|]. by apply Hcreate.
Defined.

End JoiFacts.
